(** * tweettemp451: a shallow embedding of the tweet-to-temperature pipeline

    The development follows the layout of the Python package:
    - [py]        the fragment of the Python object model the code relies on
                  (exceptions, JSON values, truthiness, [dict.get], indexing);
    - [decimal]   finite [decimal.Decimal] numbers in the default context
                  (28 significant digits, ROUND_HALF_EVEN);
    - [tenacity]  the retry loop configured by the [@tenacity.retry] decorators;
    - [twitter]   [TwitterClient.stream] and [TweetTransformer];
    - [weather]   [WeatherClient];
    - [pipeline]  the stages of [pipeline.py].

    Stages are embedded as functions from the list of items they receive to
    the list of items they send plus the way the stage ends. *)

From Stdlib Require Import ZArith QArith Qpower Qabs Qfield List String Ascii Bool Lia.
From Stdlib Require Import PrimFloat FloatOps SpecFloat.
From stdpp Require Import base list.

Local Open Scope Z_scope.

(* ===================================================================== *)
(** * Python object model                                                  *)
(* ===================================================================== *)

Module py.

(** The exception classes that occur in the embedded code. *)
Inductive exn : Type :=
| IndexError
| AttributeError
| TypeError
| ValueError
| OverflowError
| ZeroDivisionError
| UnboundLocalError
| DecimalOverflow          (* decimal.Overflow *)
| DecimalDivisionByZero    (* decimal.DivisionByZero *)
| DecimalInvalidOperation  (* decimal.InvalidOperation *)
| TransportError           (* httpx.TransportError and its subclasses *)
| HTTPStatusError          (* httpx.HTTPStatusError *)
| RetryError               (* tenacity.RetryError *)
| BrokenResourceError      (* trio.BrokenResourceError *)
| JSONDecodeError          (* json.JSONDecodeError *)
| ParserError.             (* dateutil.parser.ParserError *)

(** A computation either returns or raises. *)
Inductive result (A : Type) : Type :=
| Ok (a : A)
| Raise (e : exn).
Arguments Ok {A} a.
Arguments Raise {A} e.

#[export] Instance result_ret : MRet result := fun _ a => Ok a.
#[export] Instance result_bind : MBind result := fun _ _ f m =>
  match m with
  | Ok a => f a
  | Raise e => Raise e
  end.

Definition is_ok {A} (r : result A) : bool :=
  match r with Ok _ => true | Raise _ => false end.

(** [l[i]] with Python's negative indices. *)
Definition getitem {A} (l : list A) (i : Z) : result A :=
  let n := Z.of_nat (length l) in
  let j := if i <? 0 then i + n else i in
  if (0 <=? j) && (j <? n) then
    match l !! Z.to_nat j with
    | Some x => Ok x
    | None => Raise IndexError
    end
  else Raise IndexError.

(** [l[i] = x]. *)
Definition setitem {A} (l : list A) (i : Z) (x : A) : result (list A) :=
  let n := Z.of_nat (length l) in
  let j := if i <? 0 then i + n else i in
  if (0 <=? j) && (j <? n) then Ok (<[Z.to_nat j := x]> l)
  else Raise IndexError.

(** [a % b] on ints: the result has the sign of the divisor. *)
Definition int_mod (a b : Z) : result Z :=
  if b =? 0 then Raise ZeroDivisionError else Ok (a mod b).

(** ** Objects decoded from JSON

    [json.loads] yields [None], bools, ints, reals, strings, lists and
    dicts.  The type [R] of reals is [float] by default and
    [decimal.Decimal] under [parse_float=decimal.Decimal].  A dict is kept
    as its items, with distinct keys. *)
#[local] Unset Elimination Schemes.
Inductive obj (R : Type) : Type :=
| PNone
| PBool (b : bool)
| PInt (n : Z)
| PReal (r : R)
| PStr (s : string)
| PList (l : list (obj R))
| PDict (items : list (string * obj R)).
#[local] Set Elimination Schemes.
Arguments PNone {R}.
Arguments PBool {R} b.
Arguments PInt {R} n.
Arguments PReal {R} r.
Arguments PStr {R} s.
Arguments PList {R} l.
Arguments PDict {R} items.

(** What the object model needs to know about a type of reals. *)
Class Real (R : Type) : Type := { real_nonzero : R -> bool }.

(** [float]: [-0.0] is false, NaN is true. *)
#[export] Instance float_real : Real float :=
  {| real_nonzero f := negb (PrimFloat.eqb f 0%float) |}.

(** [bool(x)]. *)
Definition truthy {R} `{Real R} (x : obj R) : bool :=
  match x with
  | PNone => false
  | PBool b => b
  | PInt n => negb (n =? 0)
  | PReal r => real_nonzero r
  | PStr s => negb (String.eqb s EmptyString)
  | PList l => match l with [] => false | _ => true end
  | PDict items => match items with [] => false | _ => true end
  end.

Definition is_dict {R} (x : obj R) : bool :=
  match x with PDict _ => true | _ => false end.

Definition is_str {R} (x : obj R) : bool :=
  match x with PStr _ => true | _ => false end.

Fixpoint dict_get {R} (items : list (string * obj R)) (key : string)
    (default : obj R) : obj R :=
  match items with
  | [] => default
  | (k, v) :: rest => if String.eqb k key then v else dict_get rest key default
  end.

(** [x.get(key, default)]: only a dict has the method. *)
Definition get {R} (x : obj R) (key : string) (default : obj R) : result (obj R) :=
  match x with
  | PDict items => Ok (dict_get items key default)
  | _ => Raise AttributeError
  end.

(** The items a [for] loop (or [map]) takes from [x]. *)
Definition iterate {R} (x : obj R) : result (list (obj R)) :=
  match x with
  | PList l => Ok l
  | PDict items => Ok (map (fun kv => PStr (fst kv)) items)
  | PStr s => Ok (map (fun c => PStr (String c EmptyString)) (list_ascii_of_string s))
  | _ => Raise TypeError
  end.

(** ** Python floats *)

(** [float(n)] for an int: round to nearest even, [OverflowError] beyond
    the double range. *)
Definition float_of_int (n : Z) : result float :=
  match binary_normalize 53 1024 n 0 false with
  | S754_infinity _ => Raise OverflowError
  | sf => Ok (SF2Prim sf)
  end.

Definition int_of_bool (b : bool) : Z := if b then 1 else 0.

(** [a + b] on decoded objects (a bool is an int). *)
Definition py_add (a b : obj float) : result (obj float) :=
  let as_int (x : obj float) : option Z :=
    match x with
    | PBool c => Some (int_of_bool c)
    | PInt n => Some n
    | _ => None
    end in
  match as_int a, as_int b with
  | Some m, Some n => Ok (PInt (m + n))
  | Some m, None =>
      match b with
      | PReal g => f ← float_of_int m; Ok (PReal (f + g)%float)
      | _ => Raise TypeError
      end
  | None, Some n =>
      match a with
      | PReal f => g ← float_of_int n; Ok (PReal (f + g)%float)
      | _ => Raise TypeError
      end
  | None, None =>
      match a, b with
      | PReal f, PReal g => Ok (PReal (f + g)%float)
      | PStr s, PStr t => Ok (PStr (s ++ t)%string)
      | PList l, PList k => Ok (PList (l ++ k))
      | _, _ => Raise TypeError
      end
  end.

(** [a / d] for a non-zero float [d]. *)
Definition py_truediv (a : obj float) (d : float) : result float :=
  match a with
  | PBool c => f ← float_of_int (int_of_bool c); Ok (f / d)%float
  | PInt n => f ← float_of_int n; Ok (f / d)%float
  | PReal f => Ok (f / d)%float
  | _ => Raise TypeError
  end.

End py.
Import py.

(* ===================================================================== *)
(** * decimal.Decimal, finite numbers, default context                     *)
(* ===================================================================== *)

Module decimal.

(** The default context: [Context(prec=28, rounding=ROUND_HALF_EVEN,
    Emin=-999999, Emax=999999, clamp=0)], trapping [InvalidOperation],
    [DivisionByZero] and [Overflow]. *)
Definition prec : Z := 28.
Definition Emax : Z := 999999.
Definition Emin : Z := -999999.
Definition Etiny : Z := Emin - prec + 1.
Definition Etop : Z := Emax - prec + 1.

(** A finite decimal: [(-1)^sign * coeff * 10^exp].  NaNs and infinities are
    outside this embedding. *)
Record Decimal : Type := mkDecimal {
  sign : bool;
  coeff : N;
  exp : Z
}.

(** [Decimal(n)] for an int [n]. *)
Definition of_int (n : Z) : Decimal :=
  mkDecimal (n <? 0) (Z.to_N (Z.abs n)) 0.

Definition is_zero (d : Decimal) : bool := (coeff d =? 0)%N.

(** The signed coefficient. *)
Definition scoeff (d : Decimal) : Z :=
  if sign d then - Z.of_N (coeff d) else Z.of_N (coeff d).

(** The rational a decimal denotes. *)
Definition value (d : Decimal) : Q :=
  (inject_Z (scoeff d) * Qpower (10 # 1) (exp d))%Q.

(** [len(str(n))] for [0 <= n]. *)
Fixpoint ndigits_aux (fuel : nat) (n : Z) : Z :=
  match fuel with
  | O => 1
  | S f => if n <? 10 then 1 else 1 + ndigits_aux f (n / 10)
  end.

Definition ndigits (n : Z) : Z := ndigits_aux (S (Z.to_nat (Z.log2 n))) n.

(** [Decimal._fix]: round to the context precision (half-even), keep the
    exponent within [Etiny, Emax], raise [Overflow] above [Emax]. *)
Definition fix_ (d : Decimal) : result Decimal :=
  let c := Z.of_N (coeff d) in
  if c =? 0 then
    Ok (mkDecimal (sign d) 0 (Z.min (Z.max (exp d) Etiny) Emax))
  else
    let exp_min := ndigits c + exp d - prec in
    if Etop <? exp_min then Raise DecimalOverflow
    else
      let exp_min := Z.max exp_min Etiny in
      if exp d <? exp_min then
        let drop := exp_min - exp d in
        let q := c / 10 ^ drop in
        let r := c mod 10 ^ drop in
        let half := 5 * 10 ^ (drop - 1) in
        let up := (half <? r) || ((r =? half) && Z.odd q) in
        let '(q, exp_min) :=
          if up then
            if prec <? ndigits (q + 1) then ((q + 1) / 10, exp_min + 1)
            else (q + 1, exp_min)
          else (q, exp_min) in
        if Etop <? exp_min then Raise DecimalOverflow
        else Ok (mkDecimal (sign d) (Z.to_N q) exp_min)
      else Ok d.

(** [Decimal.__add__]: the exact sum at the smaller exponent, then [_fix]. *)
Definition add (a b : Decimal) : result Decimal :=
  let e := Z.min (exp a) (exp b) in
  if is_zero a && is_zero b then
    fix_ (mkDecimal (sign a && sign b) 0 e)
  else if is_zero a then
    let e := Z.max e (exp b - prec - 1) in
    fix_ (mkDecimal (sign b) (Z.to_N (Z.of_N (coeff b) * 10 ^ (exp b - e))) e)
  else if is_zero b then
    let e := Z.max e (exp a - prec - 1) in
    fix_ (mkDecimal (sign a) (Z.to_N (Z.of_N (coeff a) * 10 ^ (exp a - e))) e)
  else
    let r := scoeff a * 10 ^ (exp a - e) + scoeff b * 10 ^ (exp b - e) in
    fix_ (mkDecimal (r <? 0) (Z.to_N (Z.abs r)) e).

Definition copy_negate (d : Decimal) : Decimal :=
  mkDecimal (negb (sign d)) (coeff d) (exp d).

(** [Decimal.__sub__] is [self + other.copy_negate()]. *)
Definition sub (a b : Decimal) : result Decimal := add a (copy_negate b).

(** The loop of [__truediv__] that brings an exact quotient as close to the
    ideal exponent as its trailing zeros allow. *)
Fixpoint strip_zeros (fuel : nat) (c e : Z) : Z * Z :=
  match fuel with
  | O => (c, e)
  | S f => if c mod 10 =? 0 then strip_zeros f (c / 10) (e + 1) else (c, e)
  end.

(** [Decimal.__truediv__]. *)
Definition div (a b : Decimal) : result Decimal :=
  let sgn := xorb (sign a) (sign b) in
  if is_zero b then
    Raise (if is_zero a then DecimalInvalidOperation else DecimalDivisionByZero)
  else if is_zero a then fix_ (mkDecimal sgn 0 (exp a - exp b))
  else
    let ca := Z.of_N (coeff a) in
    let cb := Z.of_N (coeff b) in
    let shift := ndigits cb - ndigits ca + prec + 1 in
    let e := exp a - exp b - shift in
    let '(q, r) :=
      if 0 <=? shift then Z.div_eucl (ca * 10 ^ shift) cb
      else Z.div_eucl ca (cb * 10 ^ (- shift)) in
    if r =? 0 then
      let ideal := exp a - exp b in
      let '(q, e) := strip_zeros (Z.to_nat (ideal - e)) q e in
      fix_ (mkDecimal sgn (Z.to_N q) e)
    else
      let q := if q mod 5 =? 0 then q + 1 else q in
      fix_ (mkDecimal sgn (Z.to_N q) e).

(** [c / 10^drop] rounded half-even to an integer, as [_fix] rounds a
    coefficient of which it drops [drop] digits. *)
Definition rounded (c drop : Z) : Z :=
  let q := c / 10 ^ drop in
  let r := c mod 10 ^ drop in
  let half := 5 * 10 ^ (drop - 1) in
  if (half <? r) || ((r =? half) && Z.odd q) then q + 1 else q.

(** The value of [d] in units of [10^-k], for a decimal with at most [k]
    fractional digits. *)
Definition scaled (k : Z) (d : Decimal) : Z := scoeff d * 10 ^ (exp d + k).

Definition sum_scaled (k : Z) (l : list Decimal) : Z :=
  foldr Z.add 0 (map (scaled k) l).

Definition sum_values (l : list Decimal) : Q :=
  foldr Qplus 0%Q (map value l).

(** [d == n] for an int [n]: numeric comparison, exact. *)
Definition eq_int (d : Decimal) (n : Z) : bool :=
  if 0 <=? exp d then scoeff d * 10 ^ exp d =? n
  else scoeff d =? n * 10 ^ (- exp d).

End decimal.

(* ===================================================================== *)
(** * tenacity: the retry loop behind [@tenacity.retry]                    *)
(* ===================================================================== *)

Module tenacity.

(** [wait_exponential(multiplier, min, max, exp_base).__call__]: the wait
    after attempt [attempt_number] (counted from 1). *)
Definition wait_exponential (multiplier min max exp_base : Z)
    (attempt_number : Z) : Z :=
  let exp := exp_base ^ (attempt_number - 1) in
  let result := multiplier * exp in
  Z.max (Z.max 0 min) (Z.min result max).

(** [stop_after_attempt(max_attempt_number).__call__]. *)
Definition stop_after_attempt (max_attempt_number : Z) (attempt_number : Z) : bool :=
  max_attempt_number <=? attempt_number.

(** [retry_if_exception_type(cls)] on a failed attempt. *)
Definition retry_if_exception_type (cls : exn -> bool) (e : exn) : bool := cls e.

Record Retrying : Type := mkRetrying {
  wait : Z -> Z;
  stop : Z -> bool;
  retry : exn -> bool
}.

(** What a wrapped call did: the waits slept between attempts, the number of
    attempts made, and its result. *)
Record outcome (A : Type) : Type := mkOutcome {
  slept : list Z;
  attempts : Z;
  returned : result A
}.
Arguments mkOutcome {A} slept attempts returned.
Arguments slept {A} o.
Arguments attempts {A} o.
Arguments returned {A} o.

(** The loop of [Retrying.__call__] / [AsyncRetrying.__call__] from attempt
    [attempt_number] on.  [fn n] is what the wrapped function does when it
    is called for the [n]-th time.  An exception the [retry] predicate
    rejects is re-raised as it is; when [stop] fires, [RetryError] is
    raised; otherwise the loop sleeps and calls again.  [None] only when
    [fuel] runs out. *)
Fixpoint call_from {A} (r : Retrying) (fn : Z -> result A) (fuel : nat)
    (attempt_number : Z) (slept : list Z) : option (outcome A) :=
  match fuel with
  | O => None
  | S fuel' =>
      match fn attempt_number with
      | Ok a => Some (mkOutcome slept attempt_number (Ok a))
      | Raise e =>
          if negb (retry r e) then Some (mkOutcome slept attempt_number (Raise e))
          else if stop r attempt_number
          then Some (mkOutcome slept attempt_number (Raise RetryError))
          else call_from r fn fuel' (attempt_number + 1)
                 (slept ++ [wait r attempt_number])
      end
  end.

(** The decorators of both clients:
    [wait=wait_exponential(min=1, max=10)], [stop=stop_after_attempt(5)],
    [retry=retry_if_exception_type(httpx.TransportError)]. *)
Definition is_transport_error (e : exn) : bool :=
  match e with TransportError => true | _ => false end.

Definition client_policy : Retrying :=
  mkRetrying (wait_exponential 1 1 10 2) (stop_after_attempt 5)
    (retry_if_exception_type is_transport_error).

(** A call through the decorator; five attempts at most, so fuel 5 is
    enough (see [tenacity_facts.call_returns]). *)
Definition call {A} (fn : Z -> result A) : option (outcome A) :=
  call_from client_policy fn 5 1 [].

End tenacity.

(* ===================================================================== *)
(** * data.py                                                               *)
(* ===================================================================== *)

Module data.

Record Coordinates : Type := mkCoordinates {
  longitude : float;
  latitude : float
}.

End data.
(* ===================================================================== *)
(** * twitter.py                                                            *)
(* ===================================================================== *)

Module twitter.
Import data.

(** A [datetime.datetime]; [utcoffset] is [None] for a naive one (minutes
    east of UTC otherwise). *)
Record datetime : Type := mkDatetime {
  year : Z; month : Z; day : Z;
  hour : Z; minute : Z; second : Z; microsecond : Z;
  utcoffset : option Z
}.

Definition is_aware (t : datetime) : bool :=
  match utcoffset t with Some _ => true | None => false end.

(** What iterating an async generator gives: the items it yields, then the
    way it ends (exhausted, or an exception). *)
Record generator (A : Type) : Type := mkGenerator {
  yielded : list A;
  finish : result unit
}.
Arguments mkGenerator {A} yielded finish.
Arguments yielded {A} g.
Arguments finish {A} g.

Section client.
(** [connect n]: what the [n]-th execution of the request of
    [TwitterClient.stream] gives, as the lines of the response and the end
    of the connection. *)
Variable connect : Z -> generator string.
(** [str.rstrip]. *)
Variable rstrip : string -> string.

(** The body of [stream], run for the [n]-th time. *)
Definition stream_body (n : Z) : generator string :=
  mkGenerator (map rstrip (yielded (connect n))) (finish (connect n)).

(** [stream] is an [async def] with [yield]: calling it runs none of its
    body and returns the generator object; the body runs when the generator
    is iterated.  The thunk stands for the generator object. *)
Definition stream_function (n : Z) : result (unit -> generator string) :=
  Ok (fun _ => stream_body n).

(** [TwitterClient.stream], as decorated: the retry loop wraps the call of
    [stream_function]. *)
Definition stream : option (tenacity.outcome (unit -> generator string)) :=
  tenacity.call stream_function.

End client.

Section transformer.
(** [float(s)] for a string; [None] stands for [ValueError]. *)
Variable float_of_str : string -> option float.
(** [dateutil.parser.isoparse]. *)
Variable isoparse : string -> result datetime.

(** [float(x)]. *)
Definition py_float (x : obj float) : result float :=
  match x with
  | PBool b => float_of_int (int_of_bool b)
  | PInt n => float_of_int n
  | PReal f => Ok f
  | PStr s => match float_of_str s with
              | Some f => Ok f
              | None => Raise ValueError
              end
  | _ => Raise TypeError
  end.

Definition len_in (l : list (obj float)) (a b : nat) : bool :=
  (length l =? a)%nat || (length l =? b)%nat.

(** The first [try] of [extract_coordinates_from_geo]: [Some] when it
    returns, [None] when control goes on to the bounding box. *)
Definition point_of (coordinates : obj float) : result (option Coordinates) :=
  match coordinates with
  | PList cs =>
      if len_in cs 2 3 then
        match (c0 ← getitem cs 0; lon ← py_float c0;
               c1 ← getitem cs 1; lat ← py_float c1;
               Ok (mkCoordinates lon lat)) with
        | Ok c => Ok (Some c)
        | Raise ValueError => Ok None
        | Raise TypeError => Ok None
        | Raise e => Raise e
        end
      else Ok None
  | _ => Ok None
  end.

(** The second [try].  Its handler evaluates [exc_info=ex], and [ex] is
    a local that is unbound there (never bound, or deleted at the end of the
    first handler), so the handler itself raises [UnboundLocalError]. *)
Definition midpoint_of (bbox : obj float) : result (option Coordinates) :=
  match bbox with
  | PList bs =>
      if len_in bs 4 6 then
        match (b0 ← getitem bs 0; b2 ← getitem bs 2;
               s02 ← py_add b0 b2; lon ← py_truediv s02 2%float;
               b1 ← getitem bs 1; b3 ← getitem bs 3;
               s13 ← py_add b1 b3; lat ← py_truediv s13 2%float;
               Ok (mkCoordinates lon lat)) with
        | Ok c => Ok (Some c)
        | Raise TypeError => Raise UnboundLocalError
        | Raise e => Raise e
        end
      else Ok None
  | _ => Ok None
  end.

(** [TweetTransformer.extract_coordinates_from_geo]. *)
Definition extract_coordinates_from_geo (geo : obj float)
    : result (option Coordinates) :=
  if negb (truthy geo) then Ok None
  else
    coordinates ← get geo "coordinates" PNone;
    coordinates ← (if is_dict coordinates
                   then get coordinates "coordinates" PNone
                   else Ok coordinates);
    point ← point_of coordinates;
    match point with
    | Some c => Ok (Some c)
    | None => bbox ← get geo "bbox" PNone; midpoint_of bbox
    end.

(** [[x for x in map(lambda x: x.get('geo'), places) if x]]. *)
Fixpoint geos_of (places : list (obj float)) : result (list (obj float)) :=
  match places with
  | [] => Ok []
  | x :: rest =>
      g ← get x "geo" PNone;
      gs ← geos_of rest;
      Ok (if truthy g then g :: gs else gs)
  end.

(** [next((x for x in map(extract_coordinates_from_geo, geos) if x), None)]:
    lazily, the first geo that resolves. *)
Fixpoint first_resolved (geos : list (obj float)) : result (option Coordinates) :=
  match geos with
  | [] => Ok None
  | g :: rest =>
      c ← extract_coordinates_from_geo g;
      match c with
      | Some c => Ok (Some c)
      | None => first_resolved rest
      end
  end.

(** [TweetTransformer.get_coordinates]; [tweet] is the dict [parse_tweet]
    returned. *)
Definition get_coordinates (tweet : list (string * obj float))
    : result (option Coordinates) :=
  data ← Ok (dict_get tweet "data" (PDict []));
  geo ← get data "geo" (PDict []);
  coordinates ← extract_coordinates_from_geo geo;
  match coordinates with
  | Some c => Ok (Some c)
  | None =>
      includes ← Ok (dict_get tweet "includes" (PDict []));
      places ← get includes "places" (PList []);
      places ← iterate places;
      geos ← geos_of places;
      first_resolved geos
  end.

(** [TweetTransformer.get_timestamp]: the handler catches [ParserError],
    [UnknownTimezoneWarning] and [OverflowError]; anything else [isoparse]
    raises propagates. *)
Definition get_timestamp (tweet : list (string * obj float))
    : result (option datetime) :=
  data ← Ok (dict_get tweet "data" (PDict []));
  created_at ← get data "created_at" PNone;
  match created_at with
  | PStr s =>
      match isoparse s with
      | Ok timestamp => Ok (Some timestamp)
      | Raise ParserError => Ok None
      | Raise OverflowError => Ok None
      | Raise e => Raise e
      end
  | _ => Ok None
  end.

(** *** Vocabulary for the statements about extraction *)

(** The point coordinate list of a geo object: the value of
    ['coordinates'], or of ['coordinates'] inside it when that is a dict. *)
Definition point_list (geo : list (string * obj float)) : option (list (obj float)) :=
  match dict_get geo "coordinates" PNone with
  | PList cs => Some cs
  | PDict inner =>
      match dict_get inner "coordinates" PNone with
      | PList cs => Some cs
      | _ => None
      end
  | _ => None
  end.

(** [float(x)] raises one of the two exceptions the first handler catches. *)
Definition conversion_fails (x : obj float) : Prop :=
  py_float x = Raise ValueError \/ py_float x = Raise TypeError.

(** A point list the first [try] cannot use: wrong length, or a first or
    second entry whose conversion fails. *)
Definition unusable (cs : list (obj float)) : Prop :=
  (length cs <> 2%nat /\ length cs <> 3%nat) \/
  exists c0 c1 rest, cs = c0 :: c1 :: rest /\
    (conversion_fails c0 \/ (is_ok (py_float c0) = true /\ conversion_fails c1)).

(** [(a + b) / 2.0]. *)
Definition half_sum (a b : obj float) : result float :=
  s ← py_add a b; py_truediv s 2%float.

(** The geo object of a place of the secondary list: [x.get('geo')] for a
    place that is an object. *)
Definition place_geo (x : obj float) : obj float :=
  match x with
  | PDict items => dict_get items "geo" PNone
  | _ => PNone
  end.

(** [TweetTransformer.parse_tweet], given what [json.loads] does on the
    line ([None] when it raises [json.JSONDecodeError]). *)
Definition parse_tweet (loads : string -> option (obj float)) (tweet_json : string)
    : option (list (string * obj float)) :=
  match loads tweet_json with
  | Some (PDict items) => Some items
  | _ => None
  end.

End transformer.

(** [dateutil.parser.isoparse] on the strings the examples use: a
    date-time with an offset gives an aware [datetime], one without gives a
    naive [datetime], and any other string here stands for one it rejects,
    which it does with [ValueError]. *)
Definition isoparse_sample (s : string) : result datetime :=
  if String.eqb s "2022-03-01T12:00:00+00:00"
  then Ok (mkDatetime 2022 3 1 12 0 0 0 (Some 0))
  else if String.eqb s "2022-03-01T12:00:00"
  then Ok (mkDatetime 2022 3 1 12 0 0 0 None)
  else Raise ValueError.

End twitter.
(* ===================================================================== *)
(** * weather.py                                                            *)
(* ===================================================================== *)

Module weather.
Import data decimal.

(** [ErrorCodes.NO_MATCHING_LOCATION] and [httpx.codes.BAD_REQUEST]. *)
Definition NO_MATCHING_LOCATION : Z := 1006.
Definition BAD_REQUEST : Z := 400.

(** An [httpx.Response]: its status, and what [response.json()] and
    [response.json(parse_float=decimal.Decimal)] give on its body; [None]
    when the decoding raises ([json.JSONDecodeError] for the first,
    [json.JSONDecodeError], [decimal.InvalidOperation] or [decimal.Overflow]
    for the second). *)
Record Response : Type := mkResponse {
  status_code : Z;
  json : option (obj float);
  json_decimal : option (obj Decimal)
}.

(** [error_code == ErrorCodes.NO_MATCHING_LOCATION], the comparison of an
    [IntEnum] member with a decoded object.  Python compares a float with
    an int by value; going through [float(n)] agrees with that for the
    codes, which a double holds exactly. *)
Definition equals_int (x : obj float) (n : Z) : bool :=
  match x with
  | PBool b => int_of_bool b =? n
  | PInt m => m =? n
  | PReal f => match float_of_int n with
               | Ok g => PrimFloat.eqb f g
               | Raise _ => false
               end
  | _ => false
  end.

(** [WeatherClient.should_ignore_error].  An [httpx.Response] defines
    neither [__bool__] nor [__len__], so [response] itself is true. *)
Definition should_ignore_error (response : Response) : result bool :=
  if status_code response =? BAD_REQUEST then
    match (body ← match json response with
                  | Some body => Ok body
                  | None => Raise JSONDecodeError
                  end;
           error ← get body "error" (PDict []);
           if truthy error then get error "code" PNone else Ok PNone) with
    | Ok error_code => Ok (equals_int error_code NO_MATCHING_LOCATION)
    | Raise JSONDecodeError => Ok false
    | Raise e => Raise e
    end
  else Ok false.

(** [Response.raise_for_status] (httpx 0.22): [HTTPStatusError] unless the
    status is 2xx. *)
Definition raise_for_status (response : Response) : result unit :=
  if (200 <=? status_code response) && (status_code response <=? 299)
  then Ok tt else Raise HTTPStatusError.

(** The response carries the domain error code [code]: its body is an
    object whose ['error'] entry is an object whose ['code'] equals it. *)
Definition carries_error_code (response : Response) (code : Z) : Prop :=
  exists body error,
    json response = Some (PDict body) /\
    dict_get body "error" (PDict []) = PDict error /\
    equals_int (dict_get error "code" PNone) code = true.

(** [{"current": {"temp_f": <t>}}] with status 200. *)
Definition current_temperature (t_float : obj float) (t_decimal : obj Decimal)
    : Response :=
  mkResponse 200
    (Some (PDict [("current"%string, PDict [("temp_f"%string, t_float)])]))
    (Some (PDict [("current"%string, PDict [("temp_f"%string, t_decimal)])])).

Section client.
(** [http_get q n]: what the [n]-th request for the coordinates [q] gives. *)
Variable http_get : Coordinates -> Z -> result Response.
(** [decimal.Decimal(s)] for a string; [None] stands for
    [decimal.InvalidOperation]. *)
Variable decimal_of_str : string -> option Decimal.

(** The body of [get_current_temperature_for_coordinates], run for the
    [n]-th time. *)
Definition lookup_body (coordinates : Coordinates) (n : Z)
    : result (option Decimal) :=
  response ← http_get coordinates n;
  ignore ← should_ignore_error response;
  if ignore : bool then Ok None
  else
    _ ← raise_for_status response;
    match json_decimal response with
    | None => Ok None
    | Some weather =>
        if negb (is_dict weather) then Ok None
        else
          current ← get weather "current" (PDict []);
          temperature ← get current "temp_f" PNone;
          match temperature with
          | PReal d => Ok (Some d)
          | PStr s => Ok (decimal_of_str s)
          | _ => Ok None
          end
    end.

(** [WeatherClient.get_current_temperature_for_coordinates], as decorated:
    a coroutine function, so the retry loop wraps each run of the body. *)
Definition get_current_temperature_for_coordinates (coordinates : Coordinates)
    : option (tenacity.outcome (option Decimal)) :=
  tenacity.call (lookup_body coordinates).

End client.

End weather.
(* ===================================================================== *)
(** * pipeline.py                                                           *)
(* ===================================================================== *)

Module pipeline.
Import data decimal.

(** ** Channels *)

(** The sending end of a [trio] memory channel, as the sender sees it: what
    has been delivered so far, and how many more items the receiver takes
    before it closes its end ([None]: it never closes). *)
Record SendChannel (A : Type) : Type := mkChannel {
  delivered : list A;
  open_for : option nat
}.
Arguments mkChannel {A} delivered open_for.
Arguments delivered {A} _.
Arguments open_for {A} _.

(** [await channel.send(x)]: [BrokenResourceError] once the receiver is
    closed. *)
Definition send {A} (c : SendChannel A) (x : A) : result (SendChannel A) :=
  match open_for c with
  | None => Ok (mkChannel (delivered c ++ [x]) None)
  | Some (S n) => Ok (mkChannel (delivered c ++ [x]) (Some n))
  | Some O => Raise BrokenResourceError
  end.

(** ** observe_twitter_sample_stream *)

(** A run of the first stage: the waits of the retry loop, the lines sent
    on [send_tweet], and the way the stage ends. *)
Record observed : Type := mkObserved {
  waited : list Z;
  lines : list string;
  ended : result unit
}.

Definition observe_twitter_sample_stream (connect : Z -> twitter.generator string)
    (rstrip : string -> string) : option observed :=
  match twitter.stream connect rstrip with
  | None => None
  | Some o =>
      match tenacity.returned o with
      | Raise e => Some (mkObserved (tenacity.slept o) [] (Raise e))
      | Ok stream =>
          let g := stream tt in
          Some (mkObserved (tenacity.slept o) (twitter.yielded g) (twitter.finish g))
      end
  end.

(** ** extract_time_and_coordinates *)

Section extract.
(** [json.loads]; [None] when it raises [json.JSONDecodeError]. *)
Variable loads : string -> option (obj float).
Variable float_of_str : string -> option float.
Variable isoparse : string -> result twitter.datetime.

(** The loop of the stage: the pairs sent on [send_location] and the way the
    stage ends.  A record that yields no tweet, no timestamp or no
    coordinates is skipped. *)
Fixpoint extract_time_and_coordinates (received : list string)
    : list (twitter.datetime * Coordinates) * result unit :=
  match received with
  | [] => ([], Ok tt)
  | tweet_json :: rest =>
      match twitter.parse_tweet loads tweet_json with
      | Some ((_ :: _) as tweet) =>
          match twitter.get_timestamp isoparse tweet with
          | Raise e => ([], Raise e)
          | Ok None => extract_time_and_coordinates rest
          | Ok (Some timestamp) =>
              match twitter.get_coordinates float_of_str tweet with
              | Raise e => ([], Raise e)
              | Ok None => extract_time_and_coordinates rest
              | Ok (Some coordinates) =>
                  let '(sent, final) := extract_time_and_coordinates rest in
                  ((timestamp, coordinates) :: sent, final)
              end
          end
      | _ => extract_time_and_coordinates rest
      end
  end.

(** The line decodes to a tweet from which the timestamp and the coordinates
    of [pair] are extracted. *)
Definition yields (line : string) (pair : twitter.datetime * Coordinates) : Prop :=
  exists tweet,
    twitter.parse_tweet loads line = Some tweet /\
    twitter.get_timestamp isoparse tweet = Ok (Some pair.1) /\
    twitter.get_coordinates float_of_str tweet = Ok (Some pair.2).

End extract.

(** ** get_temperature *)

Section resolver.
Context {timestamp : Type}.
(** [lookup i q]: what
    [weather_client.get_current_temperature_for_coordinates(q)] gives for
    the [i]-th item received. *)
Variable lookup : nat -> Coordinates -> result (option Decimal).

(** A run of the stage: the two sending ends and the way the stage ends. *)
Record fanout : Type := mkFanout {
  to_file : SendChannel (timestamp * Decimal);
  to_average : SendChannel (timestamp * Decimal);
  stopped : result unit
}.

Fixpoint temperature_loop (i : nat)
    (send_temperature_to_file send_temperature_to_average
       : SendChannel (timestamp * Decimal))
    (received : list (timestamp * Coordinates)) : fanout :=
  match received with
  | [] => mkFanout send_temperature_to_file send_temperature_to_average (Ok tt)
  | (ts, coordinates) :: rest =>
      match lookup i coordinates with
      | Raise e =>
          mkFanout send_temperature_to_file send_temperature_to_average (Raise e)
      | Ok None =>
          temperature_loop (S i) send_temperature_to_file
            send_temperature_to_average rest
      | Ok (Some temperature) =>
          let datum := (ts, temperature) in
          match send send_temperature_to_file datum with
          | Raise e =>
              mkFanout send_temperature_to_file send_temperature_to_average (Raise e)
          | Ok file1 =>
              match send send_temperature_to_average datum with
              | Raise e => mkFanout file1 send_temperature_to_average (Raise e)
              | Ok average1 => temperature_loop (S i) file1 average1 rest
              end
          end
      end
  end.

Definition get_temperature
    (send_temperature_to_file send_temperature_to_average
       : SendChannel (timestamp * Decimal))
    (received : list (timestamp * Coordinates)) : fanout :=
  temperature_loop 0 send_temperature_to_file send_temperature_to_average received.

(** The records the lookups resolve, in arrival order. *)
Fixpoint resolved (i : nat) (received : list (timestamp * Coordinates))
    : list (timestamp * Decimal) :=
  match received with
  | [] => []
  | (ts, coordinates) :: rest =>
      match lookup i coordinates with
      | Ok (Some temperature) => (ts, temperature) :: resolved (S i) rest
      | _ => resolved (S i) rest
      end
  end.

End resolver.

(** ** write_data *)

Section sink.
Context {timestamp datum : Type}.
(** [str] on the timestamps and on the values, as [format] applies it. *)
Variable str_timestamp : timestamp -> string.
Variable str_datum : datum -> string.

Definition newline : string := String (ascii_of_nat 10) EmptyString.

(** [f'{timestamp},{datum}\n']. *)
Definition format_line (record : timestamp * datum) : string :=
  (str_timestamp (fst record) ++ "," ++ str_datum (snd record) ++ newline)%string.

(** [output_path.open('wt', encoding='UTF-8')] on a file that holds
    [before]: the file is truncated. *)
Definition open_wt (before : string) : string := EmptyString.

(** The text of the file once the stage has written what it received. *)
Definition write_data (before : string) (received : list (timestamp * datum))
    : string :=
  fold_left (fun text record => (text ++ format_line record)%string)
    received (open_wt before).

(** The number of line terminators in a text. *)
Fixpoint count_newlines (text : string) : nat :=
  match text with
  | EmptyString => 0
  | String c rest =>
      (if Ascii.eqb c (ascii_of_nat 10) then 1 else 0) + count_newlines rest
  end.

(** The text made of the given lines, one after the other. *)
Definition text_of (lines : list string) : string :=
  foldr String.append EmptyString lines.

End sink.

(** ** compute_sliding_average *)

(** The local variables of [compute_sliding_average]. *)
Record window_state : Type := mkWindow {
  buffer : list Decimal;
  count : Decimal;
  current : Z;
  total : Decimal
}.

(** The state before the first item is received:
    [buffer = [Decimal(0)] * window_size], [count = Decimal(0)],
    [current = 0], [total = Decimal(0)]. *)
Definition window_init (window_size : Z) : window_state :=
  mkWindow (replicate (Z.to_nat window_size) (of_int 0)) (of_int 0) 0 (of_int 0).

(** One iteration of the loop body, up to the value that is sent. *)
Definition window_step (window_size : Z) (st : window_state)
    (temperature : Decimal) : result (Decimal * window_state) :=
  total1 ← (if eq_int (count st) window_size
            then old ← getitem (buffer st) (current st); sub (total st) old
            else Ok (total st));
  buffer1 ← setitem (buffer st) (current st) temperature;
  total2 ← add total1 temperature;
  current1 ← int_mod (current st + 1) window_size;
  count1 ← (if negb (eq_int (count st) window_size)
            then add (count st) (of_int 1)
            else Ok (count st));
  average ← div total2 count1;
  Ok (average, mkWindow buffer1 count1 current1 total2).

(** The number of slots written so far ([count] is an integer-valued
    decimal). *)
Definition filled_count (st : window_state) : Z := scoeff (count st).

(** The values the running total accounts for.  Slots are written from
    index 0 upwards, so while the window fills these are the first
    [filled_count] slots, and the whole buffer once it is full. *)
Definition resident (st : window_state) : list Decimal :=
  take (Z.to_nat (filled_count st)) (buffer st).

(** Inputs on which the decimal context never rounds a window sum: at most
    [k] fractional digits and magnitude at most [B] units of [10^-k]. *)
Definition ok_input (k B : Z) (v : Decimal) : Prop :=
  (- k <= exp v <= Etop) /\ Z.abs (scaled k v) <= B.

(** The sliding-window state invariant. *)
Record window_ok (window_size k B : Z) (st : window_state) : Prop := {
  ok_length : Z.of_nat (length (buffer st)) = window_size;
  ok_count : count st = of_int (filled_count st);
  ok_filled : 0 <= filled_count st <= window_size;
  ok_current : 0 <= current st < window_size;
  ok_filling : filled_count st < window_size -> current st = filled_count st;
  ok_total_exp : - k <= exp (total st) <= 0;
  ok_total : scaled k (total st) = sum_scaled k (resident st);
  ok_resident : Forall (ok_input k B) (resident st)
}.

(** The buffer read circularly from the write cursor: oldest slot first. *)
Definition ring (st : window_state) : list Decimal :=
  drop (Z.to_nat (current st)) (buffer st) ++ take (Z.to_nat (current st)) (buffer st).

(** The most recent up-to-[window_size] values of a history, oldest first. *)
Definition recent (window_size : Z) (history : list Decimal) : list Decimal :=
  drop (length history - Z.to_nat window_size) history.

(** The state has consumed [history]. *)
Record tracks (window_size : Z) (history : list Decimal) (st : window_state) : Prop := {
  tr_current : current st = Z.of_nat (length history) mod window_size;
  tr_filled : filled_count st = Z.min (Z.of_nat (length history)) window_size;
  tr_ring : ring st
            = drop (length history)
                (replicate (Z.to_nat window_size) (of_int 0) ++ history)
}.

(** The mean of a list of decimals, as a rational. *)
Definition exact_mean (l : list Decimal) : Q :=
  (sum_values l / inject_Z (Z.of_nat (length l)))%Q.

Section stage.
Context {timestamp : Type}.

(** The loop of the stage over the items it receives: the items sent on
    [send_average], and the final state or the exception that ended the
    stage. *)
Fixpoint sliding_loop (window_size : Z) (st : window_state)
    (received : list (timestamp * Decimal))
    : list (timestamp * Decimal) * result window_state :=
  match received with
  | [] => ([], Ok st)
  | (ts, temperature) :: rest =>
      match window_step window_size st temperature with
      | Raise e => ([], Raise e)
      | Ok (average, st1) =>
          let '(sent, final) := sliding_loop window_size st1 rest in
          ((ts, average) :: sent, final)
      end
  end.

Definition compute_sliding_average (window_size : Z)
    (received : list (timestamp * Decimal)) :=
  sliding_loop window_size (window_init window_size) received.

End stage.

(** What the state holds after [history] whatever the arithmetic did to
    [total]: the buffer has [window_size] slots, [count] is the number of
    slots written so far, [current] is the slot written next, and for each
    of the last [window_size] inputs, input number [i] sits in slot
    [i mod window_size]. *)
Record window_holds (window_size : Z) (history : list Decimal)
    (st : window_state) : Prop := {
  holds_length : Z.of_nat (length (buffer st)) = window_size;
  holds_count : count st = of_int (Z.min (Z.of_nat (length history)) window_size);
  holds_current : current st = Z.of_nat (length history) mod window_size;
  holds_slots : forall i : nat,
    Z.of_nat (length history) - window_size <= Z.of_nat i
      < Z.of_nat (length history) ->
    buffer st !! Z.to_nat (Z.of_nat i mod window_size) = history !! i
}.

End pipeline.


(* ===================================================================== *)
(** * Sample inputs                                                        *)
(* ===================================================================== *)

Module samples.
Import data decimal twitter weather.

(** [Decimal('1E+28')]. *)
Definition dec_1E28 : Decimal := mkDecimal false 1 28.

(** [{"data": {"geo": <geo>}}]. *)
Definition tweet_with_geo (geo : obj float) : list (string * obj float) :=
  [("data"%string, PDict [("geo"%string, geo)])].

(** [{"coordinates": {"type": "Point", "coordinates": [12.5, 45.0]}}]. *)
Definition geo_point : obj float :=
  PDict [("coordinates"%string,
          PDict [("type"%string, PStr "Point");
                 ("coordinates"%string, PList [PReal 12.5%float; PReal 45%float])])].

(** [{"bbox": [10, 40, 15, 50]}]. *)
Definition geo_bbox : obj float :=
  PDict [("bbox"%string, PList [PInt 10; PInt 40; PInt 15; PInt 50])].

(** [{"place_id": "01a9a39529b27f36"}]: a geo object with neither a point
    nor a bounding box. *)
Definition geo_place_only : obj float :=
  PDict [("place_id"%string, PStr "01a9a39529b27f36")].

(** [{"data": {"geo": {"place_id": ...}},
      "includes": {"places": [{"id": ..., "geo": {"type": "Feature",
                                               "bbox": [10, 40, 15, 50]}}]}}]:
    the location is in the secondary list only. *)
Definition tweet_with_place : list (string * obj float) :=
  [("data"%string, PDict [("geo"%string, geo_place_only)]);
   ("includes"%string,
    PDict [("places"%string,
            PList [PDict [("id"%string, PStr "01a9a39529b27f36");
                          ("geo"%string,
                           PDict [("type"%string, PStr "Feature");
                                  ("bbox"%string,
                                   PList [PInt 10; PInt 40; PInt 15; PInt 50])])]])])].

(** [{"bbox": ["10", "40", "15", "50"]}]: the box given as strings. *)
Definition geo_text_bbox : obj float :=
  PDict [("bbox"%string, PList [PStr "10"; PStr "40"; PStr "15"; PStr "50"])].

(** [{"coordinates": [12.5], "bbox": [10, 40, 15, 50, 0, 100]}]: a point
    list of the wrong length next to a six-element box. *)
Definition geo_short_point_bbox6 : obj float :=
  PDict [("coordinates"%string, PList [PReal 12.5%float]);
         ("bbox"%string,
          PList [PInt 10; PInt 40; PInt 15; PInt 50; PInt 0; PInt 100])].

(** [{"coordinates": [12.5], "bbox": [10**400, 0, 0, 0]}]. *)
Definition geo_huge_bbox : obj float :=
  PDict [("coordinates"%string, PList [PReal 12.5%float]);
         ("bbox"%string, PList [PInt (10 ^ 400); PInt 0; PInt 0; PInt 0])].

(** No string converts: the samples carry no numeric strings. *)
Definition no_float_of_str (s : string) : option float := None.

(** [{"data": {"created_at": <s>}}]. *)
Definition tweet_created_at (s : string) : list (string * obj float) :=
  [("data"%string, PDict [("created_at"%string, PStr s)])].

(** A lookup that resolves every item to 72. *)
Definition lookup_72 (i : nat) (q : Coordinates) : result (option Decimal) :=
  Ok (Some (of_int 72)).

(** Status 200 with the body [{"current": {"temp_f": 72}}]: the
    temperature is a JSON integer. *)
Definition response_integer_temperature : Response :=
  current_temperature (PInt 72) (PInt 72).

(** Status 400 with the body
    [{"error": {"code": 1006, "message": "No matching location found."}}]. *)
Definition response_no_location : Response :=
  mkResponse 400
    (Some (PDict [("error"%string,
                   PDict [("code"%string, PInt 1006);
                          ("message"%string, PStr "No matching location found.")])]))
    (Some (PDict [("error"%string,
                   PDict [("code"%string, PInt 1006);
                          ("message"%string, PStr "No matching location found.")])])).

(** Every request is answered by [response]. *)
Definition always (response : Response) (q : Coordinates) (n : Z) : result Response :=
  Ok response.

(** No string converts to a decimal. *)
Definition no_decimal_of_str (s : string) : option Decimal := None.

Definition origin : Coordinates := mkCoordinates 0 0.

(** The first connection fails with a transport error before any line
    arrives; any later one would deliver a line and end normally. *)
Definition connect_fails_once (n : Z) : generator string :=
  if n =? 1 then mkGenerator [] (Raise TransportError)
  else mkGenerator ["{}"%string] (Ok tt).

Definition keep (s : string) : string := s.

(** Renderings for records whose timestamps and values are already
    texts. *)
Definition sample_records : list (string * string) :=
  [("2022-03-01 12:00:00+00:00"%string, "72.5"%string);
   ("2022-03-01 12:00:01+00:00"%string, "68.0"%string)].

(** [Decimal('9E+999999')]: two of them add up beyond [Emax]. *)
Definition dec_9E999999 : Decimal := mkDecimal false 9 999999.

(** The second lookup fails with an HTTP status error; the others resolve
    to 72. *)
Definition lookup_fails_second (i : nat) (q : Coordinates)
    : result (option Decimal) :=
  if (i =? 1)%nat then Raise HTTPStatusError else Ok (Some (of_int 72)).

(** [json.loads] on a line that decodes to [o]. *)
Definition loads_to (o : obj float) (line : string) : option (obj float) := Some o.

(** [{"data": null}]. *)
Definition tweet_null_data : list (string * obj float) :=
  [("data"%string, PNone)].

(** [float] on the numeric strings of the samples. *)
Definition float_of_str_sample (s : string) : option float :=
  if String.eqb s "45.5" then Some 45.5%float else None.

(** [{"coordinates": [12, "45.5", 100.0], "bbox": ["10", "40", "15", "50"]}]:
    a usable point with an altitude, next to a box on which the arithmetic
    fails. *)
Definition geo_point_and_text_bbox : list (string * obj float) :=
  [("coordinates"%string, PList [PInt 12; PStr "45.5"; PReal 100%float]);
   ("bbox"%string, PList [PStr "10"; PStr "40"; PStr "15"; PStr "50"])].

(** [{"coordinates": "here", "bbox": [10, 40, 15]}]: neither entry has a
    shape the extraction understands. *)
Definition geo_odd_shapes : list (string * obj float) :=
  [("coordinates"%string, PStr "here");
   ("bbox"%string, PList [PInt 10; PInt 40; PInt 15])].

(** A place without a geo object, a place whose box resolves, and a place
    whose box is given as strings. *)
Definition place_without_geo : obj float :=
  PDict [("id"%string, PStr "a")].
Definition place_with_bbox : obj float :=
  PDict [("id"%string, PStr "b"); ("geo"%string, geo_bbox)].
Definition place_with_text_bbox : obj float :=
  PDict [("id"%string, PStr "c"); ("geo"%string, geo_text_bbox)].

(** [{"data": {"geo": {"place_id": ...}}, "includes": {"places": <places>}}]. *)
Definition tweet_with_places (places : obj float) : list (string * obj float) :=
  [("data"%string, PDict [("geo"%string, geo_place_only)]);
   ("includes"%string, PDict [("places"%string, places)])].

(** Status 500 with a body that does not decode. *)
Definition response_server_error : Response := mkResponse 500 None None.


End samples.

(* ===================================================================== *)
(** * Facts about the object model                                         *)
(* ===================================================================== *)

Module py_facts.

Lemma bind_Ok {A B} (f : A -> result B) a : (Ok a ≫= f) = f a.
Proof. reflexivity. Qed.

Lemma bind_Raise {A B} (f : A -> result B) e : (Raise e ≫= f) = Raise e.
Proof. reflexivity. Qed.

Lemma getitem_in_range {A} (l : list A) i :
  0 <= i < Z.of_nat (length l) ->
  exists x, l !! Z.to_nat i = Some x /\ getitem l i = Ok x.
Proof.
  intros Hi. unfold getitem.
  destruct (Z.ltb_spec i 0); [lia|].
  destruct (Z.leb_spec 0 i); [|lia].
  destruct (Z.ltb_spec i (Z.of_nat (length l))); [|lia]. simpl.
  destruct (lookup_lt_is_Some_2 l (Z.to_nat i) ltac:(lia)) as [x Hx].
  exists x. by rewrite Hx.
Qed.

Lemma setitem_in_range {A} (l : list A) i x :
  0 <= i < Z.of_nat (length l) -> setitem l i x = Ok (<[Z.to_nat i := x]> l).
Proof.
  intros Hi. unfold setitem.
  destruct (Z.ltb_spec i 0); [lia|].
  destruct (Z.leb_spec 0 i); [|lia].
  by destruct (Z.ltb_spec i (Z.of_nat (length l))); [|lia].
Qed.

Lemma getitem_lookup {A} (l : list A) (i : nat) x :
  l !! i = Some x -> getitem l (Z.of_nat i) = Ok x.
Proof.
  intros Hx. pose proof (lookup_lt_Some _ _ _ Hx) as Hi.
  destruct (getitem_in_range l (Z.of_nat i) ltac:(lia)) as (y & Hy & ->).
  rewrite Nat2Z.id in Hy. congruence.
Qed.

End py_facts.
(* ===================================================================== *)
(** * Facts about the decimal context                                     *)
(* ===================================================================== *)

Module decimal_facts.
Import decimal.

Lemma ndigits_aux_pos fuel n : 1 <= ndigits_aux fuel n.
Proof.
  revert n; induction fuel as [|f IH]; intros n; simpl; [lia|].
  destruct (n <? 10); [lia|]. specialize (IH (n / 10)). lia.
Qed.

Lemma ndigits_aux_bounds fuel n :
  0 < n -> n < 2 ^ Z.of_nat fuel ->
  10 ^ (ndigits_aux fuel n - 1) <= n < 10 ^ ndigits_aux fuel n.
Proof.
  revert n; induction fuel as [|f IH]; intros n Hpos Hlt.
  - simpl in Hlt. lia.
  - simpl. destruct (Z.ltb_spec n 10) as [Hs|Hb].
    + simpl. lia.
    + assert (Hq : 0 < n / 10) by (apply Z.div_str_pos; lia).
      assert (Hf : n / 10 < 2 ^ Z.of_nat f).
      { rewrite Nat2Z.inj_succ, Z.pow_succ_r in Hlt by lia.
        apply Z.div_lt_upper_bound; lia. }
      specialize (IH _ Hq Hf).
      pose proof (ndigits_aux_pos f (n / 10)) as Hd.
      set (d := ndigits_aux f (n / 10)) in *.
      replace (1 + d - 1) with (Z.succ (d - 1)) by lia.
      replace (1 + d) with (Z.succ d) by lia.
      rewrite !Z.pow_succ_r by lia.
      pose proof (Z.div_mod n 10 ltac:(lia)) as Hdm.
      pose proof (Z.mod_pos_bound n 10 ltac:(lia)) as Hm.
      lia.
Qed.

Lemma ndigits_pos n : 1 <= ndigits n.
Proof. apply ndigits_aux_pos. Qed.

Lemma ndigits_bounds n :
  0 < n -> 10 ^ (ndigits n - 1) <= n < 10 ^ ndigits n.
Proof.
  intros Hn. apply ndigits_aux_bounds; [done|].
  rewrite Nat2Z.inj_succ, Z2Nat.id by apply Z.log2_nonneg.
  apply Z.log2_spec; lia.
Qed.

Lemma ndigits_le n p : 0 <= n < 10 ^ p -> 1 <= p -> ndigits n <= p.
Proof.
  intros [Hn Hlt] Hp.
  destruct (Z.eq_dec n 0) as [->|Hnz]; [change (ndigits 0) with 1; lia|].
  destruct (ndigits_bounds n ltac:(lia)) as [Hlo _].
  destruct (Z.le_gt_cases (ndigits n) p) as [|Hgt]; [done|].
  assert (10 ^ p <= 10 ^ (ndigits n - 1)) by (apply Z.pow_le_mono_r; lia).
  lia.
Qed.

(** A decimal that already fits the context is left alone by [_fix]. *)
Lemma fix_exact d :
  Z.of_N (coeff d) < 10 ^ prec -> Etiny <= exp d <= Etop ->
  fix_ d = Ok d.
Proof.
  intros Hc He. unfold fix_.
  destruct (Z.eqb_spec (Z.of_N (coeff d)) 0) as [Hz|Hnz].
  - destruct d as [s c e]; simpl in *.
    assert (c = 0%N) as -> by lia.
    unfold Etiny, Etop, Emax, Emin, prec in *. f_equal. f_equal. lia.
  - pose proof (ndigits_le (Z.of_N (coeff d)) prec ltac:(lia) ltac:(unfold prec; lia)) as Hd.
    destruct (Z.ltb_spec Etop (ndigits (Z.of_N (coeff d)) + exp d - prec)) as [Ho|_]; [lia|].
    destruct (Z.ltb_spec (exp d) (Z.max (ndigits (Z.of_N (coeff d)) + exp d - prec) Etiny)) as [Hr|_];
      [lia|done].
Qed.

Lemma scoeff_zero d : is_zero d = true -> scoeff d = 0.
Proof.
  unfold is_zero, scoeff. intros Hz%N.eqb_eq. rewrite Hz. by destruct (sign d).
Qed.

Lemma scoeff_abs d : Z.abs (scoeff d) = Z.of_N (coeff d).
Proof. unfold scoeff. destruct (sign d); lia. Qed.

Lemma scoeff_copy_negate d : scoeff (copy_negate d) = - scoeff d.
Proof. unfold scoeff, copy_negate; simpl. destruct (sign d); simpl; lia. Qed.

Lemma pow10_pos n : 0 < 10 ^ n \/ (n < 0 /\ 10 ^ n = 0).
Proof.
  destruct (Z.le_gt_cases 0 n) as [H|H].
  - left. apply Z.pow_pos_nonneg; lia.
  - right. split; [lia|]. apply Z.pow_neg_r; lia.
Qed.

Lemma pow10_lt_inv m n : 0 <= m -> 10 ^ m < 10 ^ n -> m < n.
Proof.
  intros Hm Hlt. destruct (Z.le_gt_cases n m) as [Hle|]; [|done].
  destruct (Z.le_gt_cases 0 n) as [Hn|Hn].
  - assert (10 ^ n <= 10 ^ m) by (apply Z.pow_le_mono_r; lia). lia.
  - rewrite (Z.pow_neg_r 10 n) in Hlt by lia.
    assert (0 < 10 ^ m) by (apply Z.pow_pos_nonneg; lia). lia.
Qed.

(** A zero operand next to a non-zero one: the non-zero operand is padded
    down to the common exponent and comes back unchanged in value. *)
Lemma pad_exact sg c ec e0 :
  0 < Z.of_N c -> Etiny <= e0 <= ec -> ec <= Etop ->
  Z.of_N c * 10 ^ (ec - e0) < 10 ^ prec ->
  let e := Z.max e0 (ec - prec - 1) in
  fix_ (mkDecimal sg (Z.to_N (Z.of_N c * 10 ^ (ec - e))) e)
  = Ok (mkDecimal sg (Z.to_N (Z.of_N c * 10 ^ (ec - e0))) e0).
Proof.
  intros Hc He Htop Hlt e.
  assert (Hp : 0 < 10 ^ (ec - e0)) by (apply Z.pow_pos_nonneg; lia).
  assert (Hgap : ec - e0 < prec).
  { apply pow10_lt_inv; [lia|]. nia. }
  assert (e = e0) as -> by (unfold e; lia).
  apply fix_exact; simpl; [|lia].
  rewrite Z2N.id by lia. done.
Qed.

(** When the exact sum fits the precision, [add] returns it unrounded, at
    the smaller of the two exponents. *)
Lemma add_exact a b :
  Etiny <= exp a <= Etop -> Etiny <= exp b <= Etop ->
  Z.abs (scoeff a * 10 ^ (exp a - Z.min (exp a) (exp b))
         + scoeff b * 10 ^ (exp b - Z.min (exp a) (exp b))) < 10 ^ prec ->
  exists r, add a b = Ok r /\ exp r = Z.min (exp a) (exp b) /\
    scoeff r = scoeff a * 10 ^ (exp a - Z.min (exp a) (exp b))
               + scoeff b * 10 ^ (exp b - Z.min (exp a) (exp b)).
Proof.
  intros Ha Hb. set (e := Z.min (exp a) (exp b)). intros Hs.
  unfold add. fold e.
  destruct (is_zero a) eqn:Hza, (is_zero b) eqn:Hzb; simpl.
  - rewrite !scoeff_zero by done.
    eexists; split; [apply fix_exact; simpl; [unfold prec|]; lia|].
    split; [done|]. unfold scoeff; simpl. by destruct (sign a && sign b).
  - rewrite (scoeff_zero a) in * by done.
    assert (Hcb : 0 < Z.of_N (coeff b)).
    { unfold is_zero in Hzb. apply N.eqb_neq in Hzb. lia. }
    assert (Hp : 0 < 10 ^ (exp b - e)) by (apply Z.pow_pos_nonneg; lia).
    rewrite Z.mul_0_l, Z.add_0_l in *.
    rewrite Z.abs_mul, scoeff_abs, (Z.abs_eq (10 ^ _)) in Hs by lia.
    rewrite pad_exact by (done || lia).
    eexists; split; [done|]. split; [done|].
    unfold scoeff; simpl. rewrite Z2N.id by lia. destruct (sign b); lia.
  - rewrite (scoeff_zero b) in * by done.
    assert (Hca : 0 < Z.of_N (coeff a)).
    { unfold is_zero in Hza. apply N.eqb_neq in Hza. lia. }
    assert (Hp : 0 < 10 ^ (exp a - e)) by (apply Z.pow_pos_nonneg; lia).
    rewrite Z.mul_0_l, Z.add_0_r in *.
    rewrite Z.abs_mul, scoeff_abs, (Z.abs_eq (10 ^ _)) in Hs by lia.
    rewrite pad_exact by (done || lia).
    eexists; split; [done|]. split; [done|].
    unfold scoeff; simpl. rewrite Z2N.id by lia. destruct (sign a); lia.
  - set (s := scoeff a * 10 ^ (exp a - e) + scoeff b * 10 ^ (exp b - e)) in *.
    eexists; split; [apply fix_exact; simpl; [rewrite Z2N.id by lia; done|lia]|].
    split; [done|]. unfold scoeff; simpl. rewrite Z2N.id by lia.
    destruct (Z.ltb_spec s 0); lia.
Qed.

Lemma sub_exact a b :
  Etiny <= exp a <= Etop -> Etiny <= exp b <= Etop ->
  Z.abs (scoeff a * 10 ^ (exp a - Z.min (exp a) (exp b))
         - scoeff b * 10 ^ (exp b - Z.min (exp a) (exp b))) < 10 ^ prec ->
  exists r, sub a b = Ok r /\ exp r = Z.min (exp a) (exp b) /\
    scoeff r = scoeff a * 10 ^ (exp a - Z.min (exp a) (exp b))
               - scoeff b * 10 ^ (exp b - Z.min (exp a) (exp b)).
Proof.
  intros Ha Hb Hs. unfold sub.
  destruct (add_exact a (copy_negate b)) as (r & Hr & He & Hv); simpl; try done.
  - rewrite scoeff_copy_negate.
    replace (_ + _) with (scoeff a * 10 ^ (exp a - Z.min (exp a) (exp b))
         - scoeff b * 10 ^ (exp b - Z.min (exp a) (exp b))) by lia. done.
  - exists r. split; [done|]. split; [done|].
    rewrite Hv. simpl. rewrite scoeff_copy_negate. lia.
Qed.

Lemma scaled_split k e d :
  e <= exp d -> 0 <= e + k ->
  scaled k d = scoeff d * 10 ^ (exp d - e) * 10 ^ (e + k).
Proof.
  intros He Hk. unfold scaled.
  rewrite <- Z.mul_assoc, <- Z.pow_add_r by lia. do 2 f_equal. lia.
Qed.

Lemma abs_le_mul_pow x n : 0 <= n -> Z.abs x <= Z.abs (x * 10 ^ n).
Proof.
  intros Hn. assert (0 < 10 ^ n) by (apply Z.pow_pos_nonneg; lia).
  rewrite Z.abs_mul, (Z.abs_eq (10 ^ n)) by lia. nia.
Qed.

Lemma add_scaled k a b :
  0 <= k <= - Etiny ->
  - k <= exp a <= Etop -> - k <= exp b <= Etop ->
  Z.abs (scaled k a + scaled k b) < 10 ^ prec ->
  exists r, add a b = Ok r /\ exp r = Z.min (exp a) (exp b) /\
    scaled k r = scaled k a + scaled k b.
Proof.
  intros Hk Ha Hb Hs. set (e := Z.min (exp a) (exp b)).
  rewrite (scaled_split k e a), (scaled_split k e b) in * by lia.
  rewrite <- Z.mul_add_distr_r in *.
  destruct (add_exact a b) as (r & Hr & He & Hv); [lia|lia| |].
  - eapply Z.le_lt_trans; [apply (abs_le_mul_pow _ (e + k)); lia|done].
  - exists r. split; [done|]. split; [done|].
    unfold scaled. rewrite Hv, He. done.
Qed.

Lemma sub_scaled k a b :
  0 <= k <= - Etiny ->
  - k <= exp a <= Etop -> - k <= exp b <= Etop ->
  Z.abs (scaled k a - scaled k b) < 10 ^ prec ->
  exists r, sub a b = Ok r /\ exp r = Z.min (exp a) (exp b) /\
    scaled k r = scaled k a - scaled k b.
Proof.
  intros Hk Ha Hb Hs. unfold sub.
  assert (Hn : scaled k (copy_negate b) = - scaled k b).
  { unfold scaled. rewrite scoeff_copy_negate. simpl. lia. }
  destruct (add_scaled k a (copy_negate b)) as (r & Hr & He & Hv); try done.
  - rewrite Hn. by replace (scaled k a + - scaled k b) with (scaled k a - scaled k b) by lia.
  - exists r. split; [done|]. split; [done|]. lia.
Qed.

(** ** Integers as decimals *)

Lemma scoeff_of_int n : scoeff (of_int n) = n.
Proof.
  unfold scoeff, of_int; simpl. rewrite Z2N.id by lia.
  destruct (Z.ltb_spec n 0); lia.
Qed.

Lemma eq_int_of_int n m : eq_int (of_int n) m = (n =? m).
Proof.
  unfold eq_int. change (exp (of_int n)) with 0. simpl.
  rewrite scoeff_of_int. f_equal. lia.
Qed.

Lemma of_int_intro d n :
  0 < n -> exp d = 0 -> scoeff d = n -> d = of_int n.
Proof.
  destruct d as [s c e]; unfold scoeff, of_int; simpl. intros Hn -> Hc.
  destruct s; [lia|]. destruct (Z.ltb_spec n 0); [lia|].
  f_equal. lia.
Qed.

Lemma add_one_of_int c :
  0 <= c -> c + 1 < 10 ^ prec -> add (of_int c) (of_int 1) = Ok (of_int (c + 1)).
Proof.
  intros Hc Hlt.
  destruct (add_exact (of_int c) (of_int 1)) as (r & Hr & He & Hv).
  - unfold Etiny, Etop, Emax, Emin, prec. simpl. lia.
  - unfold Etiny, Etop, Emax, Emin, prec. simpl. lia.
  - rewrite !scoeff_of_int. change (exp (of_int _)) with 0.
    change (10 ^ (0 - Z.min 0 0)) with 1. lia.
  - rewrite Hr. f_equal. apply of_int_intro; [lia|done|].
    rewrite Hv, !scoeff_of_int. change (exp (of_int _)) with 0.
    change (10 ^ (0 - Z.min 0 0)) with 1. lia.
Qed.

(** ** Division does not overflow on moderate operands *)

Lemma fix_returns d :
  ndigits (Z.of_N (coeff d)) + exp d - prec < Etop -> exists r, fix_ d = Ok r.
Proof.
  intros Hd. unfold fix_.
  destruct (Z.of_N (coeff d) =? 0); [by eexists|].
  destruct (Z.ltb_spec Etop (ndigits (Z.of_N (coeff d)) + exp d - prec)); [lia|].
  destruct (exp d <? _); [|by eexists].
  assert (Ht : Etiny + 1 <= Etop) by (unfold Etiny, Etop, Emin, Emax, prec; lia).
  destruct (_ || _).
  - destruct (prec <? _).
    + destruct (Z.ltb_spec Etop (Z.max (ndigits (Z.of_N (coeff d)) + exp d - prec) Etiny + 1));
        [lia|by eexists].
    + destruct (Z.ltb_spec Etop (Z.max (ndigits (Z.of_N (coeff d)) + exp d - prec) Etiny));
        [lia|by eexists].
  - destruct (Z.ltb_spec Etop (Z.max (ndigits (Z.of_N (coeff d)) + exp d - prec) Etiny));
      [lia|by eexists].
Qed.

Lemma strip_zeros_bounds fuel c e :
  0 <= c ->
  0 <= (strip_zeros fuel c e).1 <= c /\
  e <= (strip_zeros fuel c e).2 <= e + Z.of_nat fuel.
Proof.
  revert c e; induction fuel as [|f IH]; intros c e Hc; simpl; [lia|].
  destruct (c mod 10 =? 0); simpl; [|lia].
  assert (Hq : 0 <= c / 10 <= c).
  { split; [apply Z.div_pos; lia|]. apply Z.div_le_upper_bound; lia. }
  destruct (IH (c / 10) (e + 1)) as [? ?]; lia.
Qed.

Lemma div_returns a b :
  is_zero b = false ->
  Z.of_N (coeff a) < 10 ^ prec -> Z.of_N (coeff b) < 10 ^ prec ->
  exp a - exp b + 64 <= Etop ->
  exists r, div a b = Ok r.
Proof.
  intros Hzb Ha Hb He. unfold div. rewrite Hzb.
  destruct (is_zero a) eqn:Hza; [by eexists|].
  apply N.eqb_neq in Hza, Hzb.
  pose proof (ndigits_pos (Z.of_N (coeff a))) as Hla1.
  pose proof (ndigits_pos (Z.of_N (coeff b))) as Hlb1.
  pose proof (ndigits_le (Z.of_N (coeff a)) prec ltac:(lia) ltac:(unfold prec; lia)) as Hla.
  pose proof (ndigits_le (Z.of_N (coeff b)) prec ltac:(lia) ltac:(unfold prec; lia)) as Hlb.
  set (shift := ndigits (Z.of_N (coeff b)) - ndigits (Z.of_N (coeff a)) + prec + 1).
  assert (Hsh : 2 <= shift <= 2 * prec) by (unfold shift, prec in *; lia).
  destruct (Z.leb_spec 0 shift) as [_|]; [|lia].
  destruct (Z.div_eucl _ _) as [q r] eqn:Hqr.
  assert (Hq : q = Z.of_N (coeff a) * 10 ^ shift / Z.of_N (coeff b))
    by (unfold Z.div; by rewrite Hqr).
  assert (Hp : 0 < 10 ^ shift) by (apply Z.pow_pos_nonneg; lia).
  assert (Hq0 : 0 <= q) by (subst q; apply Z.div_pos; nia).
  assert (Hqle : q <= Z.of_N (coeff a) * 10 ^ shift)
    by (subst q; apply Z.div_le_upper_bound; nia).
  assert (Hqlt : q + 1 <= 10 ^ (prec + shift))
    by (rewrite Z.pow_add_r by (unfold prec; lia); nia).
  assert (Hmono : 10 ^ (prec + shift) < 10 ^ (prec + shift + 1))
    by (apply Z.pow_lt_mono_r; unfold prec; lia).
  destruct (r =? 0).
  - pose proof (strip_zeros_bounds
      (Z.to_nat (exp a - exp b - (exp a - exp b - shift))) q (exp a - exp b - shift) Hq0)
      as [Hc' He'].
    destruct (strip_zeros _ _ _) as [q' e']; simpl in *.
    apply fix_returns; simpl. rewrite Z2N.id by lia.
    pose proof (ndigits_le q' (prec + shift) ltac:(lia) ltac:(unfold prec; lia)).
    unfold prec in *. lia.
  - apply fix_returns; simpl.
    destruct (q mod 5 =? 0); rewrite Z2N.id by lia.
    + pose proof (ndigits_le (q + 1) (prec + shift + 1) ltac:(lia) ltac:(unfold prec; lia)).
      unfold prec in *. lia.
    + pose proof (ndigits_le q (prec + shift + 1) ltac:(lia) ltac:(unfold prec; lia)).
      unfold prec in *. lia.
Qed.

Lemma sum_scaled_app k l1 l2 :
  sum_scaled k (l1 ++ l2) = sum_scaled k l1 + sum_scaled k l2.
Proof.
  unfold sum_scaled. induction l1 as [|x l1 IH]; simpl; [done|]. rewrite IH. lia.
Qed.

Lemma sum_scaled_cons k x l : sum_scaled k (x :: l) = scaled k x + sum_scaled k l.
Proof. done. Qed.

Lemma sum_scaled_insert k l i x v :
  l !! i = Some x ->
  sum_scaled k (<[i:=v]> l) = sum_scaled k l - scaled k x + scaled k v.
Proof.
  intros Hx. pose proof (lookup_lt_Some _ _ _ Hx) as Hi.
  rewrite insert_take_drop by done.
  rewrite <- (take_drop_middle l i x Hx) at 3.
  rewrite !sum_scaled_app, !sum_scaled_cons. lia.
Qed.

Lemma sum_scaled_bound k B l :
  Forall (fun v => Z.abs (scaled k v) <= B) l ->
  Z.abs (sum_scaled k l) <= Z.of_nat (length l) * B.
Proof.
  induction 1 as [|x l Hx _ IH]; [unfold sum_scaled; simpl; lia|].
  rewrite sum_scaled_cons. simpl length.
  rewrite Nat2Z.inj_succ, Z.mul_succ_l. lia.
Qed.

Lemma sum_scaled_bound_without k B l i x :
  Forall (fun v => Z.abs (scaled k v) <= B) l -> l !! i = Some x ->
  Z.abs (sum_scaled k l - scaled k x) <= (Z.of_nat (length l) - 1) * B.
Proof.
  intros Hl Hx. rewrite <- (take_drop_middle l i x Hx) in Hl |- *.
  apply Forall_app in Hl as [H1 H2]. apply Forall_cons in H2 as [_ H2].
  apply (sum_scaled_bound k B) in H1, H2.
  rewrite !sum_scaled_app, sum_scaled_cons, length_app in *. simpl length.
  rewrite Nat2Z.inj_add, Nat2Z.inj_succ. nia.
Qed.

Lemma sum_scaled_perm k l1 l2 : l1 ≡ₚ l2 -> sum_scaled k l1 = sum_scaled k l2.
Proof.
  induction 1 as [|x l1 l2 _ IH|x y l|l1 l2 l3 _ IH1 _ IH2];
    rewrite ?sum_scaled_cons; lia.
Qed.

(** ** Scaled integers and rational values *)

Lemma pow10_Q n : 0 <= n -> (inject_Z (10 ^ n) == Qpower (10 # 1) n)%Q.
Proof. intros Hn. by rewrite Zpower_Qpower. Qed.

Lemma value_scaled k d :
  0 <= k -> 0 <= exp d + k ->
  (value d * inject_Z (10 ^ k) == inject_Z (scaled k d))%Q.
Proof.
  intros Hk He. unfold value, scaled.
  rewrite inject_Z_mult, !pow10_Q by lia.
  rewrite (Qpower_plus (10 # 1) (exp d) k) by done.
  ring.
Qed.

Lemma sum_values_scaled k l :
  0 <= k -> Forall (fun d => 0 <= exp d + k) l ->
  (sum_values l * inject_Z (10 ^ k) == inject_Z (sum_scaled k l))%Q.
Proof.
  intros Hk. induction 1 as [|d l Hd _ IH].
  - unfold sum_values, sum_scaled; simpl. ring.
  - rewrite sum_scaled_cons, inject_Z_plus, <- IH, <- (value_scaled k d) by done.
    unfold sum_values; simpl. ring.
Qed.

Lemma value_of_scaled k t l :
  0 <= k -> 0 <= exp t + k -> Forall (fun d => 0 <= exp d + k) l ->
  scaled k t = sum_scaled k l -> (value t == sum_values l)%Q.
Proof.
  intros Hk Ht Hl Heq.
  apply (Qmult_inj_r _ _ (inject_Z (10 ^ k))).
  - assert (0 < 10 ^ k) by (apply Z.pow_pos_nonneg; lia).
    unfold Qeq; simpl. lia.
  - by rewrite value_scaled, sum_values_scaled, Heq.
Qed.

End decimal_facts.


(* ===================================================================== *)
(** * Rounding in the decimal context                                      *)
(* ===================================================================== *)

Module rounding_facts.
Import decimal decimal_facts.

Lemma pow10_split drop :
  1 <= drop -> 10 ^ drop = 10 * 10 ^ (drop - 1) /\ 0 < 10 ^ (drop - 1).
Proof.
  intros Hd. split.
  - rewrite <- Z.pow_succ_r by lia. f_equal. lia.
  - apply Z.pow_pos_nonneg; lia.
Qed.

(** Half-even rounding is off by at most half a unit. *)
Lemma rounded_error c drop :
  0 <= c -> 1 <= drop ->
  2 * Z.abs (c - rounded c drop * 10 ^ drop) <= 10 ^ drop.
Proof.
  intros Hc Hd. destruct (pow10_split drop Hd) as [Hm Hh].
  unfold rounded.
  pose proof (Z.div_mod c (10 ^ drop) ltac:(lia)) as Hdm.
  pose proof (Z.mod_pos_bound c (10 ^ drop) ltac:(lia)) as Hr.
  set (q := c / 10 ^ drop) in *. set (r := c mod 10 ^ drop) in *.
  set (h := 10 ^ (drop - 1)) in *.
  destruct (Z.ltb_spec (5 * h) r); simpl.
  - nia.
  - destruct (Z.eqb_spec r (5 * h)); simpl; [destruct (Z.odd q)|]; nia.
Qed.

(** The sticky digit of [__truediv__]: a quotient that lies strictly
    between [q] and [q + 1] rounds as [q], or as [q + 1] when [q] ends in 0
    or 5, does. *)
Lemma rounded_sticky q rem cb drop :
  0 <= q -> 0 < rem < cb -> 1 <= drop ->
  2 * Z.abs (q * cb + rem
             - rounded (if q mod 5 =? 0 then q + 1 else q) drop * 10 ^ drop * cb)
  <= 10 ^ drop * cb.
Proof.
  intros Hq Hrem Hd. destruct (pow10_split drop Hd) as [Hm Hh].
  unfold rounded.
  set (c := if q mod 5 =? 0 then q + 1 else q).
  assert (Hc : 0 <= c /\ c mod 5 <> 0 /\ (c = q \/ (c = q + 1 /\ q mod 5 = 0))).
  { unfold c. destruct (Z.eqb_spec (q mod 5) 0) as [H5|H5]; [|lia].
    split; [lia|]. split; [|lia].
    rewrite <- Zplus_mod_idemp_l, H5. done. }
  destruct Hc as (Hc0 & Hc5 & Hcq).
  pose proof (Z.div_mod c (10 ^ drop) ltac:(lia)) as Hdm.
  pose proof (Z.mod_pos_bound c (10 ^ drop) ltac:(lia)) as Hr.
  set (Q := c / 10 ^ drop) in *. set (R := c mod 10 ^ drop) in *.
  set (h := 10 ^ (drop - 1)) in *.
  (* the dropped digits are neither zero nor exactly one half *)
  assert (HR : R <> 5 * h /\ R <> 0).
  { split; intros HR; apply Hc5; rewrite Hdm, HR, Hm.
    - replace (10 * h * Q + 5 * h) with ((2 * h * Q + h) * 5) by lia.
      apply Z_mod_mult.
    - replace (10 * h * Q + 0) with ((2 * h * Q) * 5) by lia.
      apply Z_mod_mult. }
  destruct HR as [HRh HR0].
  destruct (Z.ltb_spec (5 * h) R); simpl.
  - destruct Hcq as [Hcq|[Hcq _]]; nia.
  - destruct (Z.eqb_spec R (5 * h)); [lia|]. simpl.
    destruct Hcq as [Hcq|[Hcq _]]; nia.
Qed.

(** What [_fix] returns for a non-zero coefficient: the decimal itself when
    it fits, and the half-even rounding of its coefficient otherwise. *)
Lemma fix_spec d r :
  fix_ d = Ok r -> Z.of_N (coeff d) <> 0 ->
  sign r = sign d /\
  (Z.max (ndigits (Z.of_N (coeff d)) + exp d - prec) Etiny <= exp d -> r = d) /\
  (exp d < Z.max (ndigits (Z.of_N (coeff d)) + exp d - prec) Etiny ->
   Z.max (ndigits (Z.of_N (coeff d)) + exp d - prec) Etiny <= exp r /\
   Z.of_N (coeff r) * 10 ^ (exp r - exp d)
   = rounded (Z.of_N (coeff d))
       (Z.max (ndigits (Z.of_N (coeff d)) + exp d - prec) Etiny - exp d)
     * 10 ^ (Z.max (ndigits (Z.of_N (coeff d)) + exp d - prec) Etiny - exp d)).
Proof.
  unfold fix_. intros Hfix Hnz.
  set (c := Z.of_N (coeff d)) in *.
  set (exp_min := Z.max (ndigits c + exp d - prec) Etiny) in *.
  destruct (Z.eqb_spec c 0) as [|_]; [done|].
  destruct (Etop <? ndigits c + exp d - prec); [done|].
  destruct (Z.ltb_spec (exp d) exp_min) as [Hlt|Hge].
  2: { injection Hfix as <-. split; [done|]. split; [done|lia]. }
  set (drop := exp_min - exp d) in *.
  assert (Hdrop : 1 <= drop) by (unfold drop; lia).
  assert (Hp : 0 < 10 ^ drop) by (apply Z.pow_pos_nonneg; lia).
  assert (Hc : 0 < c) by (unfold c in *; lia).
  assert (Hq0 : 0 <= c / 10 ^ drop) by (apply Z.div_pos; lia).
  assert (Hqlt : c / 10 ^ drop < 10 ^ prec).
  { apply Z.div_lt_upper_bound; [lia|].
    rewrite <- Z.pow_add_r by (unfold prec; lia).
    destruct (ndigits_bounds c Hc) as [_ Hub].
    eapply Z.lt_le_trans; [exact Hub|].
    apply Z.pow_le_mono_r; unfold drop, exp_min; lia. }
  unfold rounded. fold drop.
  set (q := c / 10 ^ drop) in *.
  destruct ((5 * 10 ^ (drop - 1) <? c mod 10 ^ drop)
            || ((c mod 10 ^ drop =? 5 * 10 ^ (drop - 1)) && Z.odd q)).
  - destruct (Z.ltb_spec prec (ndigits (q + 1))) as [Hcarry|Hfit].
    + destruct (Etop <? exp_min + 1); [done|]. injection Hfix as <-. simpl.
      assert (Hq1 : q + 1 = 10 ^ prec).
      { destruct (Z.lt_ge_cases (q + 1) (10 ^ prec)) as [Hsmall|]; [|lia].
        pose proof (ndigits_le (q + 1) prec ltac:(lia) ltac:(unfold prec; lia)). lia. }
      split; [done|]. split; [lia|]. intros _. split; [lia|].
      rewrite Z2N.id by (apply Z.div_pos; lia).
      replace (exp_min + 1 - exp d) with (Z.succ drop) by (unfold drop; lia).
      rewrite Z.pow_succ_r, Hq1 by lia.
      change (10 ^ prec) with (10 * 10 ^ 27).
      rewrite (Z.mul_comm 10 (10 ^ 27)), Z.div_mul by lia. lia.
    + destruct (Etop <? exp_min); [done|]. injection Hfix as <-. simpl.
      split; [done|]. split; [lia|]. intros _. split; [lia|].
      rewrite Z2N.id by lia. done.
  - destruct (Etop <? exp_min); [done|]. injection Hfix as <-. simpl.
    split; [done|]. split; [lia|]. intros _. split; [lia|].
    rewrite Z2N.id by lia. done.
Qed.

(** [_fix] keeps the value of a zero and of a decimal that fits, and moves
    any other by at most half a unit of the result's last digit; all this
    in units of [10^(exp d)]. *)
Lemma fix_error d r :
  fix_ d = Ok r -> Z.of_N (coeff d) <> 0 ->
  sign r = sign d /\ exp d <= exp r /\
  2 * Z.abs (Z.of_N (coeff d) - Z.of_N (coeff r) * 10 ^ (exp r - exp d))
  <= 10 ^ (exp r - exp d).
Proof.
  intros Hfix Hnz. destruct (fix_spec d r Hfix Hnz) as (Hs & Hfit & Hround).
  split; [done|].
  destruct (Z.le_gt_cases
              (Z.max (ndigits (Z.of_N (coeff d)) + exp d - prec) Etiny) (exp d))
    as [Hle|Hgt].
  - rewrite (Hfit Hle), Z.sub_diag. simpl. lia.
  - destruct (Hround Hgt) as [He Hv]. split; [lia|]. rewrite Hv.
    set (drop := Z.max _ _ - exp d) in *.
    pose proof (rounded_error (Z.of_N (coeff d)) drop ltac:(lia) ltac:(unfold drop; lia)).
    assert (10 ^ drop <= 10 ^ (exp r - exp d))
      by (apply Z.pow_le_mono_r; unfold drop; lia).
    lia.
Qed.

Lemma strip_zeros_value fuel c e :
  0 < c ->
  0 < (strip_zeros fuel c e).1 /\ e <= (strip_zeros fuel c e).2 /\
  (strip_zeros fuel c e).1 * 10 ^ ((strip_zeros fuel c e).2 - e) = c.
Proof.
  revert c e; induction fuel as [|f IH]; intros c e Hc; simpl.
  - rewrite Z.sub_diag. simpl. lia.
  - destruct (Z.eqb_spec (c mod 10) 0) as [Hm|_]; simpl.
    + pose proof (Z.div_mod c 10 ltac:(lia)) as Hdm.
      destruct (IH (c / 10) (e + 1) ltac:(lia)) as (Hpos & He & Hv).
      split; [done|]. split; [lia|].
      replace ((strip_zeros f (c / 10) (e + 1)).2 - e)
        with (Z.succ ((strip_zeros f (c / 10) (e + 1)).2 - (e + 1))) by lia.
      rewrite Z.pow_succ_r by lia. lia.
    + rewrite Z.sub_diag. simpl. lia.
Qed.

(** The quotient [__truediv__] returns, against the exact quotient, in
    units of [10^e] for the exponent [e] at which the long division is
    done: at most half a unit of the result's last digit apart. *)
Lemma div_error a b r :
  is_zero a = false -> is_zero b = false ->
  ndigits (Z.of_N (coeff a)) <= ndigits (Z.of_N (coeff b)) + prec + 1 ->
  div a b = Ok r ->
  sign r = xorb (sign a) (sign b) /\
  exp a - exp b
    - (ndigits (Z.of_N (coeff b)) - ndigits (Z.of_N (coeff a)) + prec + 1) <= exp r /\
  2 * Z.abs (Z.of_N (coeff a)
               * 10 ^ (ndigits (Z.of_N (coeff b)) - ndigits (Z.of_N (coeff a)) + prec + 1)
             - Z.of_N (coeff r)
               * 10 ^ (exp r - (exp a - exp b
                   - (ndigits (Z.of_N (coeff b)) - ndigits (Z.of_N (coeff a)) + prec + 1)))
               * Z.of_N (coeff b))
  <= 10 ^ (exp r - (exp a - exp b
             - (ndigits (Z.of_N (coeff b)) - ndigits (Z.of_N (coeff a)) + prec + 1)))
     * Z.of_N (coeff b).
Proof.
  intros Hza Hzb Hshift. unfold div. rewrite Hza, Hzb.
  apply N.eqb_neq in Hza, Hzb.
  set (ca := Z.of_N (coeff a)) in *. set (cb := Z.of_N (coeff b)) in *.
  set (shift := ndigits cb - ndigits ca + prec + 1) in *.
  set (e := exp a - exp b - shift) in *.
  assert (Hca : 0 < ca) by (unfold ca; lia).
  assert (Hcb : 0 < cb) by (unfold cb; lia).
  destruct (Z.leb_spec 0 shift) as [Hsh|]; [|lia].
  assert (Hp : 0 < 10 ^ shift) by (apply Z.pow_pos_nonneg; lia).
  destruct (Z.div_eucl (ca * 10 ^ shift) cb) as [q rem] eqn:Hqr.
  assert (Hq : q = ca * 10 ^ shift / cb) by (unfold Z.div; by rewrite Hqr).
  assert (Hrem : rem = (ca * 10 ^ shift) mod cb) by (unfold Z.modulo; by rewrite Hqr).
  pose proof (Z.div_mod (ca * 10 ^ shift) cb ltac:(lia)) as Hdm.
  pose proof (Z.mod_pos_bound (ca * 10 ^ shift) cb Hcb) as Hrb.
  rewrite <- Hq, <- Hrem in Hdm. rewrite <- Hrem in Hrb. clear Hqr.
  assert (Hq0 : 0 <= q) by (rewrite Hq; apply Z.div_pos; nia).
  destruct (Z.eqb_spec rem 0) as [Hexact|Hinexact].
  - (* the division is exact *)
    assert (Hqpos : 0 < q) by nia.
    destruct (strip_zeros_value (Z.to_nat (exp a - exp b - e)) q e Hqpos)
      as (Hpos' & He' & Hv').
    destruct (strip_zeros _ q e) as [q' e']; simpl in *.
    intros Hfix.
    destruct (fix_error _ r Hfix) as (Hs & Her & Herr); simpl in *.
    { rewrite Z2N.id by lia. lia. }
    rewrite Z2N.id in Herr by lia.
    split; [done|]. split; [lia|].
    assert (Hpe : 0 < 10 ^ (e' - e)) by (apply Z.pow_pos_nonneg; lia).
    replace (exp r - e) with ((exp r - e') + (e' - e)) by lia.
    rewrite Z.pow_add_r by lia.
    set (M := 10 ^ (exp r - e')) in *. set (P := 10 ^ (e' - e)) in *.
    set (cr := Z.of_N (coeff r)) in *.
    replace (ca * 10 ^ shift - cr * (M * P) * cb)
      with ((q' - cr * M) * (P * cb)) by nia.
    rewrite Z.abs_mul, (Z.abs_eq (P * cb)) by nia. nia.
  - (* the division leaves a remainder: sticky digit, then rounding *)
    set (c := if q mod 5 =? 0 then q + 1 else q).
    assert (Hqbig : 10 ^ prec <= q).
    { rewrite Hq. apply Z.div_le_lower_bound; [lia|].
      destruct (ndigits_bounds ca Hca) as [Hlo _].
      destruct (ndigits_bounds cb Hcb) as [_ Hhi].
      pose proof (ndigits_pos ca). pose proof (ndigits_pos cb).
      assert (H1 : 10 ^ (ndigits ca - 1) * 10 ^ shift = 10 ^ ndigits cb * 10 ^ prec).
      { rewrite <- !Z.pow_add_r by (unfold prec in *; lia).
        f_equal. unfold shift. lia. }
      assert (0 < 10 ^ prec) by (apply Z.pow_pos_nonneg; unfold prec; lia).
      nia. }
    assert (Hc : q <= c <= q + 1) by (unfold c; destruct (q mod 5 =? 0); lia).
    assert (Hpp : 0 < 10 ^ prec) by (apply Z.pow_pos_nonneg; unfold prec; lia).
    intros Hfix.
    assert (Hcnz : Z.of_N (Z.to_N c) <> 0) by (rewrite Z2N.id; lia).
    destruct (fix_spec _ r Hfix Hcnz) as (Hs & _ & Hround); simpl in *.
    rewrite Z2N.id in Hround by lia.
    assert (Hnd : prec < ndigits c).
    { destruct (Z.lt_ge_cases prec (ndigits c)) as [|Hsmall]; [done|].
      destruct (ndigits_bounds c ltac:(lia)) as [_ Hub].
      assert (10 ^ ndigits c <= 10 ^ prec)
        by (apply Z.pow_le_mono_r; lia).
      lia. }
    destruct Hround as [He Hv]; [lia|].
    split; [done|]. split; [lia|].
    set (drop := Z.max (ndigits c + e - prec) Etiny - e) in *.
    pose proof (rounded_sticky q rem cb drop Hq0 ltac:(lia) ltac:(unfold drop; lia))
      as Hst.
    fold c in Hst.
    assert (10 ^ drop <= 10 ^ (exp r - e))
      by (apply Z.pow_le_mono_r; unfold drop; lia).
    rewrite Hv. replace (ca * 10 ^ shift) with (q * cb + rem) by lia.
    nia.
Qed.

(** ** The same, on rational values *)

Lemma pow10_Q_pos e : (0 < Qpower (10 # 1) e)%Q.
Proof. by apply Qpower_0_lt. Qed.

(** A value written at a smaller exponent. *)
Lemma value_at s e1 e2 :
  e2 <= e1 ->
  (inject_Z s * Qpower (10 # 1) e1
   == inject_Z (s * 10 ^ (e1 - e2)) * Qpower (10 # 1) e2)%Q.
Proof.
  intros He. rewrite inject_Z_mult, pow10_Q by lia.
  replace e1 with ((e1 - e2) + e2) at 1 by lia.
  rewrite Qpower_plus by done. ring.
Qed.

Lemma Qabs_div_bound (x y w m : Q) :
  ~ (y == 0)%Q ->
  (Qabs (x - w * y) <= m * Qabs y)%Q -> (Qabs (x / y - w) <= m)%Q.
Proof.
  intros Hy Hb.
  assert (Heq : (x / y - w == (x - w * y) / y)%Q) by (field; done).
  rewrite Heq. unfold Qdiv. rewrite Qabs_Qmult, Qabs_Qinv.
  apply Qle_shift_div_r; [|done].
  destruct y as [n d]. unfold Qabs, Qlt, Qeq in *. simpl in *. lia.
Qed.

Lemma value_zero d : is_zero d = true -> (value d == 0)%Q.
Proof. intros Hz. unfold value. rewrite (scoeff_zero d Hz). ring. Qed.

Lemma fix_zero s e r : fix_ (mkDecimal s 0 e) = Ok r -> is_zero r = true.
Proof. unfold fix_. simpl. by intros [= <-]. Qed.

(** The quotient of the context is within half a unit of its last digit of
    the exact quotient. *)
Lemma div_rounds a b r :
  is_zero b = false ->
  ndigits (Z.of_N (coeff a)) <= ndigits (Z.of_N (coeff b)) + prec + 1 ->
  div a b = Ok r ->
  (Qabs (value a / value b - value r) <= (1 # 2) * Qpower (10 # 1) (exp r))%Q.
Proof.
  intros Hzb Hshift Hdiv.
  destruct (is_zero a) eqn:Hza.
  - (* a zero dividend *)
    assert (Hzr : is_zero r = true).
    { unfold div in Hdiv. rewrite Hzb, Hza in Hdiv. by apply fix_zero in Hdiv. }
    rewrite (value_zero a Hza), (value_zero r Hzr).
    assert (H0 : (0 / value b - 0 == 0)%Q) by (unfold Qdiv; ring).
    rewrite H0. simpl. apply Qmult_le_0_compat; [done|]. apply Qlt_le_weak, pow10_Q_pos.
  - destruct (div_error a b r Hza Hzb Hshift Hdiv) as (Hs & He & Herr).
    set (shift := ndigits (Z.of_N (coeff b)) - ndigits (Z.of_N (coeff a)) + prec + 1) in *.
    set (e := exp a - exp b - shift) in *.
    set (M := 10 ^ (exp r - e)) in *.
    set (P := Qpower (10 # 1) e).
    assert (HP : (0 < P)%Q) by apply pow10_Q_pos.
    apply N.eqb_neq in Hza, Hzb.
    assert (Hsb : scoeff b <> 0) by (unfold scoeff; destruct (sign b); lia).
    assert (Hinj : ~ (inject_Z (scoeff b) == 0)%Q) by (unfold Qeq; simpl; lia).
    assert (Ha : (value a / value b
                  == inject_Z (scoeff a * 10 ^ shift) / inject_Z (scoeff b) * P)%Q).
    { unfold value.
      rewrite (value_at (scoeff a) (exp a) (exp a - shift)) by lia.
      replace (exp a - (exp a - shift)) with shift by lia.
      replace (exp a - shift) with (e + exp b) by (unfold e; lia).
      rewrite Qpower_plus by done. fold P.
      field. split; [done|].
      apply Qnot_eq_sym, Qlt_not_eq, pow10_Q_pos. }
    assert (Hr : (value r == inject_Z (scoeff r * M) * P)%Q).
    { unfold value. by rewrite (value_at (scoeff r) (exp r) e) by lia. }
    assert (Hm : (Qpower (10 # 1) (exp r) == inject_Z M * P)%Q).
    { rewrite <- (Qmult_1_l (Qpower _ (exp r))).
      change 1%Q with (inject_Z 1).
      rewrite (value_at 1 (exp r) e) by lia. unfold M.
      by rewrite Z.mul_1_l. }
    rewrite Ha, Hr, Hm.
    assert (Hfac :
      (inject_Z (scoeff a * 10 ^ shift) / inject_Z (scoeff b) * P
       - inject_Z (scoeff r * M) * P
       == (inject_Z (scoeff a * 10 ^ shift) / inject_Z (scoeff b)
           - inject_Z (scoeff r * M)) * P)%Q) by ring.
    rewrite Hfac, Qabs_Qmult, (Qabs_pos P) by (by apply Qlt_le_weak).
    rewrite Qmult_assoc.
    apply Qmult_le_compat_r; [|by apply Qlt_le_weak].
    apply Qabs_div_bound; [done|].
    assert (Hint : 2 * Z.abs (scoeff a * 10 ^ shift - scoeff r * M * scoeff b)
                   <= M * Z.abs (scoeff b)).
    { unfold scoeff in *. rewrite Hs.
      destruct (sign a), (sign b); simpl; lia. }
    revert Hint. generalize (scoeff a * 10 ^ shift) (scoeff r * M) (scoeff b).
    intros X W Y Hint.
    unfold Qle, Qabs, Qminus, Qplus, Qmult, Qopp, inject_Z. simpl.
    rewrite !Z.mul_1_r. lia.
Qed.

End rounding_facts.
(* ===================================================================== *)
(** * The sliding-window accumulator                                      *)
(* ===================================================================== *)

Module sliding_facts.
Import py_facts decimal decimal_facts rounding_facts pipeline.

Lemma coeff_lt_of_scaled k d :
  0 <= exp d + k -> Z.abs (scaled k d) < 10 ^ prec -> Z.of_N (coeff d) < 10 ^ prec.
Proof.
  intros Hk Hs. rewrite <- scoeff_abs.
  eapply Z.le_lt_trans; [apply (abs_le_mul_pow _ (exp d + k)); lia|done].
Qed.

(** The context's quotient of an exact sum by the number of its terms is
    within half a unit of its last digit of the mean. *)
Lemma mean_rounds (W : list Decimal) (T average : Decimal) :
  (value T == sum_values W)%Q -> Z.of_N (coeff T) < 10 ^ prec ->
  (0 < length W)%nat ->
  div T (of_int (Z.of_nat (length W))) = Ok average ->
  (Qabs (exact_mean W - value average)
   <= (1 # 2) * Qpower (10 # 1) (exp average))%Q.
Proof.
  intros Hv Hc Hlen Hdiv. unfold exact_mean. rewrite <- Hv.
  assert (Hm : (inject_Z (Z.of_nat (length W))
                == value (of_int (Z.of_nat (length W))))%Q).
  { unfold value. rewrite scoeff_of_int. simpl. ring. }
  rewrite Hm. apply div_rounds; [| |done].
  - unfold is_zero, of_int; simpl. apply N.eqb_neq. lia.
  - pose proof (ndigits_le (Z.of_N (coeff T)) prec ltac:(lia) ltac:(unfold prec; lia)).
    pose proof (ndigits_pos (Z.of_N (coeff (of_int (Z.of_nat (length W)))))).
    lia.
Qed.

Section window.
Variables window_size k B : Z.
Hypothesis Hsize : 0 < window_size < 10 ^ prec.
Hypothesis Hk : 0 <= k <= - Etiny.
Hypothesis HB : 0 <= B.
Hypothesis HwB : window_size * B < 10 ^ prec.

Lemma ok_abs l :
  Forall (ok_input k B) l -> Forall (fun v => Z.abs (scaled k v) <= B) l.
Proof. intros H. eapply Forall_impl; [exact H|]. by intros v [_ ?]. Qed.

(** What one iteration computes on a state satisfying the invariant. *)
Lemma window_step_exact st v :
  window_ok window_size k B st -> ok_input k B v ->
  exists total2 average,
    let c' := Z.min (filled_count st + 1) window_size in
    let st' := mkWindow (<[Z.to_nat (current st) := v]> (buffer st)) (of_int c')
                 ((current st + 1) mod window_size) total2 in
    window_step window_size st v = Ok (average, st') /\
    div total2 (of_int c') = Ok average /\
    window_ok window_size k B st'.
Proof.
  intros [Hlen Hcnt Hfill Hcur Hfilling Hexp Htot Hres] [Hve Hvb].
  set (c := filled_count st) in *.
  assert (Hlenres : Z.of_nat (length (resident st)) = c).
  { unfold resident. fold c. rewrite length_take. lia. }
  pose proof (sum_scaled_bound k B _ (ok_abs _ Hres)) as Hsum.
  rewrite Hlenres in Hsum.
  assert (Het : Etiny <= 0 <= Etop) by (unfold Etiny, Etop, Emin, Emax, prec; lia).
  (* the running total once the evicted value is taken out *)
  assert (exists total1 x,
    buffer st !! Z.to_nat (current st) = Some x /\
    (if c =? window_size
     then old ← getitem (buffer st) (current st); sub (total st) old
     else Ok (total st)) = Ok total1 /\
    - k <= exp total1 <= 0 /\
    scaled k total1 + scaled k v
      = sum_scaled k (take (Z.to_nat (Z.min (c + 1) window_size))
                        (<[Z.to_nat (current st) := v]> (buffer st))) /\
    Forall (ok_input k B)
      (take (Z.to_nat (Z.min (c + 1) window_size))
         (<[Z.to_nat (current st) := v]> (buffer st))) /\
    Z.abs (scaled k total1) <= (window_size - 1) * B)
    as (total1 & x & Hx & Ht1 & He1 & Hs1 & Hok1 & Hb1).
  { destruct (getitem_in_range (buffer st) (current st) ltac:(lia)) as (x & Hx & Hget).
    destruct (Z.eqb_spec c window_size) as [Hfull|Hnot].
    - assert (Hr : resident st = buffer st).
      { unfold resident. fold c. apply take_ge. lia. }
      rewrite Hr in *.
      pose proof (Forall_lookup_1 _ _ _ _ Hres Hx) as [Hxe Hxb].
      pose proof (sum_scaled_bound_without k B _ _ _ (ok_abs _ Hres) Hx) as Hwo.
      rewrite Hlen in Hwo.
      destruct (sub_scaled k (total st) x) as (t1 & Ht1 & Het1 & Hst1); [done|lia|done| |].
      { rewrite Htot. nia. }
      exists t1, x. rewrite Hget. simpl. split; [done|]. split; [done|].
      split; [lia|]. rewrite take_ge by (rewrite length_insert; lia).
      split; [|split; [|rewrite Hst1, Htot; done]].
      + rewrite (sum_scaled_insert k _ _ x) by done. lia.
      + by apply Forall_insert.
    - exists (total st), x. split; [done|]. split; [done|]. split; [done|].
      assert (Hc : current st = c) by (apply Hfilling; lia).
      replace (Z.to_nat (Z.min (c + 1) window_size)) with (S (Z.to_nat c)) by lia.
      rewrite Hc.
      rewrite (take_S_r _ _ v) by (apply list_lookup_insert_eq; lia).
      rewrite take_insert_ge by lia.
      split; [|split].
      + rewrite sum_scaled_app, Htot. unfold resident. fold c.
        unfold sum_scaled at 3. simpl. lia.
      + apply Forall_app. split; [done|]. apply Forall_cons. split; [done|]. apply Forall_nil_2.
      + rewrite Htot. nia. }
  destruct (add_scaled k total1 v) as (total2 & Ht2 & He2 & Hs2); [done|lia|done|nia|].
  assert (Hcount1 :
    (if negb (c =? window_size) then add (of_int c) (of_int 1) else Ok (of_int c))
    = Ok (of_int (Z.min (c + 1) window_size))).
  { destruct (Z.eqb_spec c window_size) as [Hfull|Hnot]; simpl.
    - do 2 f_equal. lia.
    - rewrite add_one_of_int by lia. do 2 f_equal. lia. }
  set (c' := Z.min (c + 1) window_size) in *.
  assert (Hb2 : Z.abs (scaled k total2) < 10 ^ prec) by (rewrite Hs2; nia).
  destruct (div_returns total2 (of_int c')) as [average Hdiv].
  { unfold is_zero, of_int; simpl. apply N.eqb_neq. lia. }
  { apply (coeff_lt_of_scaled k); [lia|done]. }
  { unfold of_int; simpl. lia. }
  { change (exp (of_int c')) with 0. unfold Etop, Emax, prec. lia. }
  exists total2, average. simpl.
  split; [|split; [done|]].
  - unfold window_step. rewrite Hcnt. fold c. rewrite eq_int_of_int, Ht1. simpl.
    rewrite setitem_in_range by lia. simpl. rewrite Ht2. simpl.
    unfold int_mod. destruct (Z.eqb_spec window_size 0); [lia|]. simpl.
    rewrite Hcount1. simpl. fold c'. rewrite Hdiv. done.
  - assert (Hfc : filled_count
        (mkWindow (<[Z.to_nat (current st) := v]> (buffer st)) (of_int c')
           ((current st + 1) mod window_size) total2) = c').
    { unfold filled_count; simpl. apply scoeff_of_int. }
    constructor; simpl; rewrite ?Hfc.
    + by rewrite length_insert.
    + done.
    + lia.
    + apply Z.mod_pos_bound. lia.
    + intros Hlt. rewrite (Hfilling ltac:(lia)).
      replace c' with (c + 1) by lia. apply Z.mod_small. lia.
    + lia.
    + unfold resident; simpl. rewrite Hfc. lia.
    + unfold resident; simpl. rewrite Hfc. done.
Qed.


Lemma window_init_ok : window_ok window_size k B (window_init window_size).
Proof.
  constructor; simpl; try done.
  - rewrite length_replicate. lia.
  - change (filled_count _) with 0. lia.
  - lia.
  - lia.
Qed.

Lemma window_init_tracks : tracks window_size [] (window_init window_size).
Proof.
  constructor; simpl.
  - by rewrite Z.mod_0_l by lia.
  - change (filled_count _) with 0. lia.
  - unfold ring; simpl. by rewrite !app_nil_r.
Qed.

Lemma ring_step (buf : list Decimal) cur v cnt cnt' tot tot' :
  Z.of_nat (length buf) = window_size -> 0 <= cur < window_size ->
  ring (mkWindow (<[Z.to_nat cur := v]> buf) cnt' ((cur + 1) mod window_size) tot')
  = drop 1 (ring (mkWindow buf cnt cur tot)) ++ [v].
Proof.
  intros Hlen Hcur. unfold ring; simpl.
  destruct (lookup_lt_is_Some_2 buf (Z.to_nat cur) ltac:(lia)) as [x Hx].
  pose proof (take_drop_middle buf _ x Hx) as Hb.
  assert (Hl : length (take (Z.to_nat cur) buf) = Z.to_nat cur)
    by (rewrite length_take; lia).
  revert Hb Hl. generalize (take (Z.to_nat cur) buf) as l1.
  generalize (drop (S (Z.to_nat cur)) buf) as l2.
  intros l2 l1 <- Hl. rewrite length_app in Hlen. simpl in Hlen.
  rewrite <- Hl.
  rewrite insert_app_r_alt, Nat.sub_diag by done. simpl.
  rewrite drop_app_length. simpl. rewrite drop_0.
  destruct (Z.eq_dec (cur + 1) window_size) as [Heq|Hne].
  - rewrite Heq, Z_mod_same_full. simpl. rewrite app_nil_r.
    assert (l2 = []) as -> by (apply nil_length_inv; lia).
    done.
  - rewrite Z.mod_small by lia.
    replace (Z.to_nat (cur + 1)) with (length l1 + 1)%nat by lia.
    rewrite drop_app_add, take_app_add. simpl. rewrite drop_0, take_0.
    by rewrite <- app_assoc.
Qed.

Lemma tracks_step h st v total2 cnt' :
  window_ok window_size k B st -> tracks window_size h st ->
  filled_count (mkWindow (<[Z.to_nat (current st) := v]> (buffer st)) cnt'
      ((current st + 1) mod window_size) total2)
    = Z.min (filled_count st + 1) window_size ->
  tracks window_size (h ++ [v])
    (mkWindow (<[Z.to_nat (current st) := v]> (buffer st)) cnt'
      ((current st + 1) mod window_size) total2).
Proof.
  intros Hok [Hc Hf Hr] Hfc. constructor.
  - simpl. rewrite Hc, length_app. simpl.
    rewrite Nat2Z.inj_add, Zplus_mod_idemp_l. done.
  - rewrite Hfc, Hf, length_app. simpl. lia.
  - destruct st as [buf cnt cur tot]; simpl in *.
    rewrite (ring_step buf cur v cnt cnt' tot total2)
      by (apply Hok || apply (ok_current _ _ _ _ Hok)).
    rewrite Hr, drop_drop, length_app. simpl.
    rewrite app_assoc. rewrite (drop_app_le (_ ++ h)).
    + done.
    + rewrite length_app, length_replicate. lia.
Qed.


Lemma length_recent h :
  Z.of_nat (length (recent window_size h)) = Z.min (Z.of_nat (length h)) window_size.
Proof. unfold recent. rewrite length_drop. lia. Qed.

(** The values the total accounts for are the most recent inputs, up to
    the order in which the ring stores them. *)
Lemma tracks_resident h st :
  window_ok window_size k B st -> tracks window_size h st ->
  resident st ≡ₚ recent window_size h.
Proof.
  intros [Hlen _ _ Hcur _ _ _ _] [Hc Hf Hr].
  unfold resident, recent. rewrite Hf. unfold ring in Hr.
  destruct (Z.lt_ge_cases (Z.of_nat (length h)) window_size) as [Hlt|Hge].
  - rewrite Z.mod_small in Hc by lia. rewrite Hc in Hr.
    rewrite Nat2Z.id in Hr.
    replace (Z.to_nat (Z.min (Z.of_nat (length h)) window_size)) with (length h) by lia.
    replace (length h - Z.to_nat window_size)%nat with 0%nat by lia.
    rewrite drop_0.
    rewrite drop_app_le, drop_replicate in Hr by (rewrite length_replicate; lia).
    apply app_inj_2 in Hr as [_ ->]; [done|].
    rewrite length_take. lia.
  - rewrite take_ge by lia.
    rewrite drop_app_ge, length_replicate in Hr by (rewrite length_replicate; lia).
    rewrite <- Hr, Permutation_app_comm, take_drop. done.
Qed.

Lemma window_total_value h st :
  window_ok window_size k B st -> tracks window_size h st ->
  (value (total st) == sum_values (recent window_size h))%Q.
Proof.
  intros Hok Htr. pose proof (tracks_resident h st Hok Htr) as Hp.
  destruct Hok as [_ _ _ _ _ Hexp Htot Hres].
  apply (value_of_scaled k); [lia|lia| |].
  - rewrite <- Hp. eapply Forall_impl; [exact Hres|].
    intros d [? _]. simpl. lia.
  - rewrite Htot. by apply sum_scaled_perm.
Qed.

Lemma window_total_small st :
  window_ok window_size k B st -> Z.of_N (coeff (total st)) < 10 ^ prec.
Proof.
  intros [Hlen _ Hfill _ _ Hexp Htot Hres].
  apply (coeff_lt_of_scaled k); [lia|]. rewrite Htot.
  pose proof (sum_scaled_bound k B _ (ok_abs _ Hres)) as Hsum.
  assert (Z.of_nat (length (resident st)) <= window_size)
    by (unfold resident; rewrite length_take; lia).
  nia.
Qed.

Lemma window_resident_value st :
  window_ok window_size k B st ->
  (value (total st) == sum_values (resident st))%Q.
Proof.
  intros [_ _ _ _ _ Hexp Htot Hres].
  apply (value_of_scaled k); [lia|lia| |done].
  eapply Forall_impl; [exact Hres|]. intros d [? _]. simpl. lia.
Qed.

Section loop.
Context {timestamp : Type}.

Lemma sliding_loop_spec (rest : list (timestamp * Decimal)) h st :
  window_ok window_size k B st -> tracks window_size h st ->
  Forall (ok_input k B) (map snd rest) ->
  exists sent st',
    sliding_loop window_size st rest = (sent, Ok st') /\
    window_ok window_size k B st' /\
    tracks window_size (h ++ map snd rest) st' /\
    map fst sent = map fst rest /\
    forall i ts average, sent !! i = Some (ts, average) ->
      exists T,
        (value T == sum_values (recent window_size (h ++ take (S i) (map snd rest))))%Q /\
        Z.of_N (coeff T) < 10 ^ prec /\
        div T (of_int (Z.of_nat (length
                 (recent window_size (h ++ take (S i) (map snd rest)))))) = Ok average.
Proof.
  revert h st. induction rest as [|[ts v] rest IH]; intros h st Hok Htr Hall.
  - exists [], st. simpl. rewrite app_nil_r.
    split; [done|]. split; [done|]. split; [done|]. split; [done|].
    by intros i ts average.
  - simpl in Hall. apply Forall_cons in Hall as [Hv Hall].
    destruct (window_step_exact st v Hok Hv) as (total2 & avg & Hstep & Hdiv & Hok').
    simpl in Hstep, Hdiv, Hok'.
    set (st1 := mkWindow _ _ _ _) in *.
    assert (Htr' : tracks window_size (h ++ [v]) st1).
    { apply tracks_step; [done|done|]. unfold filled_count; simpl. apply scoeff_of_int. }
    destruct (IH (h ++ [v]) st1 Hok' Htr' Hall) as (sent & st2 & Hloop & Hok2 & Htr2 & Hfst & Hnth).
    exists ((ts, avg) :: sent), st2. simpl. rewrite Hstep, Hloop.
    split; [done|]. split; [done|].
    split; [by rewrite <- app_assoc in Htr2|].
    split; [by rewrite Hfst|].
    intros [|i] ts' average Hi; simpl in Hi.
    + injection Hi as <- <-. exists total2. simpl. rewrite take_0.
      split; [apply (window_total_value _ st1 Hok' Htr')|].
      split; [apply (window_total_small st1 Hok')|].
      rewrite length_recent, length_app. simpl.
      destruct Htr as [_ Hf _]. rewrite <- Hdiv, Hf. do 2 f_equal. lia.
    + specialize (Hnth i ts' average Hi).
      by rewrite <- app_assoc in Hnth.
Qed.

End loop.
End window.
End sliding_facts.

(* ===================================================================== *)
(** * The sliding window on arbitrary finite decimals                     *)
(* ===================================================================== *)

Module window_shape_facts.
Import py_facts decimal decimal_facts pipeline.

(** The only signal of the default context that [_fix] raises. *)
Lemma fix_raises d e : fix_ d = Raise e -> e = DecimalOverflow.
Proof.
  unfold fix_. destruct (_ =? 0); [done|].
  destruct (Etop <? _); [by intros [= <-]|].
  destruct (exp d <? _); [|done].
  destruct (_ || _).
  - destruct (prec <? _); (destruct (Etop <? _); [by intros [= <-]|done]).
  - destruct (Etop <? _); [by intros [= <-]|done].
Qed.

Lemma add_raises a b e : add a b = Raise e -> e = DecimalOverflow.
Proof.
  unfold add. destruct (is_zero a), (is_zero b); simpl; apply fix_raises.
Qed.

Lemma sub_raises a b e : sub a b = Raise e -> e = DecimalOverflow.
Proof. apply add_raises. Qed.

Lemma div_raises a b e :
  is_zero b = false -> div a b = Raise e -> e = DecimalOverflow.
Proof.
  intros Hb. unfold div. rewrite Hb.
  destruct (is_zero a); [apply fix_raises|].
  destruct (0 <=? _).
  - destruct (Z.div_eucl _ _) as [q r].
    destruct (r =? 0); [|apply fix_raises].
    destruct (strip_zeros _ _ _). apply fix_raises.
  - destruct (Z.div_eucl _ _) as [q r].
    destruct (r =? 0); [|apply fix_raises].
    destruct (strip_zeros _ _ _). apply fix_raises.
Qed.

(** Slots of distinct inputs of one window are distinct. *)
Lemma slot_distinct w i n :
  0 < w -> 0 <= i < n -> n - i < w ->
  Z.to_nat (i mod w) <> Z.to_nat (n mod w).
Proof.
  intros Hw Hi Hd Heq.
  pose proof (Z.mod_pos_bound i w Hw). pose proof (Z.mod_pos_bound n w Hw).
  assert (Hm : i mod w = n mod w) by lia.
  pose proof (Z.div_mod i w ltac:(lia)). pose proof (Z.div_mod n w ltac:(lia)).
  set (q := n / w - i / w).
  assert (Hq : n - i = w * q) by (unfold q; lia).
  destruct (Z.le_gt_cases q 0); nia.
Qed.

Section shape.
Variable window_size : Z.
Hypothesis Hsize : 0 < window_size < 10 ^ prec.

Lemma window_init_holds : window_holds window_size [] (window_init window_size).
Proof.
  constructor; simpl.
  - rewrite length_replicate. lia.
  - f_equal. lia.
  - by rewrite Z.mod_0_l by lia.
  - intros i Hi. lia.
Qed.

(** One iteration on any finite decimal: it can only fail with
    [decimal.Overflow], and otherwise the state holds one more input. *)
Lemma window_step_holds h st v :
  window_holds window_size h st ->
  match window_step window_size st v with
  | Raise e => e = DecimalOverflow
  | Ok (_, st') => window_holds window_size (h ++ [v]) st'
  end.
Proof.
  intros [Hlen Hcnt Hcur Hslots].
  set (n := Z.of_nat (length h)) in *.
  assert (Hc : 0 <= current st < window_size)
    by (rewrite Hcur; apply Z.mod_pos_bound; lia).
  unfold window_step. rewrite Hcnt, eq_int_of_int.
  destruct (getitem_in_range (buffer st) (current st) ltac:(lia)) as (x & Hx & Hget).
  assert (Htotal1 : forall r,
    (if Z.min n window_size =? window_size
     then old ← getitem (buffer st) (current st); sub (total st) old
     else Ok (total st)) = r ->
    match r with Raise e => e = DecimalOverflow | Ok _ => True end).
  { intros r <-. destruct (_ =? _); [|done]. rewrite Hget, bind_Ok.
    destruct (sub (total st) x) eqn:Hs; [done|]. by apply sub_raises in Hs. }
  destruct (if Z.min n window_size =? window_size then _ else _) as [total1|e] eqn:Ht1;
    [|exact (Htotal1 _ eq_refl)].
  clear Htotal1. rewrite bind_Ok, setitem_in_range, bind_Ok by lia.
  destruct (add total1 v) as [total2|e] eqn:Ht2; [|by apply add_raises in Ht2].
  rewrite bind_Ok. unfold int_mod.
  destruct (Z.eqb_spec window_size 0); [lia|]. rewrite bind_Ok.
  assert (Hcount1 :
    (if negb (Z.min n window_size =? window_size)
     then add (of_int (Z.min n window_size)) (of_int 1)
     else Ok (of_int (Z.min n window_size)))
    = Ok (of_int (Z.min (n + 1) window_size))).
  { destruct (Z.eqb_spec (Z.min n window_size) window_size) as [Hfull|Hnot]; simpl.
    - do 2 f_equal. lia.
    - rewrite add_one_of_int by lia. do 2 f_equal. lia. }
  rewrite Hcount1, bind_Ok.
  destruct (div total2 _) as [average|e] eqn:Hdiv.
  - rewrite bind_Ok. constructor; simpl.
    + by rewrite length_insert.
    + rewrite length_app. simpl. f_equal. lia.
    + rewrite length_app, Hcur. simpl. fold n.
      rewrite Zplus_mod_idemp_l. f_equal. lia.
    + intros i. rewrite length_app. simpl. intros Hi.
      destruct (decide (i = length h)) as [->|Hne].
      * rewrite Hcur. fold n.
        rewrite list_lookup_insert_eq by lia.
        by rewrite lookup_app_r, Nat.sub_diag by lia.
      * rewrite Hcur. fold n.
        rewrite list_lookup_insert_ne
          by (apply not_eq_sym, slot_distinct; lia).
        rewrite lookup_app_l by lia. apply Hslots. lia.
  - apply div_raises in Hdiv; [done|].
    unfold is_zero, of_int; simpl. apply N.eqb_neq. lia.
Qed.

Section loop.
Context {timestamp : Type}.

Lemma sliding_loop_holds (rest : list (timestamp * Decimal)) h st :
  window_holds window_size h st ->
  match (sliding_loop window_size st rest).2 with
  | Raise e => e = DecimalOverflow
  | Ok st' => window_holds window_size (h ++ map snd rest) st'
  end.
Proof.
  revert h st. induction rest as [|[ts v] rest IH]; intros h st Hst; simpl.
  - by rewrite app_nil_r.
  - pose proof (window_step_holds h st v Hst) as Hstep.
    destruct (window_step window_size st v) as [[average st1]|e]; [|done].
    specialize (IH (h ++ [v]) st1 Hstep).
    destruct (sliding_loop window_size st1 rest) as [sent final]. simpl in *.
    by rewrite <- app_assoc in IH.
Qed.

End loop.
End shape.

(** The timestamps pass through the loop untouched. *)
Lemma sliding_loop_timestamps {timestamp : Type} window_size
    (received : list (timestamp * Decimal)) st :
  map fst (sliding_loop window_size st received).1 `prefix_of` map fst received /\
  (is_ok (sliding_loop window_size st received).2 = true ->
   map fst (sliding_loop window_size st received).1 = map fst received) /\
  (is_ok (sliding_loop window_size st received).2 = false ->
   (length (sliding_loop window_size st received).1 < length received)%nat).
Proof.
  revert st. induction received as [|[ts v] rest IH]; intros st; simpl.
  - done.
  - destruct (window_step window_size st v) as [[average st1]|e]; simpl.
    + specialize (IH st1).
      destruct (sliding_loop window_size st1 rest) as [sent final]. simpl in *.
      destruct IH as (Hp & He & Hf). split; [by apply prefix_cons|].
      split; [intros Hok; by rewrite He|].
      intros Hfail. specialize (Hf Hfail). lia.
    + split; [apply prefix_nil|]. split; [done|lia].
Qed.

End window_shape_facts.
(* ===================================================================== *)
(** * Quotients that the context can hold are exact                        *)
(* ===================================================================== *)

Module exact_facts.
Import py_facts decimal decimal_facts rounding_facts pipeline sliding_facts.

(** The loop that strips zeros stops at the ideal exponent or at a
    coefficient that does not end in 0. *)
Lemma strip_zeros_stop fuel c e :
  (strip_zeros fuel c e).2 = e + Z.of_nat fuel \/
  (strip_zeros fuel c e).1 mod 10 <> 0.
Proof.
  revert c e; induction fuel as [|f IH]; intros c e; simpl; [left; lia|].
  destruct (Z.eqb_spec (c mod 10) 0) as [Hm|Hm]; simpl; [|by right].
  destruct (IH (c / 10) (e + 1)) as [H|H]; [left; lia|by right].
Qed.

Lemma pow10_pos_nonneg n : 0 <= n -> 0 < 10 ^ n.
Proof. intros Hn. apply Z.pow_pos_nonneg; lia. Qed.

Lemma pow10_sub a b c : c <= b <= a -> 10 ^ (a - c) = 10 ^ (a - b) * 10 ^ (b - c).
Proof.
  intros H. rewrite <- Z.pow_add_r by lia. f_equal. lia.
Qed.

(** When the exact quotient of two non-zero decimals is [c * 10^e'] with
    [c] of at most [prec] digits and [e'] not below [Etiny], the long
    division leaves no remainder and the result is not rounded. *)
Lemma div_exact_coeff a b r c e' :
  is_zero a = false -> is_zero b = false ->
  Z.of_N (coeff a) < 10 ^ prec ->
  Etiny <= exp a - exp b <= Etop ->
  div a b = Ok r ->
  0 < c < 10 ^ prec -> Etiny <= e' ->
  (exp a - exp b
     - (ndigits (Z.of_N (coeff b)) - ndigits (Z.of_N (coeff a)) + prec + 1) <= e' /\
   Z.of_N (coeff a)
     * 10 ^ (ndigits (Z.of_N (coeff b)) - ndigits (Z.of_N (coeff a)) + prec + 1)
   = c * 10 ^ (e' - (exp a - exp b
         - (ndigits (Z.of_N (coeff b)) - ndigits (Z.of_N (coeff a)) + prec + 1)))
     * Z.of_N (coeff b)) \/
  (e' < exp a - exp b
     - (ndigits (Z.of_N (coeff b)) - ndigits (Z.of_N (coeff a)) + prec + 1) /\
   Z.of_N (coeff a)
     * 10 ^ (ndigits (Z.of_N (coeff b)) - ndigits (Z.of_N (coeff a)) + prec + 1)
     * 10 ^ (exp a - exp b
         - (ndigits (Z.of_N (coeff b)) - ndigits (Z.of_N (coeff a)) + prec + 1) - e')
   = c * Z.of_N (coeff b)) ->
  sign r = xorb (sign a) (sign b) /\
  exp a - exp b
    - (ndigits (Z.of_N (coeff b)) - ndigits (Z.of_N (coeff a)) + prec + 1) <= exp r /\
  Z.of_N (coeff r)
    * 10 ^ (exp r - (exp a - exp b
        - (ndigits (Z.of_N (coeff b)) - ndigits (Z.of_N (coeff a)) + prec + 1)))
    * Z.of_N (coeff b)
  = Z.of_N (coeff a)
    * 10 ^ (ndigits (Z.of_N (coeff b)) - ndigits (Z.of_N (coeff a)) + prec + 1).
Proof.
  intros Hza Hzb Hsmall Hideal Hdiv Hc He' Hrep.
  unfold div in Hdiv. rewrite Hza, Hzb in Hdiv.
  apply N.eqb_neq in Hza, Hzb.
  set (ca := Z.of_N (coeff a)) in *. set (cb := Z.of_N (coeff b)) in *.
  set (shift := ndigits cb - ndigits ca + prec + 1) in *.
  set (e := exp a - exp b - shift) in *.
  assert (Hca : 0 < ca) by (unfold ca; lia).
  assert (Hcb : 0 < cb) by (unfold cb; lia).
  pose proof (ndigits_le ca prec ltac:(lia) ltac:(unfold prec; lia)) as Hnda.
  pose proof (ndigits_pos cb) as Hndb. pose proof (ndigits_pos ca) as Hnda1.
  assert (Hsh : 2 <= shift) by (unfold shift; lia).
  destruct (Z.leb_spec 0 shift) as [_|]; [|lia].
  assert (Hp : 0 < 10 ^ shift) by (apply pow10_pos_nonneg; lia).
  assert (Hpp : 0 < 10 ^ prec) by (apply pow10_pos_nonneg; unfold prec; lia).
  destruct (Z.div_eucl (ca * 10 ^ shift) cb) as [q rem] eqn:Hqr.
  assert (Hq : q = ca * 10 ^ shift / cb) by (unfold Z.div; by rewrite Hqr).
  assert (Hrem : rem = (ca * 10 ^ shift) mod cb) by (unfold Z.modulo; by rewrite Hqr).
  pose proof (Z.div_mod (ca * 10 ^ shift) cb ltac:(lia)) as Hdm.
  rewrite <- Hq, <- Hrem in Hdm. clear Hqr.
  (* the dividend, shifted, is more than [10^prec] times the divisor *)
  assert (HN : 10 ^ prec * cb < ca * 10 ^ shift).
  { destruct (ndigits_bounds ca Hca) as [Hlo _].
    destruct (ndigits_bounds cb Hcb) as [_ Hhi].
    assert (H1 : 10 ^ (ndigits ca - 1) * 10 ^ shift = 10 ^ ndigits cb * 10 ^ prec).
    { rewrite <- !Z.pow_add_r by (unfold prec in *; lia).
      f_equal. unfold shift. lia. }
    nia. }
  destruct Hrep as [[Hle Hrep]|[Hlt Hrep]].
  2: { exfalso.
       assert (1 <= 10 ^ (e - e')) by (pose proof (pow10_pos_nonneg (e - e')); lia).
       nia. }
  assert (Hpe : 0 < 10 ^ (e' - e)) by (apply pow10_pos_nonneg; lia).
  assert (Hrem0 : rem = 0).
  { rewrite Hrem, Hrep. apply Z_mod_mult. }
  assert (Hqv : q = c * 10 ^ (e' - e)) by nia.
  rewrite Hrem0 in Hdiv. cbn [Z.eqb] in Hdiv.
  assert (Hqpos : 0 < q) by nia.
  replace (exp a - exp b - e) with shift in Hdiv by (unfold e; lia).
  destruct (strip_zeros_value (Z.to_nat shift) q e Hqpos) as (Hpos' & Hge & Hv').
  pose proof (strip_zeros_bounds (Z.to_nat shift) q e ltac:(lia)) as [_ [_ Hub]].
  pose proof (strip_zeros_stop (Z.to_nat shift) q e) as Hstop.
  destruct (strip_zeros (Z.to_nat shift) q e) as [q' e'']. simpl in *.
  rewrite Z2Nat.id in Hub, Hstop by lia.
  assert (Hpe'' : 0 < 10 ^ (e'' - e)) by (apply pow10_pos_nonneg; lia).
  assert (Hfit : q' < 10 ^ prec /\ Etiny <= e'').
  { destruct Hstop as [Hstop|Hstop].
    - (* the ideal exponent was reached *)
      replace (e'' - e) with shift in Hv' by lia.
      split; [nia|]. unfold e in Hstop. lia.
    - (* the coefficient does not end in 0 *)
      destruct (Z.lt_trichotomy e'' e') as [Hlt|[Heq|Hgt]].
      + exfalso. apply Hstop.
        rewrite (pow10_sub e' e'' e) in Hqv by lia.
        assert (Hq' : q' = c * 10 ^ (e' - e'')) by nia.
        replace (e' - e'') with (Z.succ (e' - e'' - 1)) in Hq' by lia.
        rewrite Z.pow_succ_r in Hq' by lia.
        rewrite Hq'.
        replace (c * (10 * 10 ^ (e' - e'' - 1))) with (c * 10 ^ (e' - e'' - 1) * 10)
          by lia.
        apply Z_mod_mult.
      + subst e''. split; [nia|lia].
      + rewrite (pow10_sub e'' e' e) in Hv' by lia.
        assert (0 < 10 ^ (e'' - e')) by (apply pow10_pos_nonneg; lia).
        assert (Hq'c : q' * 10 ^ (e'' - e') = c).
        { apply (Z.mul_reg_r _ _ (10 ^ (e' - e))); [lia|].
          rewrite <- Z.mul_assoc. lia. }
        split; [nia|lia]. }
  rewrite fix_exact in Hdiv.
  - injection Hdiv as <-. simpl. rewrite Z2N.id by lia.
    split; [done|]. split; [lia|]. nia.
  - simpl. rewrite Z2N.id by lia. tauto.
  - simpl. unfold e in Hub. lia.
Qed.

Lemma Qdiv_eq_mul (x y w : Q) : ~ (y == 0)%Q -> (x / y == w)%Q -> (x == w * y)%Q.
Proof. intros Hy <-. field. done. Qed.

(** The same on rational values: a quotient that is a decimal of at most
    [prec] digits with an exponent the context holds is returned exactly. *)
Lemma div_exact a b r c e' :
  is_zero b = false ->
  Z.of_N (coeff a) < 10 ^ prec ->
  Etiny <= exp a - exp b <= Etop ->
  div a b = Ok r ->
  Z.abs c < 10 ^ prec -> Etiny <= e' ->
  (value a / value b == inject_Z c * Qpower (10 # 1) e')%Q ->
  (value r == value a / value b)%Q.
Proof.
  intros Hzb Hsmall Hideal Hdiv Hc He' Hrep.
  destruct (is_zero a) eqn:Hza.
  - assert (Hzr : is_zero r = true).
    { unfold div in Hdiv. rewrite Hzb, Hza in Hdiv. by apply fix_zero in Hdiv. }
    rewrite (value_zero a Hza), (value_zero r Hzr). unfold Qdiv. ring.
  - set (shift := ndigits (Z.of_N (coeff b)) - ndigits (Z.of_N (coeff a)) + prec + 1).
    set (e := exp a - exp b - shift).
    set (P := Qpower (10 # 1) e).
    assert (HP : (0 < P)%Q) by apply pow10_Q_pos.
    assert (HP0 : ~ (P == 0)%Q) by (apply Qnot_eq_sym, Qlt_not_eq, HP).
    pose proof Hza as Hza'. pose proof Hzb as Hzb'.
    apply N.eqb_neq in Hza', Hzb'.
    assert (Hsa : Z.abs (scoeff a) = Z.of_N (coeff a)) by apply scoeff_abs.
    assert (Hsb : Z.abs (scoeff b) = Z.of_N (coeff b)) by apply scoeff_abs.
    assert (Hsb0 : scoeff b <> 0) by lia.
    assert (Hinj : ~ (inject_Z (scoeff b) == 0)%Q) by (unfold Qeq; simpl; lia).
    pose proof (ndigits_le (Z.of_N (coeff a)) prec ltac:(lia) ltac:(unfold prec; lia)).
    pose proof (ndigits_pos (Z.of_N (coeff b))).
    assert (Hsh : 0 <= shift) by (unfold shift; lia).
    assert (Ha : (value a / value b
                  == inject_Z (scoeff a * 10 ^ shift) / inject_Z (scoeff b) * P)%Q).
    { unfold value.
      rewrite (value_at (scoeff a) (exp a) (exp a - shift)) by lia.
      replace (exp a - (exp a - shift)) with shift by lia.
      replace (exp a - shift) with (e + exp b) by (unfold e; lia).
      rewrite Qpower_plus by done. fold P.
      field. split; [done|].
      apply Qnot_eq_sym, Qlt_not_eq, pow10_Q_pos. }
    (* the representation, over the integers *)
    assert (Hrel :
      (e <= e' /\ scoeff a * 10 ^ shift = c * 10 ^ (e' - e) * scoeff b) \/
      (e' < e /\ scoeff a * 10 ^ shift * 10 ^ (e - e') = c * scoeff b)).
    { rewrite Ha in Hrep.
      destruct (Z.le_gt_cases e e') as [Hle|Hgt]; [left|right]; (split; [lia|]).
      - rewrite (value_at c e' e) in Hrep by lia. fold P in Hrep.
        apply Qmult_inj_r in Hrep; [|done].
        apply Qdiv_eq_mul in Hrep; [|done].
        apply inject_Z_injective. by rewrite inject_Z_mult.
      - assert (HP' : (P == inject_Z (10 ^ (e - e')) * Qpower (10 # 1) e')%Q).
        { unfold P. rewrite <- (Qmult_1_l (Qpower _ e)).
          change 1%Q with (inject_Z 1).
          rewrite (value_at 1 e e') by lia. by rewrite Z.mul_1_l. }
        rewrite HP', Qmult_assoc in Hrep.
        apply Qmult_inj_r in Hrep;
          [|apply Qnot_eq_sym, Qlt_not_eq, pow10_Q_pos].
        assert (Hrep' : (inject_Z (scoeff a * 10 ^ shift) * inject_Z (10 ^ (e - e'))
                         == inject_Z c * inject_Z (scoeff b))%Q).
        { rewrite <- Hrep. field. done. }
        apply inject_Z_injective. by rewrite !inject_Z_mult. }
    assert (Hc0 : c <> 0).
    { intros ->. assert (0 < 10 ^ shift) by (apply pow10_pos_nonneg; lia).
      destruct Hrel as [[_ Hr]|[Hlt Hr]].
      - nia.
      - assert (0 < 10 ^ (e - e')) by (apply pow10_pos_nonneg; lia). nia. }
    destruct (div_exact_coeff a b r (Z.abs c) e' Hza Hzb Hsmall Hideal Hdiv
                ltac:(lia) He') as (Hs & Her & Hv).
    { fold shift. fold e. rewrite <- Hsa, <- Hsb.
      assert (0 < 10 ^ shift) by (apply pow10_pos_nonneg; lia).
      destruct Hrel as [[Hle Hr]|[Hlt Hr]]; [left|right]; (split; [done|]).
      - assert (0 < 10 ^ (e' - e)) by (apply pow10_pos_nonneg; lia).
        rewrite <- (Z.abs_eq (10 ^ shift)), <- (Z.abs_eq (10 ^ (e' - e))) by lia.
        rewrite <- !Z.abs_mul. by f_equal.
      - assert (0 < 10 ^ (e - e')) by (apply pow10_pos_nonneg; lia).
        rewrite <- (Z.abs_eq (10 ^ shift)), <- (Z.abs_eq (10 ^ (e - e'))) by lia.
        rewrite <- !Z.abs_mul. by f_equal. }
    fold shift in Her, Hv. fold e in Her, Hv.
    assert (Hr : (value r == inject_Z (scoeff r * 10 ^ (exp r - e)) * P)%Q).
    { unfold value. by rewrite (value_at (scoeff r) (exp r) e) by lia. }
    rewrite Ha, Hr. apply Qmult_comp; [|done].
    assert (Hsigned : scoeff r * 10 ^ (exp r - e) * scoeff b = scoeff a * 10 ^ shift).
    { unfold scoeff in *. rewrite Hs.
      destruct (sign a), (sign b); simpl; lia. }
    rewrite <- Hsigned, !inject_Z_mult. field. done.
Qed.

Section totals.
Variables window_size k B : Z.
Hypothesis Hsize : 0 < window_size < 10 ^ prec.
Hypothesis Hk : 0 <= k <= - Etiny.
Hypothesis HB : 0 <= B.
Hypothesis HwB : window_size * B < 10 ^ prec.
Context {timestamp : Type}.

(** Every average sent is the quotient of a total that is the exact sum of
    the window, has at most [prec] digits and an exponent between [-k] and
    0. *)
Lemma sliding_loop_totals (rest : list (timestamp * Decimal)) h st :
  window_ok window_size k B st -> tracks window_size h st ->
  Forall (ok_input k B) (map snd rest) ->
  forall i ts average,
    (sliding_loop window_size st rest).1 !! i = Some (ts, average) ->
    exists T,
      (value T == sum_values (recent window_size (h ++ take (S i) (map snd rest))))%Q /\
      Z.of_N (coeff T) < 10 ^ prec /\ - k <= exp T <= 0 /\
      div T (of_int (Z.of_nat (length
               (recent window_size (h ++ take (S i) (map snd rest)))))) = Ok average.
Proof.
  revert h st. induction rest as [|[ts v] rest IH]; intros h st Hok Htr Hall.
  - by intros i ts average.
  - simpl in Hall. apply Forall_cons in Hall as [Hv Hall].
    destruct (window_step_exact window_size k B Hsize Hk HB HwB st v Hok Hv)
      as (total2 & avg & Hstep & Hdiv & Hok').
    simpl in Hstep, Hdiv, Hok'.
    set (st1 := mkWindow _ _ _ _) in *.
    assert (Htr' : tracks window_size (h ++ [v]) st1).
    { apply (tracks_step window_size k B Hsize); [done|done|].
      unfold filled_count; simpl. apply scoeff_of_int. }
    specialize (IH (h ++ [v]) st1 Hok' Htr' Hall).
    cbn [sliding_loop]. rewrite Hstep.
    destruct (sliding_loop window_size st1 rest) as [sent final]. simpl in IH |- *.
    intros [|i] ts' average Hi; simpl in Hi.
    + injection Hi as <- <-. exists total2. simpl. rewrite take_0.
      split; [apply (window_total_value window_size k B Hsize Hk _ st1 Hok' Htr')|].
      split; [apply (window_total_small window_size k B Hsize HB HwB st1 Hok')|].
      split; [apply (ok_total_exp _ _ _ _ Hok')|].
      rewrite (length_recent window_size Hsize), length_app. simpl.
      destruct Htr as [_ Hf _]. rewrite <- Hdiv, Hf. do 2 f_equal. lia.
    + specialize (IH i ts' average Hi).
      by rewrite <- app_assoc in IH.
Qed.

End totals.
End exact_facts.

(* ===================================================================== *)
(** * The retry loop                                                       *)
(* ===================================================================== *)

Module tenacity_facts.
Import tenacity.

(** The waits of the clients' policy: 1, 2, 4, 8, and 10 from the fifth
    attempt on. *)
Lemma client_waits :
  map (wait client_policy) [1; 2; 3; 4; 5; 6; 7] = [1; 2; 4; 8; 10; 10; 10].
Proof. reflexivity. Qed.

Lemma client_wait_capped n : 5 <= n -> wait client_policy n = 10.
Proof.
  intros Hn. simpl. unfold wait_exponential.
  assert (2 ^ 4 <= 2 ^ (n - 1)) by (apply Z.pow_le_mono_r; lia).
  change (2 ^ 4) with 16 in *. lia.
Qed.

Lemma client_stops_at n : stop client_policy n = (5 <=? n).
Proof. reflexivity. Qed.

Section loop.
Context {A : Type}.
Variable fn : Z -> result A.

(** An attempt that returns ends the loop with its value. *)
Lemma call_from_returns fuel n slept a :
  fn n = Ok a ->
  call_from client_policy fn (S fuel) n slept = Some (mkOutcome slept n (Ok a)).
Proof. intros Hfn. simpl. by rewrite Hfn. Qed.

(** An exception that is not a transport error is re-raised at once. *)
Lemma call_from_reraises fuel n slept e :
  fn n = Raise e -> is_transport_error e = false ->
  call_from client_policy fn (S fuel) n slept = Some (mkOutcome slept n (Raise e)).
Proof.
  intros Hfn He. simpl. rewrite Hfn.
  unfold retry_if_exception_type. by rewrite He.
Qed.

(** A transport error before the fifth attempt: sleep, then call again. *)
Lemma call_from_retries fuel n m slept :
  fn n = Raise TransportError -> n < 5 -> m = n + 1 ->
  call_from client_policy fn (S fuel) n slept
  = call_from client_policy fn fuel m (slept ++ [wait client_policy n]).
Proof.
  intros Hfn Hn ->. simpl. rewrite Hfn. simpl.
  unfold stop_after_attempt. by destruct (Z.leb_spec 5 n); [lia|].
Qed.

(** The decorated call always comes back: five units of fuel are enough. *)
Lemma call_returns : exists o, call fn = Some o /\ 1 <= attempts o <= 5.
Proof.
  unfold call.
  assert (Hgen : forall fuel n slept, 1 <= n -> 5 <= n + Z.of_nat fuel ->
    exists o, call_from client_policy fn (S fuel) n slept = Some o /\
              n <= attempts o <= Z.max n 5).
  { induction fuel as [|fuel IH]; intros n slept Hn Hf.
    - simpl. destruct (fn n) as [a|e]; [eexists; split; [done|simpl; lia]|].
      destruct (negb (retry_if_exception_type is_transport_error e));
        [eexists; split; [done|simpl; lia]|].
      unfold stop_after_attempt. destruct (Z.leb_spec 5 n); [|lia].
      eexists; split; [done|simpl; lia].
    - cbn [call_from]. destruct (fn n) as [a|e]; [eexists; split; [done|simpl; lia]|].
      destruct (negb (retry client_policy e));
        [eexists; split; [done|simpl; lia]|].
      destruct (stop client_policy n) eqn:Hstop.
      + eexists; split; [done|simpl; lia].
      + rewrite client_stops_at in Hstop. apply Z.leb_gt in Hstop.
        destruct (IH (n + 1) (slept ++ [wait client_policy n])) as (o & Ho & Hb);
          [lia|lia|].
        exists o. split; [done|lia]. }
  destruct (Hgen 4%nat 1 [] ltac:(lia) ltac:(lia)) as (o & Ho & Hb).
  exists o. split; [done|lia].
Qed.

(** Five transport errors in a row: waits 1, 2, 4, 8, then [RetryError]. *)
Lemma call_exhausted :
  (forall n, 1 <= n <= 5 -> fn n = Raise TransportError) ->
  call fn = Some (mkOutcome [1; 2; 4; 8] 5 (Raise RetryError)).
Proof.
  intros Hfn. unfold call.
  rewrite (call_from_retries _ 1 2), (call_from_retries _ 2 3),
    (call_from_retries _ 3 4), (call_from_retries _ 4 5) by (try apply Hfn; lia).
  cbn [call_from]. by rewrite (Hfn 5 ltac:(lia)).
Qed.

(** An attempt that does not end in a transport error settles the call. *)
Lemma call_from_settles fuel n slept r :
  fn n = r -> match r with Raise TransportError => False | _ => True end ->
  call_from client_policy fn (S fuel) n slept = Some (mkOutcome slept n r).
Proof.
  intros <- Hr. destruct (fn n) as [a|e] eqn:Hfn.
  - by apply call_from_returns.
  - apply call_from_reraises; [done|]. by destruct e.
Qed.

(** Attempt [j] settles the call after [j - 1] transport errors: the waits
    slept are the first [j - 1] of 1, 2, 4, 8, and no further attempt is
    made. *)
Lemma call_settles j r :
  1 <= j <= 5 ->
  (forall n, 1 <= n < j -> fn n = Raise TransportError) ->
  fn j = r -> match r with Raise TransportError => False | _ => True end ->
  call fn = Some (mkOutcome (take (Z.to_nat (j - 1)) [1; 2; 4; 8]) j r).
Proof.
  intros Hj Hfail Hfn Hr. unfold call.
  assert (j = 1 \/ j = 2 \/ j = 3 \/ j = 4 \/ j = 5) as [->|[->|[->|[->| ->]]]] by lia.
  - by apply call_from_settles.
  - rewrite (call_from_retries _ 1 2) by (try apply Hfail; lia).
    by apply call_from_settles.
  - rewrite (call_from_retries _ 1 2), (call_from_retries _ 2 3)
      by (try apply Hfail; lia).
    by apply call_from_settles.
  - rewrite (call_from_retries _ 1 2), (call_from_retries _ 2 3),
      (call_from_retries _ 3 4) by (try apply Hfail; lia).
    by apply call_from_settles.
  - rewrite (call_from_retries _ 1 2), (call_from_retries _ 2 3),
      (call_from_retries _ 3 4), (call_from_retries _ 4 5) by (try apply Hfail; lia).
    by apply call_from_settles.
Qed.

End loop.
End tenacity_facts.

(* ===================================================================== *)
(** * Feature extraction                                                   *)
(* ===================================================================== *)

Module twitter_facts.
Import py_facts data twitter.

Section extraction.
Variable float_of_str : string -> option float.

(** A geo object with neither a ['coordinates'] nor a ['bbox'] entry
    resolves to nothing. *)
Lemma extract_absent geo :
  dict_get geo "coordinates" PNone = PNone ->
  dict_get geo "bbox" PNone = PNone ->
  extract_coordinates_from_geo float_of_str (PDict geo) = Ok None.
Proof.
  intros Hc Hb. unfold extract_coordinates_from_geo.
  destruct (truthy (PDict geo)); simpl; [|done].
  by rewrite Hc, Hb.
Qed.

(** A record without geo data and without places is skipped. *)
Lemma get_coordinates_absent tweet :
  dict_get tweet "data" (PDict []) = PDict [] ->
  dict_get tweet "includes" (PDict []) = PDict [] ->
  get_coordinates float_of_str tweet = Ok None.
Proof. intros Hd Hi. unfold get_coordinates. simpl. by rewrite Hd, Hi. Qed.

(** An unusable point list sends control on to the bounding box. *)
Lemma point_of_unusable cs :
  unusable float_of_str cs -> point_of float_of_str (PList cs) = Ok None.
Proof.
  intros [[H2 H3]|(c0 & c1 & rest & -> & Hc)]; unfold point_of, len_in.
  - destruct (Nat.eqb_spec (length cs) 2); [done|].
    by destruct (Nat.eqb_spec (length cs) 3).
  - destruct (_ || _); [|done].
    assert (H0 : getitem (c0 :: c1 :: rest) 0 = Ok c0)
      by (by apply (getitem_lookup _ 0%nat)).
    assert (H1 : getitem (c0 :: c1 :: rest) 1 = Ok c1)
      by (by apply (getitem_lookup _ 1%nat)).
    rewrite H0, bind_Ok. destruct Hc as [[Hc|Hc]|[Hok [Hc|Hc]]].
    + by rewrite Hc.
    + by rewrite Hc.
    + destruct (py_float float_of_str c0); [|done].
      by rewrite bind_Ok, H1, bind_Ok, Hc.
    + destruct (py_float float_of_str c0); [|done].
      by rewrite bind_Ok, H1, bind_Ok, Hc.
Qed.

(** A bounding box of four or six entries resolves to the half sums of its
    first four. *)
Lemma midpoint_of_box b0 b1 b2 b3 rest lon lat :
  length rest = 0%nat \/ length rest = 2%nat ->
  half_sum b0 b2 = Ok lon -> half_sum b1 b3 = Ok lat ->
  midpoint_of (PList (b0 :: b1 :: b2 :: b3 :: rest)) = Ok (Some (mkCoordinates lon lat)).
Proof.
  intros Hlen Hlon Hlat. unfold midpoint_of, len_in. simpl length.
  assert (((S (S (S (S (length rest)))) =? 4)%nat
          || (S (S (S (S (length rest)))) =? 6)%nat) = true) as ->
    by (destruct Hlen as [-> | ->]; done).
  set (bs := b0 :: b1 :: b2 :: b3 :: rest).
  assert (H0 : getitem bs 0 = Ok b0) by (by apply (getitem_lookup _ 0%nat)).
  assert (H1 : getitem bs 1 = Ok b1) by (by apply (getitem_lookup _ 1%nat)).
  assert (H2 : getitem bs 2 = Ok b2) by (by apply (getitem_lookup _ 2%nat)).
  assert (H3 : getitem bs 3 = Ok b3) by (by apply (getitem_lookup _ 3%nat)).
  rewrite H0, bind_Ok, H2, bind_Ok.
  unfold half_sum in Hlon, Hlat.
  destruct (py_add b0 b2) as [s02|]; [|done].
  rewrite bind_Ok in Hlon. rewrite bind_Ok.
  rewrite Hlon, bind_Ok, H1, bind_Ok, H3, bind_Ok.
  destruct (py_add b1 b3) as [s13|]; [|done].
  rewrite bind_Ok in Hlat. rewrite bind_Ok.
  by rewrite Hlat.
Qed.

End extraction.
End twitter_facts.

(* ===================================================================== *)
(** * The resolver's fan-out and the sinks                                 *)
(* ===================================================================== *)

Module pipeline_facts.
Import data decimal pipeline.

Lemma send_delivers {A} (c c' : SendChannel A) x :
  send c x = Ok c' -> delivered c' = delivered c ++ [x].
Proof.
  unfold send. destruct (open_for c) as [[|n]|]; intros H; by inversion H.
Qed.

Lemma send_fails {A} (c : SendChannel A) x e :
  send c x = Raise e -> e = BrokenResourceError.
Proof.
  unfold send. destruct (open_for c) as [[|n]|]; intros H; by inversion H.
Qed.

Section resolver.
Context {timestamp : Type}.
Variable lookup : nat -> Coordinates -> result (option Decimal).

(** What a run of the loop adds to the two channels. *)
Lemma temperature_loop_spec (received : list (timestamp * Coordinates)) :
  forall i file average,
  let r := temperature_loop lookup i file average received in
  exists sent_file sent_average,
    delivered (to_file r) = delivered file ++ sent_file /\
    delivered (to_average r) = delivered average ++ sent_average /\
    sent_average `prefix_of` sent_file /\
    (length sent_file <= S (length sent_average))%nat /\
    sent_file `prefix_of` resolved lookup i received /\
    (stopped r = Ok tt ->
       sent_file = resolved lookup i received /\
       sent_average = resolved lookup i received) /\
    (sent_file <> sent_average -> stopped r = Raise BrokenResourceError).
Proof.
  induction received as [|[ts q] rest IH]; intros i file average; simpl.
  - exists [], []. rewrite !app_nil_r.
    split; [done|]. split; [done|]. split; [done|]. split; [simpl; lia|].
    split; [done|]. split; done.
  - destruct (lookup i q) as [[temperature|]|e] eqn:Hlookup.
    + destruct (send file (ts, temperature)) as [file1|e1] eqn:Hf.
      * destruct (send average (ts, temperature)) as [average1|e2] eqn:Ha.
        -- destruct (IH (S i) file1 average1) as (sf & sa & Hdf & Hda & Hp & Hl & Hr & Hok & Hne).
           exists ((ts, temperature) :: sf), ((ts, temperature) :: sa).
           rewrite Hdf, Hda, (send_delivers _ _ _ Hf), (send_delivers _ _ _ Ha).
           rewrite <- !app_assoc. simpl.
           split; [done|]. split; [done|].
           split; [by apply prefix_cons|].
           split; [lia|].
           split; [by apply prefix_cons|].
           split.
           ++ intros Hstop. destruct (Hok Hstop) as [-> ->]. done.
           ++ intros Hneq. apply Hne. congruence.
        -- exists [(ts, temperature)], []. simpl.
           rewrite (send_delivers _ _ _ Hf), app_nil_r.
           split; [done|]. split; [done|].
           split; [apply prefix_nil|]. split; [lia|].
           split; [apply prefix_cons, prefix_nil|].
           split; [done|].
           intros _. by rewrite (send_fails _ _ _ Ha).
      * exists [], []. simpl. rewrite !app_nil_r.
        split; [done|]. split; [done|]. split; [done|]. split; [lia|].
        split; [apply prefix_nil|]. split; done.
    + apply IH.
    + exists [], []. simpl. rewrite !app_nil_r.
      split; [done|]. split; [done|]. split; [done|]. split; [lia|].
      split; [apply prefix_nil|]. split; done.
Qed.

End resolver.

(** ** Strings *)

Lemma append_nil_r (s : string) : (s ++ "")%string = s.
Proof. induction s as [|c s IH]; simpl; [done|]. by rewrite IH. Qed.

Lemma append_assoc (s1 s2 s3 : string) :
  ((s1 ++ s2) ++ s3)%string = (s1 ++ s2 ++ s3)%string.
Proof. induction s1 as [|c s1 IH]; simpl; [done|]. by rewrite IH. Qed.

Lemma count_newlines_app (s1 s2 : string) :
  count_newlines (s1 ++ s2) = (count_newlines s1 + count_newlines s2)%nat.
Proof. induction s1 as [|c s1 IH]; simpl; [done|]. rewrite IH. lia. Qed.

Section sink.
Context {timestamp datum : Type}.
Variable str_timestamp : timestamp -> string.
Variable str_datum : datum -> string.

(** A record whose renderings hold no newline makes exactly one line. *)
Lemma format_line_one_newline record :
  count_newlines (str_timestamp record.1) = 0%nat ->
  count_newlines (str_datum record.2) = 0%nat ->
  count_newlines (format_line str_timestamp str_datum record) = 1%nat.
Proof.
  intros Ht Hd. unfold format_line.
  rewrite !count_newlines_app, Ht, Hd. reflexivity.
Qed.

Lemma text_of_newlines (received : list (timestamp * datum)) :
  (forall ts, count_newlines (str_timestamp ts) = 0%nat) ->
  (forall d, count_newlines (str_datum d) = 0%nat) ->
  count_newlines (text_of (map (format_line str_timestamp str_datum) received))
  = length received.
Proof.
  intros Ht Hd. induction received as [|r rest IH]; simpl; [done|].
  by rewrite count_newlines_app, format_line_one_newline, IH.
Qed.

Lemma fold_write text (received : list (timestamp * datum)) :
  fold_left (fun text record =>
      (text ++ format_line str_timestamp str_datum record)%string) received text
  = (text ++ text_of (map (format_line str_timestamp str_datum) received))%string.
Proof.
  revert text; induction received as [|r rest IH]; intros text; simpl.
  - by rewrite append_nil_r.
  - by rewrite IH, append_assoc.
Qed.

End sink.
End pipeline_facts.

(* ===================================================================== *)
(** * The weather lookup                                                   *)
(* ===================================================================== *)

Module weather_facts.
Import py_facts data decimal tenacity tenacity_facts weather.

(** [should_ignore_error] says yes exactly on a 400 that carries the code;
    otherwise it says no, or trips on a body of an unexpected shape. *)
Lemma should_ignore_error_cases response :
  (should_ignore_error response = Ok true /\
     status_code response = BAD_REQUEST /\
     carries_error_code response NO_MATCHING_LOCATION) \/
  ((should_ignore_error response = Ok false \/
    should_ignore_error response = Raise AttributeError) /\
   ~ (status_code response = BAD_REQUEST /\
      carries_error_code response NO_MATCHING_LOCATION)).
Proof.
  unfold should_ignore_error, carries_error_code.
  destruct (Z.eqb_spec (status_code response) BAD_REQUEST) as [Hs|Hs];
    [|right; split; [by left|by intros [? _]]].
  destruct (json response) as [body|];
    [|right; split; [by left|by intros [_ (? & ? & ? & _)]]].
  rewrite bind_Ok.
  destruct body as [| | | | | |items];
    try (right; split; [by right|by intros [_ (? & ? & ? & _)]]).
  cbn [get]. rewrite bind_Ok.
  destruct (dict_get items "error" (PDict [])) as [| | | | | |error] eqn:Herr.
  1-6: right; split;
    [destruct (truthy _); first [left; reflexivity | right; reflexivity]
    |intros [_ (? & ? & [= <-] & He & _)]; congruence].
  destruct (truthy (PDict error)) eqn:Ht; cbn [get].
  - destruct (equals_int (dict_get error "code" PNone) NO_MATCHING_LOCATION) eqn:Hc.
    + left. split; [done|]. split; [done|]. by exists items, error.
    + right. split; [by left|].
      intros [_ (? & ? & [= <-] & He & Hc')]. congruence.
  - right. split; [by left|].
    intros [_ (? & ? & [= <-] & He & Hc')].
    rewrite Herr in He. injection He as <-.
    destruct error; [done|discriminate].
Qed.

Section client.
Variable http_get : Coordinates -> Z -> result Response.
Variable decimal_of_str : string -> option Decimal.

(** The attempt that gets a response settles the call. *)
Lemma lookup_settles q j r :
  1 <= j <= 5 ->
  (forall n, 1 <= n < j -> http_get q n = Raise TransportError) ->
  lookup_body http_get decimal_of_str q j = r ->
  match r with Raise TransportError => False | _ => True end ->
  get_current_temperature_for_coordinates http_get decimal_of_str q
  = Some (mkOutcome (take (Z.to_nat (j - 1)) [1; 2; 4; 8]) j r).
Proof.
  intros Hj Hfail Hr Hne. apply call_settles; try done.
  intros n Hn. unfold lookup_body. by rewrite (Hfail n Hn).
Qed.

End client.
End weather_facts.
(* ===================================================================== *)
(** * The stages as loops over what they receive                           *)
(* ===================================================================== *)

Module stage_facts.
Import py_facts data decimal twitter pipeline.

Section resolver.
Context {timestamp : Type}.
Variable lookup : nat -> Coordinates -> result (option Decimal).

(** The loop when neither consumer ever closes its end: both channels get
    the same records, and the loop stops early only at a lookup that
    raises. *)
Lemma temperature_loop_open (received : list (timestamp * Coordinates)) :
  forall i df da,
  let r := temperature_loop lookup i (mkChannel df None) (mkChannel da None) received in
  exists sent,
    delivered (to_file r) = df ++ sent /\
    delivered (to_average r) = da ++ sent /\
    ((stopped r = Ok tt /\ sent = resolved lookup i received) \/
     (exists before ts q after e,
        received = before ++ (ts, q) :: after /\
        (forall j x, before !! j = Some x -> is_ok (lookup (i + j) x.2) = true) /\
        lookup (i + length before) q = Raise e /\
        stopped r = Raise e /\
        sent = resolved lookup i before)).
Proof.
  induction received as [|[ts q] rest IH]; intros i df da; simpl.
  - exists []. rewrite !app_nil_r. split; [done|]. split; [done|]. by left.
  - destruct (lookup i q) as [[temperature|]|e] eqn:Hlookup; simpl.
    + destruct (IH (S i) (df ++ [(ts, temperature)]) (da ++ [(ts, temperature)]))
        as (sent & Hf & Ha & Hend).
      exists ((ts, temperature) :: sent).
      rewrite Hf, Ha, <- !app_assoc. split; [done|]. split; [done|].
      destruct Hend as [[Hstop ->]|(before & ts' & q' & after & e & -> & Hok & Hl & Hstop & ->)].
      * by left.
      * right. exists ((ts, q) :: before), ts', q', after, e.
        split; [done|]. split.
        { intros [|j] x Hx; simpl in Hx.
          - injection Hx as <-. rewrite Nat.add_0_r. simpl. by rewrite Hlookup.
          - rewrite Nat.add_succ_r. by apply Hok. }
        simpl. rewrite Nat.add_succ_r, Hlookup. done.
    + destruct (IH (S i) df da) as (sent & Hf & Ha & Hend).
      exists sent. split; [done|]. split; [done|].
      destruct Hend as [[Hstop ->]|(before & ts' & q' & after & e & -> & Hok & Hl & Hstop & ->)].
      * by left.
      * right. exists ((ts, q) :: before), ts', q', after, e.
        split; [done|]. split.
        { intros [|j] x Hx; simpl in Hx.
          - injection Hx as <-. rewrite Nat.add_0_r. simpl. by rewrite Hlookup.
          - rewrite Nat.add_succ_r. by apply Hok. }
        simpl. rewrite Nat.add_succ_r, Hlookup. done.
    + exists []. rewrite !app_nil_r. split; [done|]. split; [done|].
      right. exists [], ts, q, rest, e. simpl. rewrite Nat.add_0_r.
      split; [done|]. split; [by intros j x|done].
Qed.

End resolver.

Section extract.
Variable loads : string -> option (obj float).
Variable float_of_str : string -> option float.
Variable isoparse : string -> result datetime.

(** The stage over a stream cut in two: the second part is processed only
    when the first did not end the stage. *)
Lemma extract_app l1 l2 :
  extract_time_and_coordinates loads float_of_str isoparse (l1 ++ l2)
  = match extract_time_and_coordinates loads float_of_str isoparse l1 with
    | (sent1, Ok _) => (sent1 ++ (extract_time_and_coordinates loads float_of_str isoparse l2).1, (extract_time_and_coordinates loads float_of_str isoparse l2).2)
    | (sent1, Raise e) => (sent1, Raise e)
    end.
Proof.
  induction l1 as [|line l1 IH]; simpl.
  - by destruct (extract_time_and_coordinates loads float_of_str isoparse l2).
  - destruct (parse_tweet loads line) as [[|kv tweet]|]; try exact IH.
    destruct (get_timestamp isoparse (kv :: tweet)) as [[timestamp|]|e];
      [|exact IH|done].
    destruct (get_coordinates float_of_str (kv :: tweet)) as [[coordinates|]|e];
      [|exact IH|done].
    rewrite IH. destruct (extract_time_and_coordinates loads float_of_str isoparse l1) as [sent1 [[]|e]]; done.
Qed.

Lemma extract_sound received :
  exists kept, kept `sublist_of` received /\ Forall2 (yields loads float_of_str isoparse) kept (extract_time_and_coordinates loads float_of_str isoparse received).1.
Proof.
  induction received as [|line rest (kept & Hsub & Hall)]; simpl.
  - exists []. split; [done|]. constructor.
  - assert (Hskip : exists kept : list string,
              kept `sublist_of` line :: rest /\ Forall2 (yields loads float_of_str isoparse) kept (extract_time_and_coordinates loads float_of_str isoparse rest).1)
      by (exists kept; split; [by apply sublist_cons|done]).
    destruct (parse_tweet loads line) as [[|kv tweet]|] eqn:Hparse; try exact Hskip.
    destruct (get_timestamp isoparse (kv :: tweet)) as [[timestamp|]|e] eqn:Hts;
      [|exact Hskip|exists []; split; [apply sublist_nil_l|constructor]].
    destruct (get_coordinates float_of_str (kv :: tweet)) as [[coordinates|]|e] eqn:Hc;
      [|exact Hskip|exists []; split; [apply sublist_nil_l|constructor]].
    destruct (extract_time_and_coordinates loads float_of_str isoparse rest) as [sent final]. simpl in *.
    exists (line :: kept). split; [by apply sublist_skip|].
    constructor; [|done]. by exists (kv :: tweet).
Qed.

Lemma extract_complete received line pair :
  (extract_time_and_coordinates loads float_of_str isoparse received).2 = Ok tt ->
  line ∈ received -> yields loads float_of_str isoparse line pair ->
  pair ∈ (extract_time_and_coordinates loads float_of_str isoparse received).1.
Proof.
  intros Hend Hin (tweet & Hparse & Hts & Hc).
  induction received as [|line' rest IH]; [by apply elem_of_nil in Hin|].
  apply elem_of_cons in Hin as [<-|Hin].
  - cbn [extract_time_and_coordinates] in *. rewrite Hparse in *.
    destruct tweet as [|kv tweet]; [done|].
    rewrite Hts, Hc in *.
    destruct (extract_time_and_coordinates loads float_of_str isoparse rest)
      as [sent final].
    destruct pair. apply elem_of_cons. by left.
  - cbn [extract_time_and_coordinates] in *.
    destruct (parse_tweet loads line') as [[|kv' tweet']|]; try by apply IH.
    destruct (get_timestamp isoparse (kv' :: tweet')) as [[timestamp|]|e];
      [|by apply IH|done].
    destruct (get_coordinates float_of_str (kv' :: tweet')) as [[coordinates|]|e];
      [|by apply IH|done].
    destruct (extract_time_and_coordinates loads float_of_str isoparse rest)
      as [sent final].
    simpl in *. apply elem_of_cons. right. by apply IH.
Qed.



End extract.
End stage_facts.
(* ===================================================================== *)
(** * What the extraction of coordinates can raise, and in which order it
      looks                                                                *)
(* ===================================================================== *)

Module geo_facts.
Import py_facts data twitter.

Lemma float_of_int_raises n e : float_of_int n = Raise e -> e = OverflowError.
Proof.
  unfold float_of_int. destruct (binary_normalize _ _ _ _ _); by intros [= <-].
Qed.

Ltac raises_by_cases :=
  unfold py_add, py_truediv; simpl;
  first
    [ done
    | intros [= <-]; tauto
    | match goal with
      | |- context [float_of_int ?n] =>
          let Hf := fresh "Hf" in
          destruct (float_of_int n) eqn:Hf; simpl;
          [done | intros [= <-]; apply float_of_int_raises in Hf; tauto]
      end ].

Lemma py_add_raises a b e :
  py_add a b = Raise e -> e = TypeError \/ e = OverflowError.
Proof. destruct a, b; raises_by_cases. Qed.

Lemma py_truediv_raises a d e :
  py_truediv a d = Raise e -> e = TypeError \/ e = OverflowError.
Proof. destruct a; raises_by_cases. Qed.

Lemma half_sum_raises a b e :
  half_sum a b = Raise e -> e = TypeError \/ e = OverflowError.
Proof.
  unfold half_sum. destruct (py_add a b) as [s|e'] eqn:Hs.
  - rewrite bind_Ok. apply py_truediv_raises.
  - rewrite bind_Raise. intros [= <-]. by apply py_add_raises in Hs.
Qed.

Section extraction.
Variable float_of_str : string -> option float.

Lemma py_float_raises x e :
  py_float float_of_str x = Raise e ->
  e = ValueError \/ e = TypeError \/ e = OverflowError.
Proof.
  destruct x; simpl; try (intros [= <-]; tauto).
  - intros H. apply float_of_int_raises in H. tauto.
  - intros H. apply float_of_int_raises in H. tauto.
  - destruct (float_of_str s); [done|]. intros [= <-]. tauto.
Qed.

(** The two conversions of the first [try], on a list of two entries or
    more. *)
Lemma point_of_cons c0 c1 rest :
  (length rest <= 1)%nat ->
  point_of float_of_str (PList (c0 :: c1 :: rest))
  = match (lon ← py_float float_of_str c0; lat ← py_float float_of_str c1;
           Ok (mkCoordinates lon lat)) with
    | Ok c => Ok (Some c)
    | Raise ValueError => Ok None
    | Raise TypeError => Ok None
    | Raise e => Raise e
    end.
Proof.
  intros Hlen. unfold point_of, len_in. simpl length.
  assert (((S (S (length rest)) =? 2)%nat || (S (S (length rest)) =? 3)%nat) = true)
    as -> by (destruct rest as [|? [|? ?]]; simpl in *; [done|done|lia]).
  assert (H0 : getitem (c0 :: c1 :: rest) 0 = Ok c0)
    by (by apply (getitem_lookup _ 0%nat)).
  assert (H1 : getitem (c0 :: c1 :: rest) 1 = Ok c1)
    by (by apply (getitem_lookup _ 1%nat)).
  rewrite H0, bind_Ok.
  destruct (py_float float_of_str c0) as [lon|e]; [|done].
  by rewrite !bind_Ok, H1, bind_Ok.
Qed.

Lemma point_of_long cs :
  (length cs < 2 \/ 3 < length cs)%nat -> point_of float_of_str (PList cs) = Ok None.
Proof.
  intros Hlen. unfold point_of, len_in.
  destruct (Nat.eqb_spec (length cs) 2); [lia|].
  destruct (Nat.eqb_spec (length cs) 3); [lia|done].
Qed.

Lemma point_of_raises coordinates e :
  point_of float_of_str coordinates = Raise e -> e = OverflowError.
Proof.
  destruct coordinates as [| | | | |cs|]; try done.
  destruct cs as [|c0 [|c1 rest]]; try done.
  destruct (le_lt_dec (length rest) 1) as [Hle|Hgt].
  - rewrite (point_of_cons _ _ _ Hle).
    destruct (py_float float_of_str c0) as [lon|e0] eqn:H0.
    + rewrite bind_Ok.
      destruct (py_float float_of_str c1) as [lat|e1] eqn:H1; [done|].
      rewrite bind_Raise.
      destruct (py_float_raises _ _ H1) as [->|[->| ->]]; [done|done|by intros [= <-]].
    + rewrite bind_Raise.
      destruct (py_float_raises _ _ H0) as [->|[->| ->]]; [done|done|by intros [= <-]].
  - rewrite point_of_long; [done|]. simpl. lia.
Qed.

(** The second [try] on a list of four entries or more. *)
Lemma midpoint_of_cons b0 b1 b2 b3 rest :
  length rest = 0%nat \/ length rest = 2%nat ->
  midpoint_of (PList (b0 :: b1 :: b2 :: b3 :: rest))
  = match (lon ← half_sum b0 b2; lat ← half_sum b1 b3;
           Ok (mkCoordinates lon lat)) with
    | Ok c => Ok (Some c)
    | Raise TypeError => Raise UnboundLocalError
    | Raise e => Raise e
    end.
Proof.
  intros Hlen. unfold midpoint_of, len_in. simpl length.
  assert (((S (S (S (S (length rest)))) =? 4)%nat
          || (S (S (S (S (length rest)))) =? 6)%nat) = true) as ->
    by (destruct Hlen as [-> | ->]; done).
  set (bs := b0 :: b1 :: b2 :: b3 :: rest).
  assert (H0 : getitem bs 0 = Ok b0) by (by apply (getitem_lookup _ 0%nat)).
  assert (H1 : getitem bs 1 = Ok b1) by (by apply (getitem_lookup _ 1%nat)).
  assert (H2 : getitem bs 2 = Ok b2) by (by apply (getitem_lookup _ 2%nat)).
  assert (H3 : getitem bs 3 = Ok b3) by (by apply (getitem_lookup _ 3%nat)).
  rewrite H0, bind_Ok, H2, bind_Ok.
  unfold half_sum.
  destruct (py_add b0 b2) as [s02|e]; [|done]. rewrite !bind_Ok.
  destruct (py_truediv s02 2) as [lon|e]; [|done]. rewrite !bind_Ok.
  rewrite H1, bind_Ok, H3, bind_Ok.
  destruct (py_add b1 b3) as [s13|e]; [|done]. rewrite !bind_Ok.
  by destruct (py_truediv s13 2) as [lat|e].
Qed.

Lemma midpoint_of_other_length bs :
  length bs <> 4%nat -> length bs <> 6%nat -> midpoint_of (PList bs) = Ok None.
Proof.
  intros H4 H6. unfold midpoint_of, len_in.
  destruct (Nat.eqb_spec (length bs) 4); [done|].
  by destruct (Nat.eqb_spec (length bs) 6).
Qed.

Lemma midpoint_of_raises bbox e :
  midpoint_of bbox = Raise e -> e = OverflowError \/ e = UnboundLocalError.
Proof.
  destruct bbox as [| | | | |bs|]; try done.
  destruct (decide (length bs = 4%nat \/ length bs = 6%nat)) as [Hlen|Hlen].
  - destruct bs as [|b0 [|b1 [|b2 [|b3 rest]]]]; try (simpl in Hlen; lia).
    rewrite midpoint_of_cons by (simpl in Hlen; lia).
    destruct (half_sum b0 b2) as [lon|e0] eqn:H0.
    + rewrite bind_Ok. destruct (half_sum b1 b3) as [lat|e1] eqn:H1; [done|].
      rewrite bind_Raise.
      destruct (half_sum_raises _ _ _ H1) as [-> | ->]; intros [= <-]; tauto.
    + rewrite bind_Raise.
      destruct (half_sum_raises _ _ _ H0) as [-> | ->]; intros [= <-]; tauto.
  - rewrite midpoint_of_other_length; [done|lia|lia].
Qed.

(** The extraction on an object that is a non-empty dict. *)
Lemma extract_dict geo :
  geo <> [] ->
  extract_coordinates_from_geo float_of_str (PDict geo)
  = (let coordinates := dict_get geo "coordinates" PNone in
     let coordinates := match coordinates with
                        | PDict inner => dict_get inner "coordinates" PNone
                        | _ => coordinates
                        end in
     point ← point_of float_of_str coordinates;
     match point with
     | Some c => Ok (Some c)
     | None => midpoint_of (dict_get geo "bbox" PNone)
     end).
Proof.
  intros Hne. unfold extract_coordinates_from_geo.
  assert (truthy (PDict geo) = true) as -> by (by destruct geo).
  cbn [negb get]. rewrite bind_Ok.
  by destruct (dict_get geo "coordinates" PNone).
Qed.

Lemma extract_falsy geo :
  truthy geo = false -> extract_coordinates_from_geo float_of_str geo = Ok None.
Proof. intros Hf. unfold extract_coordinates_from_geo. by rewrite Hf. Qed.

Lemma extract_raises geo e :
  extract_coordinates_from_geo float_of_str geo = Raise e ->
  (e = AttributeError /\ is_dict geo = false) \/
  (is_dict geo = true /\ (e = OverflowError \/ e = UnboundLocalError)).
Proof.
  destruct (truthy geo) eqn:Ht; [|by rewrite extract_falsy].
  destruct geo as [| | | | | |items];
    try (unfold extract_coordinates_from_geo; rewrite Ht; simpl;
         intros [= <-]; by left).
  rewrite extract_dict by (by destruct items).
  cbn zeta. intros H. right. split; [done|].
  destruct (point_of float_of_str _) as [[c|]|e'] eqn:Hp.
  - done.
  - rewrite bind_Ok in H. by apply midpoint_of_raises in H.
  - rewrite bind_Raise in H. injection H as <-.
    left. by apply point_of_raises in Hp.
Qed.

(** The comprehension over the places: it asks every place for its geo
    object, so all of them must be objects. *)
Lemma geos_of_dicts places :
  Forall (fun x => is_dict x = true) places ->
  geos_of places = Ok (filter (fun g => truthy g = true) (map place_geo places)).
Proof.
  induction 1 as [|x places Hx _ IH]; [done|].
  destruct x; try done. cbn [geos_of get map place_geo].
  rewrite bind_Ok, IH, bind_Ok. rewrite filter_cons.
  by destruct (truthy (dict_get items "geo" PNone)).
Qed.

Lemma geos_of_not_dict places :
  Exists (fun x => is_dict x = false) places -> geos_of places = Raise AttributeError.
Proof.
  induction 1 as [x places Hx|x places _ IH].
  - by destruct x.
  - cbn [geos_of]. destruct (get x "geo" PNone) as [g|e] eqn:Hg.
    + by rewrite bind_Ok, IH.
    + rewrite bind_Raise. f_equal. destruct x; simpl in Hg; congruence.
Qed.

Lemma geos_of_raises places e : geos_of places = Raise e -> e = AttributeError.
Proof.
  induction places as [|x places IH]; [done|]. cbn [geos_of].
  destruct (get x "geo" PNone) as [g|e'] eqn:Hg.
  - rewrite bind_Ok. destruct (geos_of places) as [gs|e'']; [done|].
    rewrite bind_Raise. intros [= <-]. by apply IH.
  - rewrite bind_Raise. intros [= <-]. destruct x; simpl in Hg; congruence.
Qed.

Lemma first_resolved_raises geos e :
  first_resolved float_of_str geos = Raise e ->
  e = AttributeError \/ e = OverflowError \/ e = UnboundLocalError.
Proof.
  induction geos as [|g geos IH]; [done|]. cbn [first_resolved].
  destruct (extract_coordinates_from_geo float_of_str g) as [[c|]|e'] eqn:Hg.
  - done.
  - rewrite bind_Ok. apply IH.
  - rewrite bind_Raise. intros [= <-].
    destruct (extract_raises _ _ Hg) as [[-> _]|[_ [-> | ->]]]; tauto.
Qed.

(** The generator over the geo objects stops at the first that resolves. *)
Lemma first_resolved_order before g after c :
  Forall (fun x => extract_coordinates_from_geo float_of_str x = Ok None) before ->
  extract_coordinates_from_geo float_of_str g = Ok (Some c) ->
  first_resolved float_of_str (before ++ g :: after) = Ok (Some c).
Proof.
  intros Hb Hg. induction Hb as [|x before Hx _ IH]; simpl.
  - by rewrite Hg.
  - by rewrite Hx.
Qed.

Lemma first_resolved_none geos :
  Forall (fun x => extract_coordinates_from_geo float_of_str x = Ok None) geos ->
  first_resolved float_of_str geos = Ok None.
Proof. induction 1 as [|x geos Hx _ IH]; simpl; [done|]. by rewrite Hx. Qed.

Lemma resolve_none_filter places :
  Forall (fun x => extract_coordinates_from_geo float_of_str (place_geo x) = Ok None)
    places ->
  Forall (fun g => extract_coordinates_from_geo float_of_str g = Ok None)
    (filter (fun g => truthy g = true) (map place_geo places)).
Proof.
  induction 1 as [|x places Hx _ IH]; simpl; [constructor|].
  rewrite filter_cons. destruct (decide _); [by constructor|done].
Qed.

(** [get_coordinates] once the data object and its geo entry are known. *)
Lemma get_coordinates_data tweet data :
  dict_get tweet "data" (PDict []) = PDict data ->
  get_coordinates float_of_str tweet
  = (coordinates ← extract_coordinates_from_geo float_of_str
                     (dict_get data "geo" (PDict []));
     match coordinates with
     | Some c => Ok (Some c)
     | None =>
         places ← get (dict_get tweet "includes" (PDict [])) "places" (PList []);
         places ← iterate places;
         geos ← geos_of places;
         first_resolved float_of_str geos
     end).
Proof. intros Hd. unfold get_coordinates. by rewrite !bind_Ok, Hd. Qed.

Lemma get_coordinates_places tweet data includes places :
  dict_get tweet "data" (PDict []) = PDict data ->
  extract_coordinates_from_geo float_of_str (dict_get data "geo" (PDict [])) = Ok None ->
  dict_get tweet "includes" (PDict []) = PDict includes ->
  dict_get includes "places" (PList []) = PList places ->
  get_coordinates float_of_str tweet
  = (geos ← geos_of places; first_resolved float_of_str geos).
Proof.
  intros Hd Hg Hi Hp. rewrite (get_coordinates_data _ _ Hd), Hg, bind_Ok, Hi.
  cbn [get]. by rewrite bind_Ok, Hp.
Qed.

Lemma get_raises {R} (x : obj R) key default e :
  get x key default = Raise e -> e = AttributeError.
Proof. destruct x; simpl; congruence. Qed.

Lemma iterate_raises {R} (x : obj R) e : iterate x = Raise e -> e = TypeError.
Proof. destruct x; simpl; congruence. Qed.

Lemma get_coordinates_raises tweet e :
  get_coordinates float_of_str tweet = Raise e ->
  e = AttributeError \/ e = TypeError \/ e = OverflowError \/ e = UnboundLocalError.
Proof.
  unfold get_coordinates. rewrite !bind_Ok.
  destruct (get _ "geo" _) as [geo|e1] eqn:H1;
    [rewrite bind_Ok|rewrite bind_Raise; intros [= <-]; apply get_raises in H1; tauto].
  destruct (extract_coordinates_from_geo float_of_str geo) as [[c|]|e2] eqn:H2.
  - done.
  - rewrite bind_Ok.
    destruct (get _ "places" _) as [places|e3] eqn:H3;
      [rewrite bind_Ok|rewrite bind_Raise; intros [= <-]; apply get_raises in H3; tauto].
    destruct (iterate places) as [l|e4] eqn:H4;
      [rewrite bind_Ok|rewrite bind_Raise; intros [= <-]; apply iterate_raises in H4; tauto].
    destruct (geos_of l) as [geos|e5] eqn:H5;
      [rewrite bind_Ok|rewrite bind_Raise; intros [= <-]; apply geos_of_raises in H5; tauto].
    intros H6. apply first_resolved_raises in H6. tauto.
  - rewrite bind_Raise. intros [= <-].
    destruct (extract_raises _ _ H2) as [[-> _]|[_ [-> | ->]]]; tauto.
Qed.

End extraction.
End geo_facts.
(* ===================================================================== *)
(** * The decorated call in general, and what the lookup can raise         *)
(* ===================================================================== *)

Module lookup_facts.
Import py_facts data decimal tenacity tenacity_facts weather weather_facts.

Lemma transport_or_not {A} (r : result A) :
  r = Raise TransportError \/
  match r with Raise TransportError => False | _ => True end.
Proof. destruct r as [a|[]]; tauto. Qed.

Lemma settled_not_transport {A} (r : result A) :
  match r with Raise TransportError => False | _ => True end ->
  r <> Raise TransportError.
Proof. by intros Hr ->. Qed.

(** Every run of the decorated call is of one of two kinds: an attempt
    [j <= 5] that did not end in a transport error settled it, or all five
    attempts ended in transport errors. *)
Lemma call_cases {A} (fn : Z -> result A) :
  (exists j, 1 <= j <= 5 /\
     (forall n, 1 <= n < j -> fn n = Raise TransportError) /\
     match fn j with Raise TransportError => False | _ => True end /\
     call fn = Some (mkOutcome (take (Z.to_nat (j - 1)) [1; 2; 4; 8]) j (fn j))) \/
  ((forall n, 1 <= n <= 5 -> fn n = Raise TransportError) /\
   call fn = Some (mkOutcome [1; 2; 4; 8] 5 (Raise RetryError))).
Proof.
  assert (Hstep : forall j, 1 <= j <= 5 ->
    (forall n, 1 <= n < j -> fn n = Raise TransportError) ->
    match fn j with Raise TransportError => False | _ => True end ->
    exists j, 1 <= j <= 5 /\
     (forall n, 1 <= n < j -> fn n = Raise TransportError) /\
     match fn j with Raise TransportError => False | _ => True end /\
     call fn = Some (mkOutcome (take (Z.to_nat (j - 1)) [1; 2; 4; 8]) j (fn j))).
  { intros j Hj Hfail Hr. exists j. split; [done|]. split; [done|]. split; [done|].
    by apply call_settles. }
  destruct (transport_or_not (fn 1)) as [H1|H1];
    [|left; apply (Hstep 1); [lia|intros; lia|done]].
  destruct (transport_or_not (fn 2)) as [H2|H2];
    [|left; apply (Hstep 2); [lia| |done];
      intros n Hn; by replace n with 1 by lia].
  destruct (transport_or_not (fn 3)) as [H3|H3];
    [|left; apply (Hstep 3); [lia| |done];
      intros n Hn; assert (n = 1 \/ n = 2) as [-> | ->] by lia; done].
  destruct (transport_or_not (fn 4)) as [H4|H4];
    [|left; apply (Hstep 4); [lia| |done];
      intros n Hn; assert (n = 1 \/ n = 2 \/ n = 3) as [->|[-> | ->]] by lia; done].
  assert (Hfour : forall n, 1 <= n < 5 -> fn n = Raise TransportError).
  { intros n Hn.
    assert (n = 1 \/ n = 2 \/ n = 3 \/ n = 4) as [->|[->|[-> | ->]]] by lia; done. }
  destruct (transport_or_not (fn 5)) as [H5|H5];
    [|left; apply (Hstep 5); [lia|done|done]].
  right.
  assert (Hall : forall n, 1 <= n <= 5 -> fn n = Raise TransportError).
  { intros n Hn. destruct (Z.eq_dec n 5) as [->|]; [done|]. apply Hfour. lia. }
  split; [done|]. by apply call_exhausted.
Qed.

Section client.
Variable http_get : Coordinates -> Z -> result Response.
Variable decimal_of_str : string -> option Decimal.

Lemma should_ignore_error_raises response e :
  should_ignore_error response = Raise e ->
  e = AttributeError /\ status_code response = BAD_REQUEST.
Proof.
  intros H. split.
  - destruct (should_ignore_error_cases response) as [[H' _]|[[H'|H'] _]];
      congruence.
  - unfold should_ignore_error in H.
    by destruct (Z.eqb_spec (status_code response) BAD_REQUEST).
Qed.

(** What one run of the body of the lookup can raise. *)
Lemma lookup_body_raises q n e :
  lookup_body http_get decimal_of_str q n = Raise e ->
  http_get q n = Raise e \/ e = HTTPStatusError \/ e = AttributeError.
Proof.
  unfold lookup_body. destruct (http_get q n) as [response|e0];
    [|rewrite bind_Raise; intros [= <-]; by left].
  rewrite bind_Ok. intros H. right.
  destruct (should_ignore_error response) as [[|]|e1] eqn:Hi.
  - done.
  - rewrite bind_Ok in H.
    destruct (raise_for_status response) as [[]|e2] eqn:Hr.
    + rewrite bind_Ok in H.
      destruct (json_decimal response) as [weather|]; [|done].
      destruct weather as [| | | | | |items]; try done. cbn [is_dict negb get] in H.
      rewrite bind_Ok in H.
      destruct (get (dict_get items "current" (PDict [])) "temp_f" PNone)
        as [temperature|e3] eqn:Ht.
      * rewrite bind_Ok in H. by destruct temperature.
      * rewrite bind_Raise in H. injection H as <-. right.
        destruct (dict_get items "current" (PDict [])); simpl in Ht; congruence.
    + rewrite bind_Raise in H. injection H as <-. left.
      unfold raise_for_status in Hr. destruct (_ && _); congruence.
  - rewrite bind_Raise in H. injection H as <-. right.
    by apply should_ignore_error_raises in Hi as [-> _].
Qed.


End client.
End lookup_facts.

(* ===================================================================== *)
(** * The sliding average engine                                           *)
(* ===================================================================== *)

Import samples decimal decimal_facts pipeline sliding_facts.

(** Two runs whose averages are not the exact means.  Capacity 2 and the
    temperatures 1E+28, 1, 0: the second sum has 29 digits and is rounded,
    so the third average comes out as 0 although the two most recent inputs
    are 1 and 0.  Capacity 3 and the temperatures 1, 0, 0: the third average
    is the 28-digit quotient 0.3333333333333333333333333333, not 1/3. *)
Lemma sliding_average_rounds_window_sum :
  (exists sent st average,
    compute_sliding_average 2 [(1%nat, dec_1E28); (2%nat, of_int 1); (3%nat, of_int 0)]
      = (sent, Ok st) /\
    sent !! 2%nat = Some (3%nat, average) /\
    (value average == 0)%Q /\
    ~ (value average == exact_mean [of_int 1; of_int 0])%Q) /\
  (exists sent st average,
    compute_sliding_average 3 [(1%nat, of_int 1); (2%nat, of_int 0); (3%nat, of_int 0)]
      = (sent, Ok st) /\
    sent !! 2%nat = Some (3%nat, average) /\
    average = mkDecimal false 3333333333333333333333333333 (-28) /\
    ~ (value average == exact_mean [of_int 1; of_int 0; of_int 0])%Q).
Proof.
  split.
  - eexists _, _, _. split; [vm_compute; reflexivity|].
    split; [reflexivity|]. split; [reflexivity|].
    vm_compute. discriminate.
  - eexists _, _, _. split; [vm_compute; reflexivity|].
    split; [reflexivity|]. split; [reflexivity|].
    vm_compute. discriminate.
Qed.

(** C1 (as amended).  On temperatures with at most [k] fractional digits
    and magnitude at most [B] units of [10^-k], where
    [window_size * B < 10^28], the stage emits one average per input, in
    arrival order, and the [n]-th average is the quotient, in the 28-digit
    decimal context, of the exact sum of the most recent
    [min(n, window_size)] inputs by [min(n, window_size)]; it is within half
    a unit of its last digit of the exact mean of these inputs.  With
    capacity 3 and inputs 10, 20, 30, 40 the averages are 10, 15, 20, 30. *)
Theorem sliding_average_emits_window_means {timestamp : Type}
    (window_size k B : Z) (received : list (timestamp * Decimal)) :
  0 < window_size < 10 ^ prec -> 0 <= k <= - Etiny -> 0 <= B ->
  window_size * B < 10 ^ prec ->
  Forall (ok_input k B) (map snd received) ->
  (exists sent st,
    compute_sliding_average window_size received = (sent, Ok st) /\
    map fst sent = map fst received /\
    forall i ts average, sent !! i = Some (ts, average) ->
      exists T,
        (value T == sum_values (recent window_size (take (S i) (map snd received))))%Q /\
        div T (of_int (Z.min (Z.of_nat (S i)) window_size)) = Ok average /\
        (Qabs (exact_mean (recent window_size (take (S i) (map snd received)))
               - value average)
         <= (1 # 2) * Qpower (10 # 1) (exp average))%Q) /\
  (forall t1 t2 t3 t4 : timestamp,
    (compute_sliding_average 3
       [(t1, of_int 10); (t2, of_int 20); (t3, of_int 30); (t4, of_int 40)]).1
    = [(t1, of_int 10); (t2, of_int 15); (t3, of_int 20); (t4, of_int 30)]).
Proof.
  intros Hsize Hk HB HwB Hall. split; [|reflexivity].
  destruct (sliding_loop_spec window_size k B Hsize Hk HB HwB received []
              (window_init window_size)
              (window_init_ok window_size k B Hsize Hk)
              (window_init_tracks window_size Hsize) Hall)
    as (sent & st & Hrun & _ & _ & Hfst & Hnth).
  exists sent, st. split; [done|]. split; [done|].
  intros i ts average Hi.
  destruct (Hnth i ts average Hi) as (T & Hv & Hc & Hd). simpl in Hv, Hd.
  assert (Hlen : (i < length (map snd received))%nat).
  { rewrite length_map, <- (length_map fst received), <- Hfst, length_map.
    by apply lookup_lt_Some in Hi. }
  assert (Hm : Z.of_nat (length (recent window_size (take (S i) (map snd received))))
               = Z.min (Z.of_nat (S i)) window_size).
  { rewrite (length_recent window_size Hsize), length_take. lia. }
  exists T. split; [done|]. split; [by rewrite <- Hm|].
  apply (mean_rounds _ T); [done|done|lia|done].
Qed.

Lemma sliding_average_emits_window_means_witness :
  exists T,
    (value T == sum_values [of_int 20; of_int 30; of_int 40])%Q /\
    div T (of_int 3) = Ok (of_int 30).
Proof.
  destruct (sliding_average_emits_window_means 3 2 1000000
              [(1%nat, of_int 10); (2%nat, of_int 20); (3%nat, of_int 30); (4%nat, of_int 40)])
    as [(sent & st & Hrun & Hfst & Hnth) _].
  - unfold prec. lia.
  - unfold Etiny, Emin, prec. lia.
  - lia.
  - unfold prec. lia.
  - repeat constructor; vm_compute; discriminate.
  - destruct (Hnth 3%nat 4%nat (of_int 30)) as (T & Hv & Hd & _).
    + vm_compute in Hrun. injection Hrun as <- _. reflexivity.
    + exists T. split; [exact Hv|exact Hd].
Defined.

(** Capacity 2: after 1E+28 the invariant holds, and the step that takes in
    1 breaks it, the 29-digit sum being rounded to 28 digits. *)
Lemma window_total_drifts_from_buffer :
  exists a1 st1 a2 st2,
    window_step 2 (window_init 2) dec_1E28 = Ok (a1, st1) /\
    (value (total st1) == sum_values (resident st1))%Q /\
    window_step 2 st1 (of_int 1) = Ok (a2, st2) /\
    resident st2 = [dec_1E28; of_int 1] /\
    ~ (value (total st2) == sum_values (resident st2))%Q.
Proof.
  eexists _, _, _, _. split; [vm_compute; reflexivity|].
  split; [vm_compute; reflexivity|].
  split; [vm_compute; reflexivity|].
  split; [reflexivity|].
  vm_compute. discriminate.
Qed.

(** C5 (as amended).  On temperatures with at most [k] fractional digits
    and magnitude at most [B] units of [10^-k], where
    [window_size * B < 10^28], the state invariant holds initially and every
    update step succeeds and preserves it: afterwards [total] denotes exactly
    the sum of the [filled_count] values resident in the buffer, and
    [filled_count] does not exceed the capacity. *)
Theorem window_invariant_preserved (window_size k B : Z) :
  0 < window_size < 10 ^ prec -> 0 <= k <= - Etiny -> 0 <= B ->
  window_size * B < 10 ^ prec ->
  window_ok window_size k B (window_init window_size) /\
  forall st temperature,
    window_ok window_size k B st -> ok_input k B temperature ->
    exists average st',
      window_step window_size st temperature = Ok (average, st') /\
      window_ok window_size k B st' /\
      (value (total st') == sum_values (resident st'))%Q /\
      filled_count st' = Z.min (filled_count st + 1) window_size /\
      filled_count st' <= window_size.
Proof.
  intros Hsize Hk HB HwB. split; [by apply window_init_ok|].
  intros st v Hok Hv.
  destruct (window_step_exact window_size k B Hsize Hk HB HwB st v Hok Hv)
    as (total2 & average & Hstep & _ & Hok').
  simpl in Hstep, Hok'. eexists _, _. split; [exact Hstep|].
  split; [exact Hok'|].
  split; [by apply (window_resident_value window_size k B Hk)|].
  split; [unfold filled_count at 1; simpl; apply scoeff_of_int|].
  apply Hok'.
Qed.

Lemma window_invariant_preserved_witness :
  exists average st',
    window_step 3 (window_init 3) (of_int 10) = Ok (average, st') /\
    window_ok 3 2 1000000 st' /\
    (value (total st') == sum_values (resident st'))%Q /\
    filled_count st' = Z.min (filled_count (window_init 3) + 1) 3 /\
    filled_count st' <= 3.
Proof.
  destruct (window_invariant_preserved 3 2 1000000) as [Hinit Hstep].
  - unfold prec. lia.
  - unfold Etiny, Emin, prec. lia.
  - lia.
  - unfold prec. lia.
  - apply (Hstep (window_init 3) (of_int 10) Hinit).
    split; [split; vm_compute; discriminate|vm_compute; discriminate].
Defined.

(* ===================================================================== *)
(** * Feature extraction                                                   *)
(* ===================================================================== *)

Import py_facts data twitter twitter_facts.

(** C8.  The point [12.5, 45.0] and the bounding box [10, 40, 15, 50] both
    resolve to [Coordinates(longitude=12.5, latitude=45.0)], also when the
    box is that of the first place of the secondary list, and a record with
    neither entry is skipped; but a record whose only location is the
    four-element box ["10", "40", "15", "50"], which cannot be resolved, is
    not skipped: the handler of the failed arithmetic raises
    [UnboundLocalError]. *)
Theorem get_coordinates_examples (float_of_str : string -> option float) :
  get_coordinates float_of_str (tweet_with_geo geo_point)
    = Ok (Some (mkCoordinates 12.5 45)) /\
  get_coordinates float_of_str (tweet_with_geo geo_bbox)
    = Ok (Some (mkCoordinates 12.5 45)) /\
  get_coordinates float_of_str tweet_with_place
    = Ok (Some (mkCoordinates 12.5 45)) /\
  get_coordinates float_of_str (tweet_with_geo geo_place_only) = Ok None /\
  get_coordinates float_of_str (tweet_with_geo geo_text_bbox)
    = Raise UnboundLocalError.
Proof. repeat split; reflexivity. Qed.

(** The point list has the wrong length and the box holds an integer beyond
    the double range: the midpoint arithmetic raises [OverflowError], which
    no handler catches. *)
Lemma bbox_midpoint_overflows :
  unusable no_float_of_str [PReal 12.5%float] /\
  extract_coordinates_from_geo no_float_of_str geo_huge_bbox = Raise OverflowError.
Proof. split; [left; split; discriminate|vm_compute; reflexivity]. Qed.

(** C10 (as amended).  When the point list of a geo object is unusable
    (wrong length, or an entry whose conversion raises [ValueError] or
    [TypeError]), extraction goes on to the bounding box of the same
    object; a box of four or six entries whose half sums can be computed
    resolves to [(b0 + b2) / 2.0] and [(b1 + b3) / 2.0], whatever entries 4
    and 5 are. *)
Theorem bbox_fallback_midpoint (float_of_str : string -> option float)
    (geo : list (string * obj float)) (cs : list (obj float))
    (b0 b1 b2 b3 : obj float) (rest : list (obj float)) (lon lat : float) :
  point_list geo = Some cs -> unusable float_of_str cs ->
  dict_get geo "bbox" PNone = PList (b0 :: b1 :: b2 :: b3 :: rest) ->
  length rest = 0%nat \/ length rest = 2%nat ->
  half_sum b0 b2 = Ok lon -> half_sum b1 b3 = Ok lat ->
  extract_coordinates_from_geo float_of_str (PDict geo)
    = Ok (Some (mkCoordinates lon lat)).
Proof.
  intros Hpt Hun Hbox Hlen Hlon Hlat.
  unfold extract_coordinates_from_geo.
  assert (truthy (PDict geo) = true) as -> by (by destruct geo).
  cbn [negb get]. rewrite bind_Ok.
  unfold point_list in Hpt.
  destruct (dict_get geo "coordinates" PNone) as [| | | | |l|inner]; try done.
  - injection Hpt as ->. cbn [is_dict]. rewrite bind_Ok.
    rewrite (point_of_unusable _ _ Hun), !bind_Ok, Hbox.
    by apply midpoint_of_box.
  - cbn [is_dict get]. rewrite bind_Ok.
    destruct (dict_get inner "coordinates" PNone); try done.
    injection Hpt as ->.
    rewrite (point_of_unusable _ _ Hun), !bind_Ok, Hbox.
    by apply midpoint_of_box.
Qed.

Lemma bbox_fallback_midpoint_witness :
  extract_coordinates_from_geo no_float_of_str geo_short_point_bbox6
    = Ok (Some (mkCoordinates 12.5 45)).
Proof.
  apply (bbox_fallback_midpoint no_float_of_str _ [PReal 12.5%float]
           (PInt 10) (PInt 40) (PInt 15) (PInt 50) [PInt 0; PInt 100]).
  - reflexivity.
  - left. split; discriminate.
  - reflexivity.
  - right. reflexivity.
  - reflexivity.
  - reflexivity.
Defined.

(** A creation time without an offset parses to a naive date-time, and the
    extraction returns it.  (A string the parser rejects does not lead to a
    skip either: its [ValueError] is not among the exceptions the handler
    catches.) *)
Lemma naive_timestamp_is_extracted :
  (exists ts,
    get_timestamp isoparse_sample (tweet_created_at "2022-03-01T12:00:00") = Ok (Some ts) /\
    is_aware ts = false) /\
  get_timestamp isoparse_sample (tweet_created_at "yesterday") = Raise ValueError.
Proof. split; [eexists; split; reflexivity|reflexivity]. Qed.

(** C6 (as amended).  For a record whose data object is a dict (or
    absent), timestamp extraction succeeds exactly when the object carries
    a creation-time string that [isoparse] accepts, and returns the parsed
    date-time, aware or not; when the field is absent or not a string the
    extraction returns nothing; and the stage skips a record without a
    timestamp and goes on with the next. *)
Theorem timestamp_extraction (isoparse : string -> result datetime)
    (tweet data : list (string * obj float)) :
  dict_get tweet "data" (PDict []) = PDict data ->
  (forall s ts, dict_get data "created_at" PNone = PStr s -> isoparse s = Ok ts ->
     get_timestamp isoparse tweet = Ok (Some ts)) /\
  (is_str (dict_get data "created_at" PNone) = false ->
     get_timestamp isoparse tweet = Ok None) /\
  (forall ts, get_timestamp isoparse tweet = Ok (Some ts) ->
     exists s, dict_get data "created_at" PNone = PStr s /\ isoparse s = Ok ts) /\
  (forall loads float_of_str tweet_json rest,
     parse_tweet loads tweet_json = Some tweet ->
     get_timestamp isoparse tweet = Ok None ->
     extract_time_and_coordinates loads float_of_str isoparse (tweet_json :: rest)
     = extract_time_and_coordinates loads float_of_str isoparse rest).
Proof.
  intros Hdata. unfold get_timestamp. rewrite !bind_Ok, Hdata. cbn [get].
  rewrite bind_Ok. repeat split.
  - intros s ts -> Hs. by rewrite Hs.
  - intros Hstr. by destruct (dict_get data "created_at" PNone).
  - intros ts. destruct (dict_get data "created_at" PNone) as [| | | |s| |]; try done.
    destruct (isoparse s) as [ts'|e] eqn:Hs.
    + intros [= ->]. by exists s.
    + by destruct e.
  - intros loads float_of_str tweet_json rest Hparse Hts.
    cbn [extract_time_and_coordinates]. rewrite Hparse.
    destruct tweet as [|kv tweet]; [done|].
    unfold get_timestamp. rewrite !bind_Ok, Hdata. cbn [get].
    rewrite bind_Ok, Hts. done.
Qed.

Lemma timestamp_extraction_witness :
  get_timestamp isoparse_sample (tweet_created_at "2022-03-01T12:00:00+00:00")
  = Ok (Some (mkDatetime 2022 3 1 12 0 0 0 (Some 0))).
Proof.
  destruct (timestamp_extraction isoparse_sample
              (tweet_created_at "2022-03-01T12:00:00+00:00")
              [("created_at"%string, PStr "2022-03-01T12:00:00+00:00")] eq_refl)
    as [H _].
  apply (H "2022-03-01T12:00:00+00:00"%string); reflexivity.
Defined.

(* ===================================================================== *)
(** * The resolver's fan-out and the sinks                                 *)
(* ===================================================================== *)

Import pipeline_facts.

(** The averaging stage has closed its end and the file sink has not: the
    record reaches the file channel only. *)
Lemma fanout_diverges_on_closed_consumer :
  let r := get_temperature lookup_72 (mkChannel [] None) (mkChannel [] (Some 0%nat))
             [(1%nat, origin)] in
  delivered (to_file r) = [(1%nat, of_int 72)] /\
  delivered (to_average r) = [] /\
  stopped r = Raise BrokenResourceError.
Proof. repeat split; reflexivity. Qed.

(** C2 (as amended).  Every resolved record is sent to the file channel
    first and to the averaging channel next.  When the stage runs to the end
    of its input, both channels have received exactly the resolved records,
    each once and in arrival order.  When a send fails, the stage stops with
    [BrokenResourceError]; what the averaging channel received is then a
    prefix of what the file channel received, shorter by at most one
    record. *)
Theorem fanout_delivers_same_records {timestamp : Type}
    (lookup : nat -> Coordinates -> result (option Decimal))
    (file_open average_open : option nat)
    (received : list (timestamp * Coordinates)) :
  let r := get_temperature lookup (mkChannel [] file_open)
             (mkChannel [] average_open) received in
  delivered (to_average r) `prefix_of` delivered (to_file r) /\
  (length (delivered (to_file r)) <= S (length (delivered (to_average r))))%nat /\
  delivered (to_file r) `prefix_of` resolved lookup 0 received /\
  (stopped r = Ok tt ->
     delivered (to_file r) = resolved lookup 0 received /\
     delivered (to_average r) = resolved lookup 0 received) /\
  (delivered (to_file r) <> delivered (to_average r) ->
     stopped r = Raise BrokenResourceError).
Proof.
  intros r.
  destruct (temperature_loop_spec lookup received 0
              (mkChannel [] file_open) (mkChannel [] average_open))
    as (sf & sa & Hf & Ha & Hp & Hl & Hr & Hok & Hne).
  fold (get_temperature lookup (mkChannel [] file_open)
          (mkChannel [] average_open) received) in Hf, Ha, Hok, Hne.
  fold r in Hf, Ha, Hok, Hne. simpl in Hf, Ha.
  rewrite Hf, Ha. repeat split; try done; by apply Hok.
Qed.

(** C9.  Whatever the file held before, the sink leaves in it exactly the
    lines of the records received, in arrival order and without a header;
    the line of a record is its timestamp, a comma, its value and a
    newline; and when the renderings hold no newline, the file has as many
    line terminators as records were received. *)
Theorem write_data_lines {timestamp datum : Type}
    (str_timestamp : timestamp -> string) (str_datum : datum -> string)
    (before : string) (received : list (timestamp * datum)) :
  write_data str_timestamp str_datum before received
    = text_of (map (fun record =>
                 (str_timestamp record.1 ++ "," ++ str_datum record.2 ++ newline)%string)
               received) /\
  write_data str_timestamp str_datum before [] = EmptyString /\
  ((forall ts, count_newlines (str_timestamp ts) = 0%nat) ->
   (forall d, count_newlines (str_datum d) = 0%nat) ->
   count_newlines (write_data str_timestamp str_datum before received)
   = length received).
Proof.
  assert (Hw : write_data str_timestamp str_datum before received
               = text_of (map (format_line str_timestamp str_datum) received)).
  { unfold write_data, open_wt. by rewrite fold_write. }
  split; [exact Hw|]. split; [reflexivity|].
  intros Ht Hd. rewrite Hw. by apply text_of_newlines.
Qed.

(** The file after two records, whatever it held before. *)
Lemma write_data_lines_witness :
  write_data keep keep "stale"%string sample_records
  = ("2022-03-01 12:00:00+00:00,72.5" ++ newline
     ++ "2022-03-01 12:00:01+00:00,68.0" ++ newline)%string.
Proof.
  destruct (write_data_lines keep keep "stale"%string sample_records) as [H _].
  rewrite H. reflexivity.
Defined.

(* ===================================================================== *)
(** * The weather lookup and the retry policy                              *)
(* ===================================================================== *)

Import tenacity tenacity_facts weather weather_facts.

(** C4.  When the request that gets through (at the first attempt, or at a
    later one after transport errors) is answered with status 400 and the
    domain error code 1006, the lookup returns nothing and the resolver
    goes on with the next record; when it is answered with any other
    non-success status, the lookup raises an error that is not a transport
    error, no further attempt is made, and the error ends the resolver. *)
Theorem lookup_error_statuses
    (http_get : Coordinates -> Z -> result Response)
    (decimal_of_str : string -> option Decimal)
    (q : Coordinates) (j : Z) (response : Response) :
  1 <= j <= 5 ->
  (forall n, 1 <= n < j -> http_get q n = Raise TransportError) ->
  http_get q j = Ok response ->
  (status_code response = BAD_REQUEST ->
   carries_error_code response NO_MATCHING_LOCATION ->
   get_current_temperature_for_coordinates http_get decimal_of_str q
   = Some (mkOutcome (take (Z.to_nat (j - 1)) [1; 2; 4; 8]) j (Ok None))) /\
  (~ (200 <= status_code response <= 299) ->
   ~ (status_code response = BAD_REQUEST /\
      carries_error_code response NO_MATCHING_LOCATION) ->
   exists e,
     get_current_temperature_for_coordinates http_get decimal_of_str q
     = Some (mkOutcome (take (Z.to_nat (j - 1)) [1; 2; 4; 8]) j (Raise e)) /\
     is_transport_error e = false) /\
  (forall (timestamp : Type) lookup i (ts : timestamp) file average rest,
     (lookup i q = Ok None ->
      temperature_loop lookup i file average ((ts, q) :: rest)
      = temperature_loop lookup (S i) file average rest) /\
     (forall e, lookup i q = Raise e ->
      temperature_loop lookup i file average ((ts, q) :: rest)
      = mkFanout file average (Raise e))).
Proof.
  intros Hj Hfail Hget. split; [|split].
  - intros Hs Hc. apply lookup_settles; [done|done| |done].
    unfold lookup_body. rewrite Hget, bind_Ok.
    destruct (should_ignore_error_cases response) as [(-> & _)|[_ Hn]]; [done|].
    by destruct Hn.
  - intros Hs Hn.
    assert (Hraise : raise_for_status response = Raise HTTPStatusError).
    { unfold raise_for_status.
      destruct (Z.leb_spec 200 (status_code response));
        destruct (Z.leb_spec (status_code response) 299); simpl; try done. lia. }
    destruct (should_ignore_error_cases response) as [(_ & Hs' & Hc)|[[Hi|Hi] _]].
    + by destruct Hn.
    + exists HTTPStatusError. split; [|done].
      apply lookup_settles; [done|done| |done].
      unfold lookup_body. by rewrite Hget, bind_Ok, Hi, bind_Ok, Hraise.
    + exists AttributeError. split; [|done].
      apply lookup_settles; [done|done| |done].
      unfold lookup_body. by rewrite Hget, bind_Ok, Hi.
  - intros timestamp lookup i ts file average rest.
    split; [intros Hl|intros e Hl]; simpl; by rewrite Hl.
Qed.

Lemma lookup_error_statuses_witness :
  get_current_temperature_for_coordinates (always response_no_location)
    no_decimal_of_str origin
  = Some (mkOutcome [] 1 (Ok None)).
Proof.
  destruct (lookup_error_statuses (always response_no_location) no_decimal_of_str
              origin 1 response_no_location) as [H _].
  - lia.
  - intros n Hn. lia.
  - reflexivity.
  - apply H.
    + reflexivity.
    + eexists _, _. split; [reflexivity|]. split; reflexivity.
Defined.

(** C7.  On a successful response, a temperature decoded as a decimal is
    returned as it is, one given as a string is returned when it converts
    to a decimal, and a missing one yields nothing; but a temperature given
    as a JSON integer, which is numeric, is decoded as an [int] and yields
    nothing too. *)
Theorem lookup_temperature_field
    (decimal_of_str : string -> option Decimal) (q : Coordinates) :
  (forall f d,
     get_current_temperature_for_coordinates
       (always (current_temperature (PReal f) (PReal d))) decimal_of_str q
     = Some (mkOutcome [] 1 (Ok (Some d)))) /\
  (forall s,
     get_current_temperature_for_coordinates
       (always (current_temperature (PStr s) (PStr s))) decimal_of_str q
     = Some (mkOutcome [] 1 (Ok (decimal_of_str s)))) /\
  get_current_temperature_for_coordinates
    (always (mkResponse 200 (Some (PDict [("current"%string, PDict [])]))
               (Some (PDict [("current"%string, PDict [])])))) decimal_of_str q
  = Some (mkOutcome [] 1 (Ok None)) /\
  get_current_temperature_for_coordinates
    (always response_integer_temperature) decimal_of_str q
  = Some (mkOutcome [] 1 (Ok None)).
Proof. repeat split. Qed.

(** C3.  The retry loop around [TwitterClient.stream] wraps the call that
    creates the generator, which cannot fail: it always ends at its first
    attempt, without a wait.  A transport error of the first connection
    therefore ends the first stage at once, although a second connection
    would have succeeded.  The lookup, a coroutine, is retried as the policy
    says: after five transport errors in a row it has waited 1, 2, 4 and 8
    and raises [RetryError], and a success at an earlier attempt is
    returned after the waits slept so far. *)
Theorem stream_transport_error_is_not_retried :
  observe_twitter_sample_stream connect_fails_once keep
    = Some (mkObserved [] [] (Raise TransportError)) /\
  (forall connect rstrip, exists o,
     twitter.stream connect rstrip = Some o /\
     slept o = [] /\ attempts o = 1 /\ is_ok (returned o) = true) /\
  (forall http_get decimal_of_str q,
     (forall n, 1 <= n <= 5 -> http_get q n = Raise TransportError) ->
     get_current_temperature_for_coordinates http_get decimal_of_str q
     = Some (mkOutcome [1; 2; 4; 8] 5 (Raise RetryError))) /\
  (forall http_get decimal_of_str q j temperature,
     1 <= j <= 5 ->
     (forall n, 1 <= n < j -> http_get q n = Raise TransportError) ->
     lookup_body http_get decimal_of_str q j = Ok temperature ->
     get_current_temperature_for_coordinates http_get decimal_of_str q
     = Some (mkOutcome (take (Z.to_nat (j - 1)) [1; 2; 4; 8]) j (Ok temperature))).
Proof.
  split; [reflexivity|]. split; [|split].
  - intros connect rstrip. eexists. split; [reflexivity|]. by repeat split.
  - intros http_get decimal_of_str q Hfail.
    apply call_exhausted. intros n Hn.
    unfold lookup_body. by rewrite (Hfail n Hn).
  - intros http_get decimal_of_str q j temperature Hj Hfail Hok.
    by apply lookup_settles.
Qed.

(* ===================================================================== *)
(** * Further properties of the sliding average engine                     *)
(* ===================================================================== *)

Import window_shape_facts.

(** X1.  Whatever the window size and the temperatures, the timestamps pass
    through the averaging stage untouched: the timestamps of the averages
    sent are those of the first records received, in arrival order; all of
    them when the stage runs to the end of its input, and fewer than were
    received when an exception ends it. *)
Theorem sliding_average_keeps_timestamps {timestamp : Type} (window_size : Z)
    (received : list (timestamp * Decimal)) :
  map fst (compute_sliding_average window_size received).1
    `prefix_of` map fst received /\
  (is_ok (compute_sliding_average window_size received).2 = true ->
   map fst (compute_sliding_average window_size received).1 = map fst received) /\
  (is_ok (compute_sliding_average window_size received).2 = false ->
   (length (compute_sliding_average window_size received).1 < length received)%nat).
Proof. apply sliding_loop_timestamps. Qed.

(** X2.  With a window size of zero or less the buffer is empty, and the
    first record received ends the stage with [IndexError] before anything
    is sent. *)
Theorem sliding_average_needs_positive_window {timestamp : Type}
    (window_size : Z) (ts : timestamp) (temperature : Decimal)
    (rest : list (timestamp * Decimal)) :
  window_size <= 0 ->
  compute_sliding_average window_size ((ts, temperature) :: rest)
  = ([], Raise IndexError).
Proof.
  intros Hw. unfold compute_sliding_average, window_init.
  replace (Z.to_nat window_size) with 0%nat by lia.
  cbn [sliding_loop replicate]. unfold window_step.
  cbn [count buffer current total]. rewrite eq_int_of_int.
  destruct (Z.eqb_spec 0 window_size) as [<-|Hne]; reflexivity.
Qed.

Lemma sliding_average_needs_positive_window_witness :
  compute_sliding_average 0 [(1%nat, of_int 10); (2%nat, of_int 20)]
  = ([], Raise IndexError).
Proof. apply sliding_average_needs_positive_window. lia. Defined.

(** X3.  With a window size between 1 and [10^28 - 1], and whatever finite
    temperatures are received, the only exception the averaging stage can
    raise is [decimal.Overflow]: the buffer is never indexed out of range
    and the count is never zero when the total is divided by it. *)
Theorem sliding_average_fails_only_by_overflow {timestamp : Type}
    (window_size : Z) (received : list (timestamp * Decimal)) (e : exn) :
  0 < window_size < 10 ^ prec ->
  (compute_sliding_average window_size received).2 = Raise e ->
  e = DecimalOverflow.
Proof.
  intros Hsize Hrun.
  pose proof (sliding_loop_holds window_size Hsize received []
                (window_init window_size) (window_init_holds window_size Hsize)) as H.
  unfold compute_sliding_average in Hrun. by rewrite Hrun in H.
Qed.

Lemma sliding_average_fails_only_by_overflow_witness :
  exists e,
    (compute_sliding_average 2 [(1%nat, dec_9E999999); (2%nat, dec_9E999999)]).2
      = Raise e /\
    e = DecimalOverflow.
Proof.
  eexists. split; [vm_compute; reflexivity|].
  apply (sliding_average_fails_only_by_overflow 2
           [(1%nat, dec_9E999999); (2%nat, dec_9E999999)]).
  - unfold prec. lia.
  - vm_compute. reflexivity.
Defined.

(** X4.  With a window size between 1 and [10^28 - 1], when the stage has
    taken in its input without failing, and whether or not the total was
    rounded on the way, the buffer still has [window_size] slots, the count
    is the smaller of the number of inputs and the window size, the cursor
    is the number of inputs modulo the window size, and each of the last
    [window_size] inputs, input number [i], sits in slot
    [i mod window_size]. *)
Theorem sliding_average_buffer_holds_recent {timestamp : Type}
    (window_size : Z) (received : list (timestamp * Decimal))
    (st : window_state) :
  0 < window_size < 10 ^ prec ->
  (compute_sliding_average window_size received).2 = Ok st ->
  Z.of_nat (length (buffer st)) = window_size /\
  count st = of_int (Z.min (Z.of_nat (length received)) window_size) /\
  current st = Z.of_nat (length received) mod window_size /\
  forall i : nat,
    Z.of_nat (length received) - window_size <= Z.of_nat i
      < Z.of_nat (length received) ->
    buffer st !! Z.to_nat (Z.of_nat i mod window_size) = snd <$> received !! i.
Proof.
  intros Hsize Hrun.
  pose proof (sliding_loop_holds window_size Hsize received []
                (window_init window_size) (window_init_holds window_size Hsize)) as H.
  unfold compute_sliding_average in Hrun. rewrite Hrun in H. simpl in H.
  destruct H as [Hlen Hcnt Hcur Hslots]. rewrite length_map in *.
  split; [done|]. split; [done|]. split; [done|].
  intros i Hi. rewrite (Hslots i Hi). apply list_lookup_fmap.
Qed.

Lemma sliding_average_buffer_holds_recent_witness :
  exists st,
    (compute_sliding_average 2
       [(1%nat, dec_1E28); (2%nat, of_int 1); (3%nat, of_int 0)]).2 = Ok st /\
    buffer st = [of_int 0; of_int 1] /\
    buffer st !! Z.to_nat (2 mod 2) = Some (of_int 0) /\
    buffer st !! Z.to_nat (1 mod 2) = Some (of_int 1).
Proof.
  eexists. split; [vm_compute; reflexivity|]. split; [reflexivity|].
  match goal with
  | |- buffer ?st !! _ = _ /\ _ =>
      assert (Hrun : (compute_sliding_average 2
                        [(1%nat, dec_1E28); (2%nat, of_int 1); (3%nat, of_int 0)]).2
                     = Ok st) by (vm_compute; reflexivity);
      destruct (sliding_average_buffer_holds_recent 2
                  [(1%nat, dec_1E28); (2%nat, of_int 1); (3%nat, of_int 0)]
                  st ltac:(unfold prec; lia) Hrun) as (_ & _ & _ & Hslots)
  end.
  split.
  - exact (Hslots 2%nat ltac:(simpl; lia)).
  - exact (Hslots 1%nat ltac:(simpl; lia)).
Defined.

(* ===================================================================== *)
(** * Further properties of the resolver and of the extraction stage       *)
(* ===================================================================== *)

Import stage_facts.

(** X5.  When neither consumer ever closes its end, the two channels of the
    resolver receive the same records, and the stage either runs to the end
    of its input, having delivered every resolved record, or stops at the
    first lookup that raises, with that exception, having delivered the
    records resolved before it and none after. *)
Theorem resolver_stops_at_failed_lookup {timestamp : Type}
    (lookup : nat -> Coordinates -> result (option Decimal))
    (received : list (timestamp * Coordinates)) :
  let r := get_temperature lookup (mkChannel [] None) (mkChannel [] None) received in
  delivered (to_file r) = delivered (to_average r) /\
  ((stopped r = Ok tt /\ delivered (to_file r) = resolved lookup 0 received) \/
   (exists before ts q after e,
      received = before ++ (ts, q) :: after /\
      (forall j x, before !! j = Some x -> is_ok (lookup j x.2) = true) /\
      lookup (length before) q = Raise e /\
      stopped r = Raise e /\
      delivered (to_file r) = resolved lookup 0 before)).
Proof.
  intros r. destruct (temperature_loop_open lookup received 0 [] [])
    as (sent & Hf & Ha & Hend).
  fold (get_temperature lookup (mkChannel [] None) (mkChannel [] None) received)
    in Hf, Ha, Hend.
  fold r in Hf, Ha, Hend. simpl in Hf, Ha. rewrite Hf, Ha.
  split; [done|]. destruct Hend as [Hend|Hend]; [by left|by right].
Qed.

(** X6.  The extraction stage over a stream cut in two: what it sends for
    the whole is what it sends for the first part followed by what it sends
    for the second, and the second part is not processed at all when an
    exception ended the stage in the first. *)
Theorem extraction_of_concatenation (loads : string -> option (obj float))
    (float_of_str : string -> option float)
    (isoparse : string -> result datetime) (l1 l2 : list string) :
  extract_time_and_coordinates loads float_of_str isoparse (l1 ++ l2)
  = match extract_time_and_coordinates loads float_of_str isoparse l1 with
    | (sent1, Ok _) =>
        (sent1 ++ (extract_time_and_coordinates loads float_of_str isoparse l2).1,
         (extract_time_and_coordinates loads float_of_str isoparse l2).2)
    | (sent1, Raise e) => (sent1, Raise e)
    end.
Proof. apply extract_app. Qed.

(** X7.  Every pair the extraction stage sends was extracted from a line it
    received: the pairs sent correspond, one for one and in arrival order,
    to a subsequence of the lines received, each of which decodes to a tweet
    with that timestamp and those coordinates; so the stage sends at most
    one pair per line.  And when the stage runs to the end of its input
    without an exception, it has sent the pair of every line that yields
    one. *)
Theorem extraction_sends_what_lines_yield (loads : string -> option (obj float))
    (float_of_str : string -> option float)
    (isoparse : string -> result datetime) (received : list string) :
  (exists kept,
     kept `sublist_of` received /\
     Forall2 (yields loads float_of_str isoparse) kept
       (extract_time_and_coordinates loads float_of_str isoparse received).1) /\
  (length (extract_time_and_coordinates loads float_of_str isoparse received).1
   <= length received)%nat /\
  ((extract_time_and_coordinates loads float_of_str isoparse received).2 = Ok tt ->
   forall line pair,
     line ∈ received -> yields loads float_of_str isoparse line pair ->
     pair ∈ (extract_time_and_coordinates loads float_of_str isoparse received).1).
Proof.
  destruct (extract_sound loads float_of_str isoparse received) as (kept & Hsub & Hall).
  split; [by exists kept|]. split.
  - rewrite <- (Forall2_length _ _ _ Hall). by apply sublist_length.
  - intros Hend line pair. by apply extract_complete.
Qed.

(** X8.  A tweet whose ['data'] entry is present but is not an object (for
    instance [null]) is not skipped: both extractions call [.get] on it and
    raise [AttributeError], and the exception ends the extraction stage. *)
Theorem non_object_data_ends_extraction (loads : string -> option (obj float))
    (float_of_str : string -> option float)
    (isoparse : string -> result datetime)
    (line : string) (tweet : list (string * obj float)) (rest : list string) :
  parse_tweet loads line = Some tweet -> tweet <> [] ->
  is_dict (dict_get tweet "data" (PDict [])) = false ->
  get_timestamp isoparse tweet = Raise AttributeError /\
  get_coordinates float_of_str tweet = Raise AttributeError /\
  extract_time_and_coordinates loads float_of_str isoparse (line :: rest)
  = ([], Raise AttributeError).
Proof.
  intros Hparse Hne Hdata.
  assert (Hts : get_timestamp isoparse tweet = Raise AttributeError).
  { unfold get_timestamp. rewrite bind_Ok.
    by destruct (dict_get tweet "data" (PDict [])). }
  split; [done|]. split.
  - unfold get_coordinates. rewrite bind_Ok.
    by destruct (dict_get tweet "data" (PDict [])).
  - cbn [extract_time_and_coordinates]. rewrite Hparse.
    destruct tweet as [|kv tweet]; [done|]. by rewrite Hts.
Qed.

Lemma non_object_data_ends_extraction_witness :
  get_timestamp isoparse_sample tweet_null_data = Raise AttributeError /\
  get_coordinates no_float_of_str tweet_null_data = Raise AttributeError /\
  extract_time_and_coordinates (loads_to (PDict tweet_null_data)) no_float_of_str
    isoparse_sample ["line"%string] = ([], Raise AttributeError).
Proof.
  apply (non_object_data_ends_extraction (loads_to (PDict tweet_null_data))
           no_float_of_str isoparse_sample "line"%string tweet_null_data []).
  - reflexivity.
  - discriminate.
  - reflexivity.
Defined.

(* ===================================================================== *)
(** * Further properties of the extraction of coordinates                  *)
(* ===================================================================== *)

Import geo_facts.

(** X9.  A point list of two or three entries whose first two convert to
    floats is the answer, longitude first: the third entry is ignored, and
    the bounding box is not looked at, so that a box on which the
    arithmetic would fail does no harm. *)
Theorem usable_point_wins (float_of_str : string -> option float)
    (geo : list (string * obj float)) (c0 c1 : obj float)
    (rest : list (obj float)) (lon lat : float) :
  point_list geo = Some (c0 :: c1 :: rest) -> (length rest <= 1)%nat ->
  py_float float_of_str c0 = Ok lon -> py_float float_of_str c1 = Ok lat ->
  extract_coordinates_from_geo float_of_str (PDict geo)
  = Ok (Some (mkCoordinates lon lat)).
Proof.
  intros Hpt Hlen H0 H1.
  rewrite extract_dict by (intros ->; discriminate). cbn zeta.
  unfold point_list in Hpt.
  destruct (dict_get geo "coordinates" PNone) as [| | | | |l|inner]; try done.
  - injection Hpt as ->.
    by rewrite (point_of_cons _ _ _ _ Hlen), H0, bind_Ok, H1.
  - destruct (dict_get inner "coordinates" PNone) as [| | | | |l|]; try done.
    injection Hpt as ->.
    by rewrite (point_of_cons _ _ _ _ Hlen), H0, bind_Ok, H1.
Qed.

Lemma usable_point_wins_witness :
  extract_coordinates_from_geo float_of_str_sample (PDict geo_point_and_text_bbox)
  = Ok (Some (mkCoordinates 12 45.5)).
Proof.
  apply (usable_point_wins float_of_str_sample geo_point_and_text_bbox
           (PInt 12) (PStr "45.5") [PReal 100%float]).
  - reflexivity.
  - simpl. lia.
  - reflexivity.
  - reflexivity.
Defined.

(** X10.  The exceptions the extraction of coordinates lets through.
    [extract_coordinates_from_geo] raises [AttributeError] only on a true
    value that is not an object, and on an object only [OverflowError] (an
    integer beyond the double range) or [UnboundLocalError] (the handler of
    the failed box arithmetic); [get_coordinates] raises nothing but these
    and [TypeError] (a places entry that cannot be iterated).  Each of the
    four does occur. *)
Theorem coordinate_extraction_exceptions (float_of_str : string -> option float) :
  (forall geo e,
     extract_coordinates_from_geo float_of_str geo = Raise e ->
     (e = AttributeError /\ is_dict geo = false) \/
     (is_dict geo = true /\ (e = OverflowError \/ e = UnboundLocalError))) /\
  (forall tweet e,
     get_coordinates float_of_str tweet = Raise e ->
     e = AttributeError \/ e = TypeError \/ e = OverflowError \/
     e = UnboundLocalError) /\
  get_coordinates float_of_str (tweet_with_geo (PStr "here")) = Raise AttributeError /\
  get_coordinates float_of_str (tweet_with_places (PInt 1)) = Raise TypeError /\
  get_coordinates float_of_str (tweet_with_geo geo_huge_bbox) = Raise OverflowError /\
  get_coordinates float_of_str (tweet_with_geo geo_text_bbox) = Raise UnboundLocalError.
Proof.
  split; [apply extract_raises|]. split; [apply get_coordinates_raises|].
  repeat split; vm_compute; reflexivity.
Qed.

(** X11.  A geo object with no usable point (none at all, or a list of the
    wrong length or with an entry that does not convert) and with a
    bounding box that is not a list of four or six entries resolves to
    nothing, without an exception; so does any value that is false (null,
    an empty object, an empty string, zero). *)
Theorem unresolvable_geo_is_skipped (float_of_str : string -> option float)
    (geo : list (string * obj float)) :
  point_list geo = None \/
    (exists cs, point_list geo = Some cs /\ unusable float_of_str cs) ->
  (forall bs, dict_get geo "bbox" PNone = PList bs ->
     length bs <> 4%nat /\ length bs <> 6%nat) ->
  extract_coordinates_from_geo float_of_str (PDict geo) = Ok None /\
  (forall falsy, truthy falsy = false ->
     extract_coordinates_from_geo float_of_str falsy = Ok None).
Proof.
  intros Hpt Hbox. split; [|apply extract_falsy].
  destruct geo as [|kv geo]; [done|].
  rewrite extract_dict by done. cbn zeta.
  assert (Hmid : midpoint_of (dict_get (kv :: geo) "bbox" PNone) = Ok None).
  { destruct (dict_get (kv :: geo) "bbox" PNone) as [| | | | |bs|] eqn:Hb; try done.
    destruct (Hbox bs eq_refl). by apply midpoint_of_other_length. }
  unfold point_list in Hpt.
  destruct (dict_get (kv :: geo) "coordinates" PNone) as [| | | | |l|inner];
    try (cbn [point_of]; rewrite bind_Ok; exact Hmid).
  - destruct Hpt as [Hn|(cs & Hcs & Hun)]; [done|]. injection Hcs as <-.
    by rewrite (twitter_facts.point_of_unusable _ _ Hun), bind_Ok.
  - destruct (dict_get inner "coordinates" PNone) as [| | | | |l|];
      try (cbn [point_of]; rewrite bind_Ok; exact Hmid).
    destruct Hpt as [Hn|(cs & Hcs & Hun)]; [done|]. injection Hcs as <-.
    by rewrite (twitter_facts.point_of_unusable _ _ Hun), bind_Ok.
Qed.

Lemma unresolvable_geo_is_skipped_witness :
  extract_coordinates_from_geo no_float_of_str (PDict geo_odd_shapes) = Ok None.
Proof.
  destruct (unresolvable_geo_is_skipped no_float_of_str geo_odd_shapes) as [H _].
  - left. reflexivity.
  - intros bs [= <-]. split; discriminate.
  - exact H.
Defined.

(** X12.  The order in which [get_coordinates] looks.  When the geo object
    of the tweet resolves, that is the answer and the secondary places are
    not looked at.  When it resolves to nothing, the places are taken in
    order and the first whose geo object resolves is the answer: places
    before it without a geo object, or with one that resolves to nothing,
    are passed over, and the places after it are not resolved, so that one
    on which the extraction would fail does no harm. *)
Theorem coordinates_resolution_order (float_of_str : string -> option float)
    (tweet data : list (string * obj float)) :
  dict_get tweet "data" (PDict []) = PDict data ->
  (forall c,
     extract_coordinates_from_geo float_of_str (dict_get data "geo" (PDict []))
       = Ok (Some c) ->
     get_coordinates float_of_str tweet = Ok (Some c)) /\
  (forall includes before p after c,
     extract_coordinates_from_geo float_of_str (dict_get data "geo" (PDict []))
       = Ok None ->
     dict_get tweet "includes" (PDict []) = PDict includes ->
     dict_get includes "places" (PList []) = PList (before ++ p :: after) ->
     Forall (fun x => is_dict x = true) (before ++ p :: after) ->
     Forall (fun x => extract_coordinates_from_geo float_of_str (place_geo x)
                      = Ok None) before ->
     extract_coordinates_from_geo float_of_str (place_geo p) = Ok (Some c) ->
     get_coordinates float_of_str tweet = Ok (Some c)).
Proof.
  intros Hd. split.
  - intros c Hg. by rewrite (get_coordinates_data _ _ _ Hd), Hg.
  - intros includes before p after c Hg Hi Hp Hdicts Hbefore Hres.
    rewrite (get_coordinates_places _ _ _ _ _ Hd Hg Hi Hp).
    rewrite (geos_of_dicts _ Hdicts), bind_Ok.
    rewrite map_app, filter_app. cbn [map]. rewrite filter_cons.
    destruct (decide (truthy (place_geo p) = true)) as [Ht|Ht].
    + apply first_resolved_order; [|done]. by apply resolve_none_filter.
    + apply not_true_is_false in Ht.
      rewrite (extract_falsy _ _ Ht) in Hres. done.
Qed.

Lemma coordinates_resolution_order_witness :
  get_coordinates no_float_of_str
    (tweet_with_places
       (PList [place_without_geo; place_with_bbox; place_with_text_bbox]))
  = Ok (Some (mkCoordinates 12.5 45)).
Proof.
  destruct (coordinates_resolution_order no_float_of_str
              (tweet_with_places
                 (PList [place_without_geo; place_with_bbox; place_with_text_bbox]))
              [("geo"%string, geo_place_only)] eq_refl) as [_ H].
  apply (H [("places"%string,
             PList [place_without_geo; place_with_bbox; place_with_text_bbox])]
           [place_without_geo] place_with_bbox [place_with_text_bbox]).
  - reflexivity.
  - reflexivity.
  - reflexivity.
  - repeat constructor.
  - repeat constructor.
  - reflexivity.
Defined.

(** X13.  The places are all asked for their geo object before any of them
    is resolved: when the geo object of the tweet resolves to nothing and
    one of the places, wherever it stands, is not an object,
    [get_coordinates] raises [AttributeError], even if another place would
    have resolved. *)
Theorem non_object_place_raises (float_of_str : string -> option float)
    (tweet data includes : list (string * obj float)) (places : list (obj float)) :
  dict_get tweet "data" (PDict []) = PDict data ->
  extract_coordinates_from_geo float_of_str (dict_get data "geo" (PDict []))
    = Ok None ->
  dict_get tweet "includes" (PDict []) = PDict includes ->
  dict_get includes "places" (PList []) = PList places ->
  Exists (fun x => is_dict x = false) places ->
  get_coordinates float_of_str tweet = Raise AttributeError.
Proof.
  intros Hd Hg Hi Hp Hex.
  rewrite (get_coordinates_places _ _ _ _ _ Hd Hg Hi Hp).
  by rewrite (geos_of_not_dict _ Hex).
Qed.

Lemma non_object_place_raises_witness :
  get_coordinates no_float_of_str
    (tweet_with_places (PList [place_with_bbox; PStr "c"]))
  = Raise AttributeError.
Proof.
  apply (non_object_place_raises no_float_of_str _
           [("geo"%string, geo_place_only)]
           [("places"%string, PList [place_with_bbox; PStr "c"])]
           [place_with_bbox; PStr "c"]).
  - reflexivity.
  - reflexivity.
  - reflexivity.
  - reflexivity.
  - apply Exists_cons_tl, Exists_cons_hd. reflexivity.
Defined.

(* ===================================================================== *)
(** * Further properties of the retry policy and of the weather lookup     *)
(* ===================================================================== *)

Import lookup_facts.

(** X14.  Whatever the decorated function does, a call through the retry
    decorator of the two clients ends after one to five attempts; before
    attempt [k] it has slept exactly the first [k - 1] of the waits 1, 2, 4,
    8; every attempt before the last ended in a transport error; and the
    call returns what the last attempt did, unless that was the fifth
    transport error, which is turned into [RetryError].  A transport error
    is therefore never what the caller gets. *)
Theorem decorated_call_outcome {A : Type} (fn : Z -> result A) :
  exists o,
    call fn = Some o /\
    1 <= attempts o <= 5 /\
    slept o = take (Z.to_nat (attempts o - 1)) [1; 2; 4; 8] /\
    (forall n, 1 <= n < attempts o -> fn n = Raise TransportError) /\
    ((fn (attempts o) <> Raise TransportError /\ returned o = fn (attempts o)) \/
     (attempts o = 5 /\ fn 5 = Raise TransportError /\
      returned o = Raise RetryError)) /\
    returned o <> Raise TransportError.
Proof.
  destruct (call_cases fn) as [(j & Hj & Hfail & Hr & Hcall)|[Hall Hcall]];
    eexists; (split; [exact Hcall|]); simpl.
  - split; [done|]. split; [done|]. split; [done|].
    split; [left; split; [by apply settled_not_transport|done]|].
    by apply settled_not_transport.
  - split; [lia|]. split; [done|].
    split; [intros n Hn; apply Hall; lia|].
    split; [right; split; [done|]; split; [apply Hall; lia|done]|done].
Qed.


(** X16.  When every request either gets a response or fails with a
    transport error, the only exceptions the decorated lookup lets through
    are [RetryError] (five transport errors), [HTTPStatusError] (a status
    that is neither a success nor the ignored error) and [AttributeError] (a
    body of an unexpected shape). *)
Theorem lookup_exceptions (http_get : Coordinates -> Z -> result Response)
    (decimal_of_str : string -> option Decimal) (q : Coordinates)
    (o : outcome (option Decimal)) (e : exn) :
  (forall n, is_ok (http_get q n) = true \/ http_get q n = Raise TransportError) ->
  get_current_temperature_for_coordinates http_get decimal_of_str q = Some o ->
  returned o = Raise e ->
  e = RetryError \/ e = HTTPStatusError \/ e = AttributeError.
Proof.
  intros Hget Hcall Hret. unfold get_current_temperature_for_coordinates in Hcall.
  destruct (call_cases (lookup_body http_get decimal_of_str q))
    as [(j & Hj & Hfail & Hr & Hcall')|[Hall Hcall']];
    rewrite Hcall' in Hcall; injection Hcall as <-; simpl in Hret.
  - rewrite Hret in Hr.
    destruct (lookup_body_raises _ _ _ _ _ Hret) as [Hg|Hg]; [|tauto].
    destruct (Hget j) as [Hok|Hte]; [by rewrite Hg in Hok|].
    rewrite Hg in Hte. injection Hte as ->. done.
  - injection Hret as <-. by left.
Qed.

Lemma lookup_exceptions_witness :
  exists e,
    get_current_temperature_for_coordinates (always response_server_error)
      no_decimal_of_str origin = Some (mkOutcome [] 1 (Raise e)) /\
    (e = RetryError \/ e = HTTPStatusError \/ e = AttributeError).
Proof.
  exists HTTPStatusError. split; [reflexivity|].
  apply (lookup_exceptions (always response_server_error) no_decimal_of_str origin
           (mkOutcome [] 1 (Raise HTTPStatusError))).
  - intros n. left. reflexivity.
  - reflexivity.
  - reflexivity.
Defined.



(* ===================================================================== *)
(** * Further properties of the sinks and of the stages together           *)
(* ===================================================================== *)

(** X18.  The sink only ever appends: the file after the records [l1]
    followed by [l2] is the file after [l1] followed by the lines of [l2],
    so a reader of the file sees it grow by whole lines and never change. *)
Theorem write_data_appends {timestamp datum : Type}
    (str_timestamp : timestamp -> string) (str_datum : datum -> string)
    (before : string) (l1 l2 : list (timestamp * datum)) :
  write_data str_timestamp str_datum before (l1 ++ l2)
  = (write_data str_timestamp str_datum before l1
     ++ text_of (map (format_line str_timestamp str_datum) l2))%string.
Proof.
  unfold write_data. by rewrite fold_left_app, (fold_write _ _ (fold_left _ l1 _)).
Qed.

(** X19.  The two output files line up.  When neither consumer of the
    resolver closes its end, the resolver runs to the end of its input, and
    the averaging stage takes in what the resolver delivered to it without
    failing, then the averages sent on carry, one for one and in the same
    order, the timestamps of the records delivered to the raw-file sink; and
    when the renderings hold no newline the file of averages has as many
    lines as the file of temperatures. *)
Theorem output_files_line_up {timestamp : Type}
    (lookup : nat -> Coordinates -> result (option Decimal))
    (window_size : Z) (received : list (timestamp * Coordinates))
    (str_timestamp : timestamp -> string) (str_datum : Decimal -> string)
    (before1 before2 : string) :
  let r := get_temperature lookup (mkChannel [] None) (mkChannel [] None) received in
  let averages := compute_sliding_average window_size (delivered (to_average r)) in
  stopped r = Ok tt -> is_ok averages.2 = true ->
  map fst averages.1 = map fst (delivered (to_file r)) /\
  ((forall ts, count_newlines (str_timestamp ts) = 0%nat) ->
   (forall d, count_newlines (str_datum d) = 0%nat) ->
   count_newlines (write_data str_timestamp str_datum before2 averages.1)
   = count_newlines (write_data str_timestamp str_datum before1
                       (delivered (to_file r)))).
Proof.
  intros r averages Hstop Hok.
  destruct (temperature_loop_open lookup received 0 [] []) as (sent & Hf & Ha & _).
  fold (get_temperature lookup (mkChannel [] None) (mkChannel [] None) received)
    in Hf, Ha.
  fold r in Hf, Ha. simpl in Hf, Ha.
  destruct (sliding_loop_timestamps window_size (delivered (to_average r))
              (window_init window_size)) as (_ & Heq & _).
  fold (compute_sliding_average window_size (delivered (to_average r))) in Heq.
  fold averages in Heq. specialize (Heq Hok).
  assert (Hts : map fst averages.1 = map fst (delivered (to_file r)))
    by (by rewrite Heq, Hf, Ha).
  split; [done|].
  intros Ht Hd. unfold write_data, open_wt.
  rewrite !fold_write. simpl.
  rewrite !text_of_newlines by done.
  by rewrite <- (length_map fst averages.1), Hts, length_map.
Qed.

Lemma output_files_line_up_witness :
  map fst (compute_sliding_average 2
             (delivered (to_average
                (get_temperature lookup_72 (mkChannel [] None) (mkChannel [] None)
                   [("t1"%string, origin); ("t2"%string, origin)])))).1
  = ["t1"%string; "t2"%string].
Proof.
  assert (Hstop : stopped (get_temperature lookup_72 (mkChannel [] None)
                    (mkChannel [] None)
                    [("t1"%string, origin); ("t2"%string, origin)]) = Ok tt)
    by reflexivity.
  assert (Hok : is_ok (compute_sliding_average 2
             (delivered (to_average
                (get_temperature lookup_72 (mkChannel [] None) (mkChannel [] None)
                   [("t1"%string, origin); ("t2"%string, origin)])))).2 = true)
    by (vm_compute; reflexivity).
  destruct (output_files_line_up lookup_72 2
              [("t1"%string, origin); ("t2"%string, origin)]
              keep (fun _ => "72"%string) EmptyString EmptyString Hstop Hok)
    as [H _].
  exact H.
Defined.

(* ===================================================================== *)
(** * When the average is exact                                            *)
(* ===================================================================== *)

Import exact_facts.

(** X20.  On temperatures with at most [k] fractional digits and magnitude
    at most [B] units of [10^-k], where [window_size * B < 10^28], an
    average that the stage sends is equal to the exact mean of its window
    whenever that mean is itself a decimal of at most 28 significant digits
    with an exponent the context holds (not below [Etiny]): the rounding of
    the quotient only shows when the mean has no such representation, as
    1/3 has none. *)
Theorem sliding_average_exact_when_representable {timestamp : Type}
    (window_size k B : Z) (received : list (timestamp * Decimal))
    (i : nat) (ts : timestamp) (average : Decimal) (c e : Z) :
  0 < window_size < 10 ^ prec -> 0 <= k <= - Etiny -> 0 <= B ->
  window_size * B < 10 ^ prec ->
  Forall (ok_input k B) (map snd received) ->
  (compute_sliding_average window_size received).1 !! i = Some (ts, average) ->
  Z.abs c < 10 ^ prec -> Etiny <= e ->
  (exact_mean (recent window_size (take (S i) (map snd received)))
   == inject_Z c * Qpower (10 # 1) e)%Q ->
  (value average
   == exact_mean (recent window_size (take (S i) (map snd received))))%Q.
Proof.
  intros Hsize Hk HB HwB Hall Hi Hc He Hrep.
  destruct (sliding_loop_totals window_size k B Hsize Hk HB HwB received []
              (window_init window_size)
              (window_init_ok window_size k B Hsize Hk)
              (window_init_tracks window_size Hsize) Hall i ts average Hi)
    as (T & Hv & HT & HeT & Hdiv).
  simpl in Hv, Hdiv.
  set (W := recent window_size (take (S i) (map snd received))) in *.
  assert (Hlen : (0 < length W)%nat).
  { destruct (sliding_loop_timestamps window_size received (window_init window_size))
      as (Hp & _ & _).
    apply prefix_length in Hp. rewrite !length_map in Hp.
    apply lookup_lt_Some in Hi. unfold compute_sliding_average in Hi.
    assert (Z.of_nat (length W) = Z.min (Z.of_nat (length (take (S i) (map snd received))))
                                    window_size)
      by apply (length_recent window_size Hsize).
    rewrite length_take, length_map in *. lia. }
  assert (Hm : (inject_Z (Z.of_nat (length W))
                == value (of_int (Z.of_nat (length W))))%Q).
  { unfold value. rewrite scoeff_of_int. simpl. ring. }
  assert (Hmean : (value T / value (of_int (Z.of_nat (length W))) == exact_mean W)%Q).
  { unfold exact_mean. by rewrite Hv, Hm. }
  rewrite <- Hmean. apply (div_exact T _ average c e); try done.
  - unfold is_zero, of_int; simpl. apply N.eqb_neq. lia.
  - change (exp (of_int _)) with 0. unfold Etop, Emax, prec. lia.
  - by rewrite Hmean.
Qed.

Lemma sliding_average_exact_when_representable_witness :
  (value (mkDecimal false 15 (-1))
   == exact_mean (recent 3 (take 2 [of_int 1; of_int 2])))%Q.
Proof.
  apply (sliding_average_exact_when_representable 3 2 1000000
           [(1%nat, of_int 1); (2%nat, of_int 2)] 1%nat 2%nat
           (mkDecimal false 15 (-1)) 15 (-1)).
  - unfold prec. lia.
  - unfold Etiny, Emin, prec. lia.
  - lia.
  - unfold prec. lia.
  - repeat constructor; vm_compute; discriminate.
  - vm_compute. reflexivity.
  - unfold prec. lia.
  - unfold Etiny, Emin, prec. lia.
  - vm_compute. reflexivity.
Defined.

(* ===================================================================== *)
(** * What ends the extraction stage                                       *)
(* ===================================================================== *)


